(** * Link Editor: the link parsing, classification and cursor arithmetic core

    A shallow embedding of the pure decision layer of the Obsidian
    link-editor plugin.

    - [JsString]: the JavaScript string primitives the code relies on
      ([trim], truthiness, case folding of ASCII letters, [includes]) on
      lists of 8-bit code units.
    - [Scan]: a small scanner monad in which the regular expressions of the
      code are transcribed token by token.
    - [Utils]: the URL classifier (from the [isUrl] / [isAlmostUrl] /
      [normalizeUrl] bodies of the bundled plugin), and the codec, locator,
      synthesizer and validator of [src/utils.ts], a module that is not
      among the sources and is modelled from the specification.
    - [LinkOperations]: [src/linkOperations.ts], parametrised by what it
      imports from [./utils].
    - [Legacy]: the inline edit-link callback and [updateUIState] of the
      bundled plugin.
    - [SuggestionQuery]: the parser of suggestion queries, its
      classification predicates, link values and validation.
    - [SyntaxHider]: the hidden ranges of link syntax, the cursor
      correction and the edit filter of [src/linkSyntaxHider.ts].
    - [LegacyModal] and [FileSuggest]: the handlers of the bundled modal,
      the replacement its callback writes, and the block id added to a
      file.
    - [Clipboard]: the clipboard services.
    - [Modal]: [submit] and the Tab cycle of [src/LinkEditModal.ts].

    Lines are modelled as sequences of code units below 256; offsets count
    code units, as the [ch] of an editor position does. *)

From Stdlib Require Import Bool Arith List ZArith QArith Lia.
From Stdlib Require Import Strings.Ascii Strings.String DecimalString.
Import ListNotations.

Close Scope Q_scope.
Local Open Scope string_scope.
Local Open Scope list_scope.
Local Open Scope nat_scope.

(* ------------------------------------------------------------------ *)
(** ** JavaScript string primitives *)

Module JsString.

Definition chars (s : string) : list ascii := list_ascii_of_string s.
Definition str (l : list ascii) : string := string_of_list_ascii l.

(** [WhiteSpace] and [LineTerminator] code units below 256: TAB, LF, VT,
    FF, CR, SP and NBSP.  This is the set removed by [trim] and matched by
    the class [\s]. *)
Definition isWhiteSpace (c : ascii) : bool :=
  let n := nat_of_ascii c in
  ((9 <=? n) && (n <=? 13)) || (n =? 32) || (n =? 160).

(** The class [\S]. *)
Definition nonSpace (c : ascii) : bool := negb (isWhiteSpace c).

Fixpoint trimStart (l : list ascii) : list ascii :=
  match l with
  | c :: r => if isWhiteSpace c then trimStart r else l
  | [] => []
  end.

Definition trimEnd (l : list ascii) : list ascii :=
  rev (trimStart (rev l)).

(** [String.prototype.trim]. *)
Definition trimL (l : list ascii) : list ascii := trimEnd (trimStart l).
Definition trim (s : string) : string := str (trimL (chars s)).

(** Canonicalisation used by the [i] flag, on ASCII letters. *)
Definition toLower (c : ascii) : ascii :=
  let n := nat_of_ascii c in
  if (65 <=? n) && (n <=? 90) then ascii_of_nat (n + 32) else c.

Definition eqbCI (a b : ascii) : bool := Ascii.eqb (toLower a) (toLower b).

(** Truthiness of a string value: [if (s)] holds for non-empty strings. *)
Definition truthy (s : string) : bool :=
  match s with EmptyString => false | String _ _ => true end.

(** Truthiness of a [string | null] value. *)
Definition truthyOpt (o : option string) : bool :=
  match o with Some s => truthy s | None => false end.

(** [l.startsWith(p)], returning what follows the prefix. *)
Fixpoint stripPrefix (p l : list ascii) : option (list ascii) :=
  match p, l with
  | [], _ => Some l
  | a :: p', b :: l' => if Ascii.eqb a b then stripPrefix p' l' else None
  | _ :: _, [] => None
  end.

(** [s.includes(c)] for a single code unit. *)
Definition includesChar (c : ascii) (l : list ascii) : bool :=
  existsb (Ascii.eqb c) l.

(** [s.includes(needle)]. *)
Fixpoint includes (needle l : list ascii) : bool :=
  match stripPrefix needle l with
  | Some _ => true
  | None => match l with
            | [] => false
            | _ :: r => includes needle r
            end
  end.

End JsString.

(* ------------------------------------------------------------------ *)
(** ** Scanners

    A scanner consumes a prefix of the remaining input and returns a value,
    or fails.  The regular expressions of the code only iterate over
    character classes that exclude the character which must follow, so a
    greedy run never has to give characters back and every pattern below
    is matched deterministically. *)

Module Scan.
Import JsString.

Definition scanner (A : Type) : Type := list ascii -> option (A * list ascii).

Definition ret {A} (a : A) : scanner A := fun l => Some (a, l).

Definition bind {A B} (m : scanner A) (f : A -> scanner B) : scanner B :=
  fun l => match m l with
           | Some (a, r) => f a r
           | None => None
           end.

Declare Scope scan_scope.
Delimit Scope scan_scope with scan.
Notation "x <- m ;; k" := (bind m (fun x => k))
  (at level 61, m at next level, right associativity) : scan_scope.
Notation "m ;;; k" := (bind m (fun _ => k))
  (at level 61, right associativity) : scan_scope.

(** A literal, compared exactly or under the [i] flag. *)
Fixpoint litL (ci : bool) (p : list ascii) : scanner unit :=
  fun l =>
    match p with
    | [] => Some (tt, l)
    | a :: p' =>
        match l with
        | b :: l' =>
            if (if ci then eqbCI a b else Ascii.eqb a b)
            then litL ci p' l' else None
        | [] => None
        end
    end.

Definition lit (s : string) : scanner unit := litL false (chars s).
Definition litCI (s : string) : scanner unit := litL true (chars s).

(** One character of a class. *)
Definition one (p : ascii -> bool) : scanner ascii :=
  fun l => match l with
           | c :: r => if p c then Some (c, r) else None
           | [] => None
           end.

(** [c?] for a literal character: greedy. *)
Definition optChar (ci : bool) (c : ascii) : scanner bool :=
  fun l => match l with
           | b :: r =>
               if (if ci then eqbCI c b else Ascii.eqb c b)
               then Some (true, r) else Some (false, l)
           | [] => Some (false, l)
           end.

(** [(?: g )?]: the group when it matches, nothing otherwise. *)
Definition optional {A} (g : scanner A) : scanner (option A) :=
  fun l => match g l with
           | Some (a, r) => Some (Some a, r)
           | None => Some (None, l)
           end.

(** The longest run of characters of a class. *)
Fixpoint run (p : ascii -> bool) (l : list ascii) : list ascii * list ascii :=
  match l with
  | c :: r => if p c then let (a, b) := run p r in (c :: a, b) else ([], l)
  | [] => ([], [])
  end.

(** [[class]*] *)
Definition many (p : ascii -> bool) : scanner (list ascii) :=
  fun l => Some (run p l).

(** [[class]+] *)
Definition many1 (p : ascii -> bool) : scanner (list ascii) :=
  fun l => match run p l with
           | ([], _) => None
           | (a, b) => Some (a, b)
           end.

(** [$] (no [m] flag): end of input. *)
Definition eol : scanner unit :=
  fun l => match l with [] => Some (tt, l) | _ :: _ => None end.

(** First alternative that matches. *)
Definition alt {A} (a b : scanner A) : scanner A :=
  fun l => match a l with Some x => Some x | None => b l end.

(** [re.test(s)] for a pattern anchored with [^]. *)
Definition test {A} (re : scanner A) (l : list ascii) : bool :=
  match re l with Some _ => true | None => false end.

(** A match found by a global scan: its span and its captures. *)
Record found (A : Type) : Type := mkFound
  { f_start : nat; f_end : nat; f_caps : A }.
Arguments mkFound {A}.
Arguments f_start {A}.
Arguments f_end {A}.
Arguments f_caps {A}.

(** The successive results of [re.exec(line)] for a pattern with the [g]
    flag: the leftmost match from [lastIndex], after which [lastIndex] is
    the end of that match.  [skip] counts the characters of the previous
    match still to be stepped over, [pos] is the index of the head of
    [l]. *)
Fixpoint execAllFrom {A} (re : scanner A) (skip pos : nat) (l : list ascii)
  : list (found A) :=
  match l with
  | [] => []
  | _ :: r =>
      match skip with
      | S k => execAllFrom re k (S pos) r
      | O =>
          match re l with
          | Some (a, rest) =>
              let n := List.length l - List.length rest in
              mkFound pos (pos + n) a :: execAllFrom re (n - 1) (S pos) r
          | None => execAllFrom re 0 (S pos) r
          end
      end
  end.

Definition execAll {A} (re : scanner A) (l : list ascii) : list (found A) :=
  execAllFrom re 0 0 l.

(** [start <= ch && ch <= end] *)
Definition covers {A} (ch : Z) (m : found A) : bool :=
  (Z.of_nat (f_start m) <=? ch)%Z && (ch <=? Z.of_nat (f_end m))%Z.

(** The loop [while ((m = re.exec(line)) !== null) { if (covers) { ...;
    break / return } }]: the first match in scan order whose span holds
    the cursor. *)
Fixpoint firstCovering {A} (ch : Z) (ms : list (found A)) : option (found A) :=
  match ms with
  | [] => None
  | m :: ms' => if covers ch m then Some m else firstCovering ch ms'
  end.

End Scan.

(* ------------------------------------------------------------------ *)
(** ** Data model *)

(** [LinkInfo] of [src/types.ts], as built in [createNewLinkOperation] and
    submitted by the edit form. *)
Record LinkInfo : Type := mkLinkInfo
  { li_text : string;
    li_destination : string;
    li_isWiki : bool;
    li_isEmbed : bool }.

(** [LinkAtCursor]: what [detectLinkAtCursor] returns, by the fields
    [createEditOperation] reads. *)
Record LinkAtCursor : Type := mkLinkAtCursor
  { lac_link : LinkInfo;
    lac_start : Z;
    lac_end : Z;
    lac_enteredFromLeft : bool }.

(** The argument object of [determineLinkFromContext]. *)
Record LinkContextInput : Type := mkLinkContextInput
  { lci_selection : string;
    lci_clipboardText : string;
    lci_cursorUrl : option string;
    lci_line : string;
    lci_cursorCh : Z }.

(** [LinkFromContext]: what [determineLinkFromContext] returns, by the fields
    [createNewLinkOperation] reads. *)
Record LinkFromContext : Type := mkLinkFromContext
  { lfc_text : string;
    lfc_destination : string;
    lfc_isWiki : bool;
    lfc_start : Z;
    lfc_end : Z;
    lfc_shouldSelectText : bool;
    lfc_conversionNotice : option string }.

Inductive Severity : Type := SevError | SevCaution.

Record ValidationWarning : Type := mkWarning
  { w_text : string; w_severity : Severity }.

Record ValidationResult : Type := mkValidation
  { v_isValid : bool;
    v_warnings : list ValidationWarning;
    v_shouldHighlightDest : bool;
    v_shouldHighlightText : bool }.

(* ------------------------------------------------------------------ *)
(** ** Utils *)

Module Utils.
Import JsString Scan.
Local Open Scope scan_scope.

(** *** URL classifier

    [isUrl], [isAlmostUrl] and [normalizeUrl] are the bodies found in the
    bundled plugin ([LinkEditModal.isUrl], [LinkEditModal.isAlmostUrl] and
    the [normalizeUrl] of the edit-link callback). *)

(** [/^https?:\/\/\S+$|^www\.\S+$/i] *)
Definition urlRe : scanner unit :=
  alt (litCI "http" ;;; _ <- optChar true "s"%char ;; lit "://" ;;;
       _ <- many1 nonSpace ;; eol)
      (litCI "www." ;;; _ <- many1 nonSpace ;; eol).

(** [isUrl(str)]: [if (!str) return false; return urlRe.test(str.trim())]. *)
Definition isUrl (s : string) : bool :=
  if negb (truthy s) then false
  else test urlRe (chars (trim s)).

(** The class [[a-zA-Z0-9-]]. *)
Definition labelChar (c : ascii) : bool :=
  let n := nat_of_ascii c in
  ((97 <=? n) && (n <=? 122)) || ((65 <=? n) && (n <=? 90))
  || ((48 <=? n) && (n <=? 57)) || (n =? 45).

Definition notSlash (c : ascii) : bool := negb (Ascii.eqb c "/"%char).

(** [/^htp:\/\/|^htps:\/\/|^http:\/[^\/]|^https\/\/|^www\.[a-zA-Z0-9-]+$/i] *)
Definition almostUrlRe : scanner unit :=
  alt (litCI "htp://")
    (alt (litCI "htps://")
       (alt (litCI "http:/" ;;; _ <- one notSlash ;; ret tt)
          (alt (litCI "https//")
             (litCI "www." ;;; _ <- many1 labelChar ;; eol)))).

(** [isAlmostUrl(str)] *)
Definition isAlmostUrl (s : string) : bool :=
  if negb (truthy s) then false
  else test almostUrlRe (chars (trim s)).

(** [normalizeUrl(str)]: [/^https?:\/\//i] keeps the trimmed string,
    [/^www\./i] prefixes ["https://"]. *)
Definition normalizeUrl (s : string) : string :=
  if negb (truthy s) then s
  else
    let trimmed := trim s in
    if test (litCI "http" ;;; _ <- optChar true "s"%char ;; lit "://")
            (chars trimmed)
    then trimmed
    else if test (litCI "www.") (chars trimmed)
         then ("https://" ++ trimmed)%string
         else trimmed.

(** *** Link syntax *)

Definition notCloseBracket (c : ascii) : bool := negb (Ascii.eqb c "]"%char).
Definition notCloseParen (c : ascii) : bool := negb (Ascii.eqb c ")"%char).
Definition wikiDestChar (c : ascii) : bool :=
  negb (Ascii.eqb c "]"%char) && negb (Ascii.eqb c "|"%char).

(** Captures of a markdown link: embed marker, text, destination. *)
Definition MdCaps : Type := (bool * list ascii * list ascii)%type.

(** Captures of a wiki link: embed marker, destination, display text. *)
Definition WikiCaps : Type := (bool * list ascii * option (list ascii))%type.

(** The markdown pattern of [findMarkdownLinkSyntaxRanges] in
    [src/linkSyntaxHider.ts], which section 4.3 gives for the locator, token
    by token:
    [(!?\[)]  [([^\]]* )]  [\]]  [\(]  [([^)]+)]  [\)] *)
Definition mdLinkRe : scanner MdCaps :=
  bang <- optChar false "!"%char ;; lit "[" ;;;
  t <- many notCloseBracket ;; lit "](" ;;;
  d <- many1 notCloseParen ;; lit ")" ;;;
  ret (bang, t, d).

(** Modelled from the spec: the wiki pattern of the locator in
    [src/utils.ts].  Section 4.3 asks for [!?\[\[...\]\]] with an optional
    [|display]; the body is the wiki pattern of the bundled plugin, so the
    pattern reads [!?\[\[([^\]|]+)(?:\|([^\]]+))?\]\]]. *)
Definition wikiLinkRe : scanner WikiCaps :=
  bang <- optChar false "!"%char ;; lit "[[" ;;;
  d <- many1 wikiDestChar ;;
  t <- optional (lit "|" ;;; many1 notCloseBracket) ;;
  lit "]]" ;;;
  ret (bang, d, t).

(** A pattern anchored at both ends: [^ re $]. *)
Definition whole {A} (re : scanner A) : scanner A :=
  a <- re ;; eol ;;; ret a.

(** What [parseWikiLink] and [parseMarkdownLink] return. *)
Record ParsedLink : Type := mkParsedLink
  { pl_destination : string; pl_text : string; pl_isEmbed : bool }.

(** What [parseClipboardLink] returns. *)
Record ClipboardLink : Type := mkClipboardLink
  { cl_text : string; cl_destination : string; cl_isWiki : bool }.

(** Modelled from the spec: [parseWikiLink] of [src/utils.ts], which is
    not among the sources.  Section 4.2: the whole string is an optional
    [!], then [[[], a destination up to an optional [|displayText], then
    []]]; both fields are trimmed, the text defaults to the destination,
    and any structural mismatch gives null. *)
Definition parseWikiLink (s : string) : option ParsedLink :=
  match whole wikiLinkRe (chars s) with
  | Some ((bang, d, t), _) =>
      let dest := str (trimL d) in
      Some {| pl_destination := dest;
              pl_text := match t with
                         | Some t' => str (trimL t')
                         | None => dest
                         end;
              pl_isEmbed := bang |}
  | None => None
  end.

(** Modelled from the spec: [parseMarkdownLink] of [src/utils.ts].
    Section 4.2: the whole string is [[text](destination)] with an optional
    leading [!]; the first []] closes the text, the destination holds no
    [)]; both fields are trimmed; null on structural mismatch. *)
Definition parseMarkdownLink (s : string) : option ParsedLink :=
  match whole mdLinkRe (chars s) with
  | Some ((bang, t, d), _) =>
      Some {| pl_destination := str (trimL d);
              pl_text := str (trimL t);
              pl_isEmbed := bang |}
  | None => None
  end.

(** Modelled from the spec: [parseClipboardLink] of [src/utils.ts].
    Section 4.3: [parseMarkdownLink] then [parseWikiLink] on the entire
    trimmed string. *)
Definition parseClipboardLink (s : string) : option ClipboardLink :=
  let trimmed := trim s in
  match parseMarkdownLink trimmed with
  | Some p => Some {| cl_text := pl_text p;
                      cl_destination := pl_destination p;
                      cl_isWiki := false |}
  | None =>
      match parseWikiLink trimmed with
      | Some p => Some {| cl_text := pl_text p;
                          cl_destination := pl_destination p;
                          cl_isWiki := true |}
      | None => None
      end
  end.

(** *** Destination codec *)

Definition isSpaceChar (c : ascii) : bool := Ascii.eqb c " "%char.
Definition isCaret (c : ascii) : bool := Ascii.eqb c "^"%char.
Definition isPercent (c : ascii) : bool := Ascii.eqb c "%"%char.

(** Modelled from the spec: the encoding direction of the codec in
    [src/utils.ts].  Section 4.2: space becomes [%20] and caret [%5E]. *)
Fixpoint encodeL (l : list ascii) : list ascii :=
  match l with
  | [] => []
  | c :: r =>
      if isSpaceChar c then chars "%20" ++ encodeL r
      else if isCaret c then chars "%5E" ++ encodeL r
      else c :: encodeL r
  end.

(** Modelled from the spec: the decoding direction of the codec in
    [src/utils.ts].  Section 4.2: [%20] becomes space and [%5E] caret,
    scanning left to right. *)
Fixpoint decodeL (l : list ascii) : list ascii :=
  match l with
  | [] => []
  | a :: t =>
      match t with
      | b :: c :: r =>
          if isPercent a && Ascii.eqb b "2"%char && Ascii.eqb c "0"%char
          then " "%char :: decodeL r
          else if isPercent a && Ascii.eqb b "5"%char && Ascii.eqb c "E"%char
               then "^"%char :: decodeL r
               else a :: decodeL t
      | _ => a :: decodeL t
      end
  end.

(** Modelled from the spec: [wikiToMarkdown] of [src/utils.ts].
    Section 4.2: URLs pass through unchanged; otherwise space and caret
    are percent-encoded; the empty string maps to itself. *)
Definition wikiToMarkdown (dest : string) : string :=
  if isUrl dest then dest else str (encodeL (chars dest)).

(** Modelled from the spec: [markdownToWiki] of [src/utils.ts].
    Section 4.2: null when the input is a URL, otherwise the inverse
    percent-decoding. *)
Definition markdownToWiki (dest : string) : option string :=
  if isUrl dest then None else Some (str (decodeL (chars dest))).

(** A string "without encoded sequences": neither [%20] nor [%5E] occurs
    in it. *)
Definition hasEncodedSequence (s : string) : bool :=
  includes (chars "%20") (chars s) || includes (chars "%5E") (chars s).

(** *** Destination validity *)

(** The characters a wiki file name may not hold: | ^ : * double-quote
    ? backslash and slash. *)
Definition forbiddenWikiChar (c : ascii) : bool :=
  let n := nat_of_ascii c in
  (n =? 124) || (n =? 94) || (n =? 58) || (n =? 42)
  || (n =? 34) || (n =? 63) || (n =? 92) || (n =? 47).

Definition notHash (c : ascii) : bool := negb (Ascii.eqb c "#"%char).

(** The part of a wiki destination before the heading or block suffix. *)
Definition filenamePortion (l : list ascii) : list ascii := fst (run notHash l).

Definition hasForbiddenWikiChar (s : string) : bool :=
  existsb forbiddenWikiChar (filenamePortion (chars s)).

(** Modelled from the spec: [isValidWikiLink] of [src/utils.ts].
    Section 4.2: false for the empty string, for a URL, and when the file
    name part holds a forbidden character. *)
Definition isValidWikiLink (s : string) : bool :=
  if negb (truthy s) then false
  else if isUrl s then false
  else negb (hasForbiddenWikiChar s).

(** Modelled from the spec: [isValidMarkdownLink] of [src/utils.ts].
    Section 4.2: false for the empty string, true for a URL, otherwise
    false exactly when a literal space occurs. *)
Definition isValidMarkdownLink (s : string) : bool :=
  if negb (truthy s) then false
  else if isUrl s then true
  else negb (includesChar " "%char (chars s)).

(** *** Cursor link locator *)

Definition markdownMatches (line : string) : list (found MdCaps) :=
  execAll mdLinkRe (chars line).

Definition wikiMatches (line : string) : list (found WikiCaps) :=
  execAll wikiLinkRe (chars line).

(** The result built for a markdown match holding the cursor. *)
Definition markdownLinkAt (ch : Z) (m : found MdCaps) : LinkAtCursor :=
  let '(bang, t, d) := f_caps m in
  {| lac_link := {| li_text := str t;
                    li_destination := str d;
                    li_isWiki := false;
                    li_isEmbed := bang |};
     lac_start := Z.of_nat (f_start m);
     lac_end := Z.of_nat (f_end m);
     lac_enteredFromLeft := (ch <=? Z.of_nat (f_start m) + 1)%Z |}.

(** The result built for a wiki match holding the cursor; without a
    [|display] part the text is the destination.  The flag is the one
    section 4.3 words, [ch <= start + 2], which is also the test of the
    bundled callback ([Legacy.detect] below).  The suite of
    [src/linkOperations.ts] expects the flag set at offset 5 of
    [[[my-note|My Note]]], so the function of [src/utils.ts] may compute
    it otherwise; the skip positions proved below with this locator
    depend on its span only. *)
Definition wikiLinkAt (ch : Z) (m : found WikiCaps) : LinkAtCursor :=
  let '(bang, d, t) := f_caps m in
  {| lac_link := {| li_text := match t with
                               | Some t' => str t'
                               | None => str d
                               end;
                    li_destination := str d;
                    li_isWiki := true;
                    li_isEmbed := bang |};
     lac_start := Z.of_nat (f_start m);
     lac_end := Z.of_nat (f_end m);
     lac_enteredFromLeft := (ch <=? Z.of_nat (f_start m) + 2)%Z |}.

(** Modelled from the spec: [detectMarkdownLinkAtCursor] of
    [src/utils.ts].  Section 4.3, step 1: scan the line left to right for
    the non-overlapping markdown matches and stop at the first whose span
    holds [ch], bounds included. *)
Definition detectMarkdownLinkAtCursor (line : string) (ch : Z)
  : option LinkAtCursor :=
  match firstCovering ch (markdownMatches line) with
  | Some m => Some (markdownLinkAt ch m)
  | None => None
  end.

(** Modelled from the spec: [detectWikiLinkAtCursor] of [src/utils.ts].
    Section 4.3, step 2: the same scan for wiki matches. *)
Definition detectWikiLinkAtCursor (line : string) (ch : Z)
  : option LinkAtCursor :=
  match firstCovering ch (wikiMatches line) with
  | Some m => Some (wikiLinkAt ch m)
  | None => None
  end.

(** Modelled from the spec: [detectLinkAtCursor] of [src/utils.ts].
    Section 4.3: markdown first, wiki only when no markdown match holds
    the cursor, null when neither does. *)
Definition detectLinkAtCursor (line : string) (ch : Z) : option LinkAtCursor :=
  match detectMarkdownLinkAtCursor line ch with
  | Some r => Some r
  | None => detectWikiLinkAtCursor line ch
  end.

(** *** URL at the cursor *)

(** Modelled from the spec: the pattern [urlAtCursor] of [src/utils.ts]
    scans with.  Section 4.1: the [isUrl] grammar, here without its
    anchors, [https?:\/\/\S+|www\.\S+] under the [i] flag. *)
Definition urlInLineRe : scanner unit :=
  alt (litCI "http" ;;; _ <- optChar true "s"%char ;; lit "://" ;;;
       _ <- many1 nonSpace ;; ret tt)
      (litCI "www." ;;; _ <- many1 nonSpace ;; ret tt).

Definition urlMatches (line : string) : list (found unit) :=
  execAll urlInLineRe (chars line).

(** [line.substring(start, end)] for the span of a match. *)
Definition matchedText {A} (line : string) (m : found A) : string :=
  str (firstn (f_end m - f_start m) (skipn (f_start m) (chars line))).

Definition urlMatchAtCursor (line : string) (ch : Z) : option (found unit) :=
  firstCovering ch (urlMatches line).

(** Modelled from the spec: [urlAtCursor] of [src/utils.ts].  Section
    4.1: the substring matching the URL grammar whose span holds [ch],
    bounds included, chosen by position; null when there is none. *)
Definition urlAtCursor (line : string) (ch : Z) : option string :=
  match urlMatchAtCursor line ch with
  | Some m => Some (matchedText line m)
  | None => None
  end.

(** *** New-link synthesizer *)

(** The arrow U+2192 of the notice, in UTF-8. *)
Definition arrow : string :=
  str [ascii_of_nat 226; ascii_of_nat 134; ascii_of_nat 146].

(** Modelled from the spec: the notice of section 4.4, shown when
    normalisation changed a URL. *)
Definition urlConvertedNotice (original normalized : string) : string :=
  ("URL converted: " ++ original ++ " " ++ arrow ++ " " ++ normalized)%string.

Definition noticeOnChange (original normalized : string) : option string :=
  if String.eqb original normalized then None
  else Some (urlConvertedNotice original normalized).

(** Modelled from the spec: the range of rule 3 of section 4.4, the span
    of the URL under the cursor (the cursor point when the line holds none
    there). *)
Definition urlSpanAtCursor (line : string) (ch : Z) : Z * Z :=
  match urlMatchAtCursor line ch with
  | Some m => (Z.of_nat (f_start m), Z.of_nat (f_end m))
  | None => (ch, ch)
  end.

(** Modelled from the spec: [determineLinkFromContext] of
    [src/utils.ts].  Section 4.4, the six rules in their order: a URL
    selection; any other non-empty selection; a URL at the cursor; a whole
    link in the clipboard; a bare URL in the clipboard; the fallback. *)
Definition determineLinkFromContext (c : LinkContextInput) : LinkFromContext :=
  let selection := lci_selection c in
  let clipboardText := lci_clipboardText c in
  let ch := lci_cursorCh c in
  if isUrl selection then
    let original := trim selection in
    let normalized := normalizeUrl original in
    {| lfc_text := original;
       lfc_destination := normalized;
       lfc_isWiki := false;
       lfc_start := ch; lfc_end := ch;
       lfc_shouldSelectText := true;
       lfc_conversionNotice := noticeOnChange original normalized |}
  else if truthy selection then
    if isUrl clipboardText then
      let normalized := normalizeUrl clipboardText in
      {| lfc_text := selection;
         lfc_destination := normalized;
         lfc_isWiki := false;
         lfc_start := ch; lfc_end := ch;
         lfc_shouldSelectText := false;
         lfc_conversionNotice := noticeOnChange clipboardText normalized |}
    else
      {| lfc_text := selection;
         lfc_destination := clipboardText;
         lfc_isWiki := true;
         lfc_start := ch; lfc_end := ch;
         lfc_shouldSelectText := false;
         lfc_conversionNotice := None |}
  else
    match lci_cursorUrl c with
    | Some cursorUrl =>
        let normalized := normalizeUrl cursorUrl in
        let span := urlSpanAtCursor (lci_line c) ch in
        {| lfc_text := normalized;
           lfc_destination := normalized;
           lfc_isWiki := false;
           lfc_start := fst span; lfc_end := snd span;
           lfc_shouldSelectText := true;
           lfc_conversionNotice := noticeOnChange cursorUrl normalized |}
    | None =>
        match parseClipboardLink clipboardText with
        | Some parsed =>
            {| lfc_text := cl_text parsed;
               lfc_destination := cl_destination parsed;
               lfc_isWiki := cl_isWiki parsed;
               lfc_start := ch; lfc_end := ch;
               lfc_shouldSelectText := false;
               lfc_conversionNotice := None |}
        | None =>
            if isUrl clipboardText then
              let normalized := normalizeUrl clipboardText in
              {| lfc_text := normalized;
                 lfc_destination := normalized;
                 lfc_isWiki := false;
                 lfc_start := ch; lfc_end := ch;
                 lfc_shouldSelectText := true;
                 lfc_conversionNotice :=
                   noticeOnChange clipboardText normalized |}
            else
              {| lfc_text := "";
                 lfc_destination := clipboardText;
                 lfc_isWiki := true;
                 lfc_start := ch; lfc_end := ch;
                 lfc_shouldSelectText := false;
                 lfc_conversionNotice := None |}
        end
    end.

(** *** Link validator *)

Definition initialValidation : ValidationResult :=
  {| v_isValid := true;
     v_warnings := [];
     v_shouldHighlightDest := false;
     v_shouldHighlightText := false |}.

(** Modelled from the spec: an error of section 4.5.  The warning is
    recorded, the result becomes invalid and the destination field is
    highlighted. *)
Definition pushError (text : string) (r : ValidationResult) : ValidationResult :=
  {| v_isValid := false;
     v_warnings := v_warnings r ++ [ {| w_text := text; w_severity := SevError |} ];
     v_shouldHighlightDest := true;
     v_shouldHighlightText := v_shouldHighlightText r |}.

(** Modelled from the spec: a caution of section 4.5.  The warning is
    recorded and nothing else changes. *)
Definition pushCaution (text : string) (r : ValidationResult) : ValidationResult :=
  {| v_isValid := v_isValid r;
     v_warnings := v_warnings r ++ [ {| w_text := text; w_severity := SevCaution |} ];
     v_shouldHighlightDest := v_shouldHighlightDest r;
     v_shouldHighlightText := v_shouldHighlightText r |}.

Definition when (b : bool) (f : ValidationResult -> ValidationResult)
  (r : ValidationResult) : ValidationResult :=
  if b then f r else r.

Definition msgWikiUrl : string :=
  "Wiki links cannot reference external URLs.".
Definition msgForbidden : string :=
  "Destination contains characters that are not allowed in a wiki link.".
Definition msgSpaces : string :=
  "Destination contains unencoded spaces.".
Definition msgAlmostUrl : string :=
  "Destination looks like a URL but may have typos (check protocol).".
Definition msgTooLong : string :=
  "Destination is very long.".

(** Modelled from the spec: [validateLinkDestination] of [src/utils.ts].
    Section 4.5: an empty destination is valid without warnings; then, in
    the order of the section, a wiki link to a URL (error), a wiki
    destination with a forbidden character (error), a markdown
    destination with a literal space (caution), an almost-URL that is not
    a URL (caution), a destination longer than 500 (caution). *)
Definition validateLinkDestination (dest text : string) (isWiki : bool)
  : ValidationResult :=
  if negb (truthy dest) then initialValidation
  else
    let r0 := initialValidation in
    let r1 := when (isWiki && isUrl dest) (pushError msgWikiUrl) r0 in
    let r2 := when (isWiki && hasForbiddenWikiChar dest) (pushError msgForbidden) r1 in
    let r3 := when (negb isWiki && includesChar " "%char (chars dest))
                (pushCaution msgSpaces) r2 in
    let r4 := when (isAlmostUrl dest && negb (isUrl dest))
                (pushCaution msgAlmostUrl) r3 in
    let r5 := when (500 <? String.length dest) (pushCaution msgTooLong) r4 in
    r5.

End Utils.

(* ------------------------------------------------------------------ *)
(** ** Link operations ([src/linkOperations.ts]) *)

(** [EditorContext] *)
Record EditorContext : Type := mkEditorContext
  { ec_cursorLine : Z;
    ec_cursorCh : Z;
    ec_lineText : string;
    ec_selection : string;
    ec_clipboardText : string }.

(** An editor position [{ line, ch }]. *)
Record Position : Type := mkPosition { line : Z; ch : Z }.

(** [EditorContextWithSelection]; the two positions are optional. *)
Record EditorContextWithSelection : Type := mkEditorContextWithSelection
  { ecs_context : EditorContext;
    ecs_selectionFrom : option Position;
    ecs_selectionTo : option Position;
    ecs_hasSelection : bool }.

(** [LinkOperation] *)
Record LinkOperation : Type := mkLinkOperation
  { op_link : LinkInfo;
    op_start : Z;
    op_end : Z;
    op_enteredFromLeft : bool;
    op_isNewLink : bool;
    op_shouldSelectText : bool;
    op_conversionNotice : option string }.

(** [SkipLinkContext] *)
Record SkipLinkContext : Type := mkSkipLinkContext
  { sk_cursorLine : Z;
    sk_cursorCh : Z;
    sk_lineText : string;
    sk_lineCount : Z;
    sk_prevLineLength : Z }.

(** [SkipLinkResult] *)
Record SkipLinkResult : Type := mkSkipLinkResult
  { position : Position; skipped : bool }.

Module LinkOperations.
Import JsString.

Section Imports.

(** What the module imports from [./utils]. *)
Variable detectLinkAtCursor : string -> Z -> option LinkAtCursor.
Variable urlAtCursor : string -> Z -> option string.
Variable determineLinkFromContext : LinkContextInput -> LinkFromContext.

Definition createEditOperation (existingLink : LinkAtCursor) : LinkOperation :=
  {| op_link := lac_link existingLink;
     op_start := lac_start existingLink;
     op_end := lac_end existingLink;
     op_enteredFromLeft := lac_enteredFromLeft existingLink;
     op_isNewLink := false;
     op_shouldSelectText := false;
     op_conversionNotice := None |}.

Definition createNewLinkOperation
  (lineText : string) (cursorCh : Z) (selection clipboardText : string)
  : LinkOperation :=
  let cursorUrl := urlAtCursor lineText cursorCh in
  let linkContext :=
    determineLinkFromContext
      {| lci_selection := selection;
         lci_clipboardText := clipboardText;
         lci_cursorUrl := cursorUrl;
         lci_line := lineText;
         lci_cursorCh := cursorCh |} in
  let link :=
    {| li_text := lfc_text linkContext;
       li_destination := lfc_destination linkContext;
       li_isWiki := lfc_isWiki linkContext;
       li_isEmbed := false |} in
  let '(start, end_) :=
    if truthy selection then (cursorCh, cursorCh)
    else if truthyOpt cursorUrl
         then (lfc_start linkContext, lfc_end linkContext)
         else (cursorCh, cursorCh) in
  {| op_link := link;
     op_start := start;
     op_end := end_;
     op_enteredFromLeft := true;
     op_isNewLink := true;
     op_shouldSelectText := lfc_shouldSelectText linkContext;
     op_conversionNotice := lfc_conversionNotice linkContext |}.

Definition determineLinkOperation (context : EditorContext)
  : option LinkOperation :=
  match detectLinkAtCursor (ec_lineText context) (ec_cursorCh context) with
  | Some existingLink => Some (createEditOperation existingLink)
  | None =>
      Some (createNewLinkOperation (ec_lineText context) (ec_cursorCh context)
              (ec_selection context) (ec_clipboardText context))
  end.

Definition determineLinkOperationWithSelection
  (context : EditorContextWithSelection) : option LinkOperation :=
  let c := ecs_context context in
  match detectLinkAtCursor (ec_lineText c) (ec_cursorCh c) with
  | Some existingLink => Some (createEditOperation existingLink)
  | None =>
      let cursorUrl := urlAtCursor (ec_lineText c) (ec_cursorCh c) in
      let linkContext :=
        determineLinkFromContext
          {| lci_selection := ec_selection c;
             lci_clipboardText := ec_clipboardText c;
             lci_cursorUrl := cursorUrl;
             lci_line := ec_lineText c;
             lci_cursorCh := ec_cursorCh c |} in
      let link :=
        {| li_text := lfc_text linkContext;
           li_destination := lfc_destination linkContext;
           li_isWiki := lfc_isWiki linkContext;
           li_isEmbed := false |} in
      let '(start, end_) :=
        match ecs_hasSelection context,
              ecs_selectionFrom context, ecs_selectionTo context with
        | true, Some selectionFrom, Some selectionTo =>
            (ch selectionFrom, ch selectionTo)
        | _, _, _ =>
            if truthyOpt cursorUrl
            then (lfc_start linkContext, lfc_end linkContext)
            else (ec_cursorCh c, ec_cursorCh c)
        end in
      Some {| op_link := link;
              op_start := start;
              op_end := end_;
              op_enteredFromLeft := true;
              op_isNewLink := true;
              op_shouldSelectText := lfc_shouldSelectText linkContext;
              op_conversionNotice := lfc_conversionNotice linkContext |}
  end.

(** [const linkCenter = (start + end) / 2] *)
Definition linkCenter (start end_ : Z) : Q :=
  ((inject_Z start + inject_Z end_) / 2)%Q.

(** [const isOnLeftSide = cursorCh <= linkCenter] *)
Definition isOnLeftSide (cursorCh start end_ : Z) : bool :=
  Qle_bool (inject_Z cursorCh) (linkCenter start end_).

Definition skipTo (l c : Z) : SkipLinkResult :=
  {| position := {| line := l; ch := c |}; skipped := true |}.

Definition determineSkipPosition (context : SkipLinkContext) : SkipLinkResult :=
  let cursorCh := sk_cursorCh context in
  let lineText := sk_lineText context in
  let cursorLine := sk_cursorLine context in
  let lineCount := sk_lineCount context in
  let prevLineLength := sk_prevLineLength context in
  let len := Z.of_nat (String.length lineText) in
  match detectLinkAtCursor lineText cursorCh with
  | None =>
      {| position := {| line := cursorLine; ch := cursorCh |};
         skipped := false |}
  | Some existingLink =>
      let start := lac_start existingLink in
      let end_ := lac_end existingLink in
      let onLeft := isOnLeftSide cursorCh start end_ in
      if ((start =? 0) && (len <=? end_))%Z then
        (* Link spans entire line *)
        if onLeft then
          if (cursorLine + 1 <? lineCount)%Z then skipTo (cursorLine + 1) 0
          else if (0 <? cursorLine)%Z then skipTo (cursorLine - 1) prevLineLength
          else skipTo cursorLine end_
        else
          if (0 <? cursorLine)%Z then skipTo (cursorLine - 1) prevLineLength
          else if (cursorLine + 1 <? lineCount)%Z then skipTo (cursorLine + 1) 0
          else skipTo cursorLine 0
      else if onLeft then
        (* Skip right *)
        if (end_ <? len)%Z then skipTo cursorLine (end_ + 1)
        else if (cursorLine + 1 <? lineCount)%Z then skipTo (cursorLine + 1) 0
        else if (0 <? start)%Z then skipTo cursorLine (start - 1)
        else skipTo cursorLine end_
      else
        (* Skip left *)
        if (0 <? start)%Z then skipTo cursorLine (start - 1)
        else if (0 <? cursorLine)%Z then skipTo (cursorLine - 1) prevLineLength
        else if (end_ <? len)%Z then skipTo cursorLine (end_ + 1)
        else skipTo cursorLine 0
  end.

End Imports.

End LinkOperations.

(* ------------------------------------------------------------------ *)
(** ** The bundled plugin: inline edit-link callback and [updateUIState] *)

Module Legacy.
Import JsString Scan.
Local Open Scope scan_scope.

(** [/\[([^\]]+)\]\(([^)]+)\)/g] *)
Definition mdRegex : scanner (list ascii * list ascii) :=
  lit "[" ;;; t <- many1 Utils.notCloseBracket ;; lit "](" ;;;
  d <- many1 Utils.notCloseParen ;; lit ")" ;;;
  ret (t, d).

(** [/\[\[([^\]|]+)(?:\|([^\]]+))?\]\]/g] *)
Definition wikiRegex : scanner (list ascii * option (list ascii)) :=
  lit "[[" ;;; d <- many1 Utils.wikiDestChar ;;
  t <- optional (lit "|" ;;; many1 Utils.notCloseBracket) ;;
  lit "]]" ;;;
  ret (d, t).

(** The link object of the callback: [{ text, destination, isWiki }]. *)
Record Link : Type := mkLink
  { text : string; destination : string; isWiki : bool }.

(** What the callback hands to the modal and keeps for the replacement. *)
Record Plan : Type := mkPlan
  { p_link : Link;
    p_start : Z;
    p_end : Z;
    p_enteredFromLeft : bool;
    p_shouldSelectText : bool;
    p_conversionNotice : option string }.

(** Steps 1 and 2 of the callback: the markdown loop, then the wiki loop
    when the first found nothing. *)
Definition detect (line : string) (cursorCh : Z) : option (Link * Z * Z * bool) :=
  match firstCovering cursorCh (execAll mdRegex (chars line)) with
  | Some m =>
      let '(t, d) := f_caps m in
      Some ({| text := str t; destination := str d; isWiki := false |},
            Z.of_nat (f_start m), Z.of_nat (f_end m),
            (cursorCh <=? Z.of_nat (f_start m) + 1)%Z)
  | None =>
      match firstCovering cursorCh (execAll wikiRegex (chars line)) with
      | Some m =>
          let '(d, t) := f_caps m in
          Some ({| text := match t with Some t' => str t' | None => str d end;
                   destination := str d;
                   isWiki := true |},
                Z.of_nat (f_start m), Z.of_nat (f_end m),
                (cursorCh <=? Z.of_nat (f_start m) + 2)%Z)
      | None => None
      end
  end.

(** The check mark U+2713 and the arrow U+2192 of the notice, in UTF-8. *)
Definition checkMark : string :=
  str [ascii_of_nat 226; ascii_of_nat 156; ascii_of_nat 147].

Definition notice (original normalized : string) : option string :=
  if String.eqb original normalized then None
  else Some (checkMark ++ " URL converted: " ++ original ++ " "
             ++ Utils.arrow ++ " " ++ normalized)%string.

(** Step 3 of the callback, the new link.  [clipboardText] is the
    clipboard after [trim], or the empty string when reading failed. *)
Definition newLink (selection clipboardText : string)
  : Link * bool * option string :=
  let isSelectionUrl := Utils.isUrl selection in
  let isClipboardUrl := Utils.isUrl clipboardText in
  if isSelectionUrl then
    let original := trim selection in
    let normalized := Utils.normalizeUrl original in
    ({| text := original; destination := normalized; isWiki := negb true |},
     true, notice original normalized)
  else if truthy selection then
    if isClipboardUrl then
      let normalized := Utils.normalizeUrl clipboardText in
      ({| text := selection; destination := normalized; isWiki := negb true |},
       false, notice clipboardText normalized)
    else
      ({| text := selection; destination := clipboardText; isWiki := negb false |},
       false, None)
  else if isClipboardUrl then
    let normalized := Utils.normalizeUrl clipboardText in
    ({| text := normalized; destination := normalized; isWiki := negb true |},
     true, notice clipboardText normalized)
  else
    ({| text := ""; destination := clipboardText; isWiki := negb false |},
     false, None).

(** The whole decision of the callback.  [selected] is the pair of
    offsets of [editor.getCursor("from")] and [("to")] when
    [editor.somethingSelected()], and [clipboard] is the raw clipboard
    text, absent when reading it throws. *)
Definition editorCallback (line : string) (cursorCh : Z) (selection : string)
  (selected : option (Z * Z)) (clipboard : option string) : Plan :=
  match detect line cursorCh with
  | Some (link, start, end_, enteredFromLeft) =>
      {| p_link := link; p_start := start; p_end := end_;
         p_enteredFromLeft := enteredFromLeft;
         p_shouldSelectText := false;
         p_conversionNotice := None |}
  | None =>
      let clipboardText :=
        match clipboard with Some t => trim t | None => "" end in
      let '(link, shouldSelectText, conversionNotice) :=
        newLink selection clipboardText in
      let '(start, end_) :=
        match selected with
        | Some (from, to) => (from, to)
        | None => (cursorCh, cursorCh)
        end in
      {| p_link := link; p_start := start; p_end := end_;
         p_enteredFromLeft := true;
         p_shouldSelectText := shouldSelectText;
         p_conversionNotice := conversionNotice |}
  end.

(** A warning of [updateUIState]: its text and its CSS class. *)
Inductive WarningClass : Type := LinkWarningError | LinkWarningCaution.

(** The warning sign U+26A0 with its variation selector U+FE0F, in
    UTF-8. *)
Definition warningSign : string :=
  str [ascii_of_nat 226; ascii_of_nat 154; ascii_of_nat 160;
       ascii_of_nat 239; ascii_of_nat 184; ascii_of_nat 143].

(** A number in a template literal: its decimal digits. *)
Definition decimal (n : nat) : string :=
  NilZero.string_of_uint (Nat.to_uint n).

(** The warnings [updateUIState] collects for the destination field, and
    whether it adds the highlight class to that field. *)
Definition updateUIState (isWiki : bool) (dest : string)
  : list (string * WarningClass) * bool :=
  let destLength := if truthy dest then String.length dest else 0 in
  let w1 := if isWiki && Utils.isUrl dest
            then [((warningSign ++ " Warning: Valid URL detected but Wiki Link format selected. Wiki links cannot link to external URLs.")%string,
                   LinkWarningError)]
            else [] in
  let w2 := if negb (Utils.isUrl dest) && Utils.isAlmostUrl dest
            then [((warningSign ++ " Warning: Destination looks like a URL but may have typos (check protocol).")%string,
                   LinkWarningCaution)]
            else [] in
  let w3 := if 500 <? destLength
            then [((warningSign ++ " Warning: Destination is very long ("
                    ++ decimal destLength
                    ++ " chars). Consider shortening for reliability.")%string,
                   LinkWarningCaution)]
            else [] in
  let warnings := w1 ++ w2 ++ w3 in
  (warnings, 0 <? List.length warnings).

End Legacy.

(* ------------------------------------------------------------------ *)
(** ** Vocabulary of the statements *)

(** The detected link covers the whole line:
    [start === 0 && end >= lineText.length]. *)
Definition spansWholeLine (lk : LinkAtCursor) (lineText : string) : Prop :=
  (lac_start lk = 0 /\ Z.of_nat (String.length lineText) <= lac_end lk)%Z.

(** A next line exists: [cursorLine + 1 < lineCount]. *)
Definition hasNextLine (ctx : SkipLinkContext) : Prop :=
  (sk_cursorLine ctx + 1 < sk_lineCount ctx)%Z.

(** A previous line exists: [cursorLine > 0]. *)
Definition hasPrevLine (ctx : SkipLinkContext) : Prop :=
  (0 < sk_cursorLine ctx)%Z.

(** The offset [c] is within the line. *)
Definition withinLine (c : Z) (lineText : string) : Prop :=
  (c <= Z.of_nat (String.length lineText))%Z.

Definition pos (l c : Z) : Position := {| line := l; ch := c |}.

(** The span of a match holds the offset, bounds included. *)
Definition holds {A} (m : Scan.found A) (c : Z) : Prop :=
  (Z.of_nat (Scan.f_start m) <= c <= Z.of_nat (Scan.f_end m))%Z.

(** Every character of a string is white space; the empty string is. *)
Definition blank (s : string) : Prop :=
  Forall (fun c => JsString.isWhiteSpace c = true) (JsString.chars s).

(** A scanner never matches the empty word: what it returns is a proper
    suffix of what it was given. *)
Definition consumes {A} (re : Scan.scanner A) : Prop :=
  forall l a rest, re l = Some (a, rest) ->
    exists pre, l = pre ++ rest /\ pre <> [].

(** The words matched by the markdown pattern: an optional [!], [[], a
    text without []], [](], a non-empty destination without [)], and [)]. *)
Definition MdShape (l : list ascii) (caps : Utils.MdCaps) (rest : list ascii)
  : Prop :=
  let '(bang, t, d) := caps in
  l = (if bang then ["!"%char] else []) ++ ["["%char] ++ t
      ++ ["]"%char; "("%char] ++ d ++ [")"%char] ++ rest
  /\ forallb Utils.notCloseBracket t = true
  /\ d <> []
  /\ forallb Utils.notCloseParen d = true.

(** The words matched by the wiki pattern: an optional [!], [[[], a
    non-empty destination without []] and [|], optionally [|] and a
    non-empty text without []], and []]]. *)
Definition WikiShape (l : list ascii) (caps : Utils.WikiCaps) (rest : list ascii)
  : Prop :=
  let '(bang, d, t) := caps in
  l = (if bang then ["!"%char] else []) ++ ["["%char; "["%char] ++ d
      ++ match t with Some t' => "|"%char :: t' | None => [] end
      ++ ["]"%char; "]"%char] ++ rest
  /\ d <> []
  /\ forallb Utils.wikiDestChar d = true
  /\ match t with
     | Some t' => t' <> [] /\ forallb Utils.notCloseBracket t' = true
     | None => True
     end.

(** The words matched by the markdown pattern of the bundled plugin:
    [[], a non-empty text without []], [](], a non-empty destination
    without [)], and [)]; no embed marker. *)
Definition BundledMdShape (l : list ascii) (caps : list ascii * list ascii)
  (rest : list ascii) : Prop :=
  let '(t, d) := caps in
  l = ["["%char] ++ t ++ ["]"%char; "("%char] ++ d ++ [")"%char] ++ rest
  /\ t <> []
  /\ forallb Utils.notCloseBracket t = true
  /\ d <> []
  /\ forallb Utils.notCloseParen d = true.

(** The words matched by the wiki pattern of the bundled plugin: [[[], a
    non-empty destination without []] and [|], optionally [|] and a
    non-empty text without []], and []]]; no embed marker. *)
Definition BundledWikiShape (l : list ascii)
  (caps : list ascii * option (list ascii)) (rest : list ascii) : Prop :=
  let '(d, t) := caps in
  l = ["["%char; "["%char] ++ d
      ++ match t with Some t' => "|"%char :: t' | None => [] end
      ++ ["]"%char; "]"%char] ++ rest
  /\ d <> []
  /\ forallb Utils.wikiDestChar d = true
  /\ match t with
     | Some t' => t' <> [] /\ forallb Utils.notCloseBracket t' = true
     | None => True
     end.

(** A warning of severity [error] is present. *)
Definition hasErrorWarning (r : ValidationResult) : Prop :=
  exists w, In w (v_warnings r) /\ w_severity w = SevError.

(** A scanner fails on any input that starts with white space. *)
Definition failsOnSpace {A} (re : Scan.scanner A) : Prop :=
  forall c r, JsString.isWhiteSpace c = true -> re (c :: r) = None.

(** The first character of a list, if any, is not white space. *)
Definition noLead (l : list ascii) : Prop :=
  match l with
  | c :: _ => JsString.isWhiteSpace c = false
  | [] => True
  end.

(** The output invariant of a [LinkOperation]. *)
Definition operationInvariant (op : LinkOperation) : Prop :=
  (op_isNewLink op = false ->
     op_shouldSelectText op = false /\ op_conversionNotice op = None)
  /\ (op_isNewLink op = true ->
        op_enteredFromLeft op = true /\ li_isEmbed (op_link op) = false).

(** The successive matches of a global scan, as [exec] yields them: each
    is the leftmost match at or after [lastIndex], and the scan resumes at
    its end. *)
Inductive ExecSeq {A} (re : Scan.scanner A) (l : list ascii)
  : nat -> list (Scan.found A) -> Prop :=
| ExecDone : forall lastIndex,
    (forall p, lastIndex <= p -> re (skipn p l) = None) ->
    ExecSeq re l lastIndex []
| ExecStep : forall lastIndex p a rest ms,
    lastIndex <= p -> p < List.length l ->
    (forall q, lastIndex <= q -> q < p -> re (skipn q l) = None) ->
    re (skipn p l) = Some (a, rest) ->
    List.length rest < List.length (skipn p l) ->
    ExecSeq re l (List.length l - List.length rest) ms ->
    ExecSeq re l lastIndex
      (Scan.mkFound p (List.length l - List.length rest) a :: ms).


(* ------------------------------------------------------------------ *)
(** ** Suggestion queries ([suggestionQuery.ts])

    The parser of the text typed in the destination field, its
    classification predicates, the link value generated for a chosen
    suggestion and the validation of a parsed query. *)

Module SuggestionQuery.
Import JsString.

(** [s.startsWith(p)] *)
Definition startsWith (p l : list ascii) : bool :=
  match stripPrefix p l with Some _ => true | None => false end.

(** [s.split(sep)] for a non-empty separator: the pieces between the
    successive, non-overlapping occurrences of [sep], scanned from the
    left.  [skip] counts the characters of the separator just found that
    are still to be stepped over. *)
Fixpoint split (sep : list ascii) (skip : nat) (l : list ascii)
  : list (list ascii) :=
  match l with
  | [] => [[]]
  | c :: r =>
      match skip with
      | S k => split sep k r
      | O =>
          match stripPrefix sep l with
          | Some _ => [] :: split sep (List.length sep - 1) r
          | None =>
              match split sep 0 r with
              | p :: ps => (c :: p) :: ps
              | [] => [[c]]
              end
          end
      end
  end.

Inductive QueryType : Type :=
| GlobalHeading      (* 'global-heading' *)
| CurrentBlock       (* 'current-block' *)
| CurrentHeading     (* 'current-heading' *)
| Block              (* 'block' *)
| FileBlock          (* 'file-block' *)
| FileHeading        (* 'file-heading' *)
| FileBlockNoHash    (* 'file-block-no-hash' *)
| File.              (* 'file' *)

Definition QueryType_eqb (a b : QueryType) : bool :=
  match a, b with
  | GlobalHeading, GlobalHeading | CurrentBlock, CurrentBlock
  | CurrentHeading, CurrentHeading | Block, Block
  | FileBlock, FileBlock | FileHeading, FileHeading
  | FileBlockNoHash, FileBlockNoHash | File, File => true
  | _, _ => false
  end.

(** [ParsedQuery]: [fileName] and [searchTerm] are optional fields. *)
Record ParsedQuery : Type := mkParsedQuery
  { type : QueryType;
    fileName : option string;
    searchTerm : option string;
    original : string }.

(** [const [fileName, searchTerm = ''] = trimmed.split(sep)]: the first
    element of the array, and the second or its default. *)
Definition splitPair (sep : string) (trimmed : list ascii)
  : option string * option string :=
  let parts := split (chars sep) 0 trimmed in
  (option_map str (nth_error parts 0),
   Some (match nth_error parts 1 with Some s => str s | None => "" end)).

(** [parseSuggestionQuery(query)]: the eight patterns, in order. *)
Definition parseSuggestionQuery (query : string) : ParsedQuery :=
  let trimmed := chars (trim query) in
  let original := trim query in
  if startsWith (chars "##") trimmed then
    {| type := GlobalHeading; fileName := None;
       searchTerm := Some (str (skipn 2 trimmed)); original := original |}
  else if startsWith (chars "#^") trimmed then
    {| type := CurrentBlock; fileName := None;
       searchTerm := Some (str (skipn 2 trimmed)); original := original |}
  else if startsWith (chars "#") trimmed
          && negb (startsWith (chars "##") trimmed) then
    {| type := CurrentHeading; fileName := None;
       searchTerm := Some (str (skipn 1 trimmed)); original := original |}
  else if startsWith (chars "^") trimmed then
    {| type := Block; fileName := None;
       searchTerm := Some (str (skipn 1 trimmed)); original := original |}
  else if includes (chars "#^") trimmed then
    let '(fileName, searchTerm) := splitPair "#^" trimmed in
    {| type := FileBlock; fileName := fileName;
       searchTerm := searchTerm; original := original |}
  else if includes (chars "#") trimmed
          && negb (startsWith (chars "#") trimmed) then
    let '(fileName, searchTerm) := splitPair "#" trimmed in
    {| type := FileHeading; fileName := fileName;
       searchTerm := searchTerm; original := original |}
  else if includes (chars "^") trimmed
          && negb (startsWith (chars "^") trimmed) then
    let '(fileName, searchTerm) := splitPair "^" trimmed in
    {| type := FileBlockNoHash; fileName := fileName;
       searchTerm := searchTerm; original := original |}
  else
    {| type := File; fileName := None;
       searchTerm := Some (str trimmed); original := original |}.

(** [[...].includes(query.type)] *)
Definition isFileSpecificQuery (query : ParsedQuery) : bool :=
  existsb (QueryType_eqb (type query))
    [FileBlock; FileHeading; FileBlockNoHash; File].

Definition isBlockQuery (query : ParsedQuery) : bool :=
  existsb (QueryType_eqb (type query))
    [CurrentBlock; Block; FileBlock; FileBlockNoHash].

Definition isHeadingQuery (query : ParsedQuery) : bool :=
  existsb (QueryType_eqb (type query))
    [GlobalHeading; CurrentHeading; FileHeading].

Definition isCurrentFileQuery (query : ParsedQuery) : bool :=
  existsb (QueryType_eqb (type query))
    [CurrentBlock; CurrentHeading; Block].

Definition isGlobalQuery (query : ParsedQuery) : bool :=
  QueryType_eqb (type query) GlobalHeading.

(** [(query.searchTerm?.length ?? 0) > 0] *)
Definition hasSearchTerm (query : ParsedQuery) : bool :=
  0 <? match searchTerm query with
       | Some s => String.length s
       | None => 0
       end.

Record LinkValueContext : Type := mkLinkValueContext
  { query : ParsedQuery;
    currentFilePath : option string;
    targetFileBasename : option string;
    headingText : option string;
    blockId : option string }.

(** An optional field inside a template literal: a missing one prints as
    [undefined]. *)
Definition tpl (o : option string) : string :=
  match o with Some s => s | None => "undefined" end.

(** [generateLinkValue(context)] *)
Definition generateLinkValue (context : LinkValueContext) : string :=
  let q := query context in
  match type q with
  | GlobalHeading | CurrentHeading =>
      if QueryType_eqb (type q) CurrentHeading
         || negb (truthyOpt (targetFileBasename context))
      then ("#" ++ tpl (headingText context))%string
      else (tpl (targetFileBasename context) ++ "#"
            ++ tpl (headingText context))%string
  | FileHeading =>
      (tpl (targetFileBasename context) ++ "#"
       ++ tpl (headingText context))%string
  | CurrentBlock | Block =>
      ("#^" ++ tpl (blockId context))%string
  | FileBlock | FileBlockNoHash =>
      (tpl (targetFileBasename context) ++ "#^"
       ++ tpl (blockId context))%string
  | File =>
      match targetFileBasename context with Some s => s | None => "" end
  end.

Definition quote : string := String (ascii_of_nat 34) EmptyString.

Definition msgFileNameRequired : string :=
  "File name is required for this query type".
Definition msgFileNamePipe : string :=
  ("File name contains " ++ quote ++ "|" ++ quote
   ++ " which may cause issues")%string.
Definition msgFileNameBrackets : string :=
  ("File name contains " ++ quote ++ "[[" ++ quote ++ " or " ++ quote
   ++ "]]" ++ quote ++ " which are not allowed")%string.

(** [validateQuery(query)]: the warnings in the order they are pushed,
    and [valid: warnings.length === 0]. *)
Definition validateQuery (query : ParsedQuery) : bool * list string :=
  let w1 :=
    if isFileSpecificQuery query && negb (QueryType_eqb (type query) File)
    then
      if negb (truthyOpt (fileName query))
         || match fileName query with
            | Some f => String.eqb (trim f) ""
            | None => false
            end
      then [msgFileNameRequired] else []
    else [] in
  let w2 :=
    match fileName query with
    | Some f =>
        if truthy f then
          (if includes (chars "|") (chars f)
           then [msgFileNamePipe] else [])
          ++ (if includes (chars "[[") (chars f)
                 || includes (chars "]]") (chars f)
              then [msgFileNameBrackets] else [])
        else []
    | None => []
    end in
  let warnings := w1 ++ w2 in
  (List.length warnings =? 0, warnings).

End SuggestionQuery.

(* ------------------------------------------------------------------ *)
(** ** Hidden link syntax ([linkSyntaxHider.ts])

    The ranges of a line that hold link syntax, the correction of a cursor
    that lands in one of them, and the filter that rejects edits of
    them. *)

Module SyntaxHider.
Import JsString Scan.

Inductive Side : Type :=
| Leading      (* "leading" *)
| Trailing.    (* "trailing" *)

Record HiddenRange : Type := mkHiddenRange
  { from : Z; to : Z; side : Side }.

(** The body of the loop of [findMarkdownLinkSyntaxRanges] for one match
    [m]: [m[1]] is the prefix [!?\[], [m[2]] the text. *)
Definition markdownRangesOfMatch (lineFrom : Z) (m : found Utils.MdCaps)
  : list HiddenRange :=
  let '(bang, m2, _) := f_caps m in
  let m1 := (if bang then ["!"%char] else []) ++ ["["%char] in
  let fullStart := (lineFrom + Z.of_nat (f_start m))%Z in
  let prefixLen := Z.of_nat (List.length m1) in
  let textLen := Z.of_nat (List.length m2) in
  let textStart := (fullStart + prefixLen)%Z in
  let textEnd := (textStart + textLen)%Z in
  let fullEnd := (fullStart + Z.of_nat (f_end m - f_start m))%Z in
  (if (fullStart <? textStart)%Z
   then [{| from := fullStart; to := textStart; side := Leading |}]
   else [])
  ++ (if (textEnd <? fullEnd)%Z
      then [{| from := textEnd; to := fullEnd; side := Trailing |}]
      else []).

(** [findMarkdownLinkSyntaxRanges(lineText, lineFrom)]: the loop over the
    matches of the global pattern. *)
Definition findMarkdownLinkSyntaxRanges (lineText : string) (lineFrom : Z)
  : list HiddenRange :=
  flat_map (markdownRangesOfMatch lineFrom)
    (execAll Utils.mdLinkRe (chars lineText)).

(** [l.indexOf(needle, from)] for a non-empty needle; [pos] is the index
    of the head of [l]. *)
Fixpoint indexOfAt (needle l : list ascii) (pos : nat) : option nat :=
  match stripPrefix needle l with
  | Some _ => Some pos
  | None => match l with
            | [] => None
            | _ :: r => indexOfAt needle r (S pos)
            end
  end.

Definition indexOf (needle l : list ascii) (from : nat) : option nat :=
  indexOfAt needle (skipn from l) from.

(** [l.lastIndexOf(c)] for one character. *)
Fixpoint lastIndexOfAt (c : ascii) (l : list ascii) (pos : nat) : option nat :=
  match l with
  | [] => None
  | x :: r =>
      match lastIndexOfAt c r (S pos) with
      | Some i => Some i
      | None => if Ascii.eqb c x then Some pos else None
      end
  end.

Definition lastIndexOf (c : ascii) (l : list ascii) : option nat :=
  lastIndexOfAt c l 0.

(** [s.substring(a, b)] for [a <= b]. *)
Definition substring (l : list ascii) (a b : nat) : list ascii :=
  firstn (b - a) (skipn a l).

(** The loop of [findWikiLinkSyntaxRanges] from [searchIdx].  Every turn
    moves [searchIdx] forward by at least four characters, so [fuel]
    turns are enough when [fuel + searchIdx] reaches the length of the
    line. *)
Fixpoint wikiLoop (fuel : nat) (lineText : list ascii) (lineFrom : Z)
  (searchIdx : nat) : list HiddenRange :=
  match fuel with
  | O => []
  | S fuel' =>
      if searchIdx <? List.length lineText then
        match indexOf (chars "[[") lineText searchIdx with
        | None => []
        | Some openIdx =>
            match indexOf (chars "]]") lineText (openIdx + 2) with
            | None => []
            | Some closeIdx =>
                let hasEmbed :=
                  (0 <? openIdx)
                  && match nth_error lineText (openIdx - 1) with
                     | Some c => Ascii.eqb c "!"%char
                     | None => false
                     end in
                let rangeStart :=
                  (lineFrom
                   + Z.of_nat (if hasEmbed then openIdx - 1 else openIdx))%Z in
                let innerStart := openIdx + 2 in
                let innerContent := substring lineText innerStart closeIdx in
                let fullEnd := (lineFrom + Z.of_nat closeIdx + 2)%Z in
                match lastIndexOf "|"%char innerContent with
                | Some pipeIdx =>
                    let textStart :=
                      (lineFrom + Z.of_nat innerStart
                       + Z.of_nat pipeIdx + 1)%Z in
                    let textEnd := (lineFrom + Z.of_nat closeIdx)%Z in
                    [{| from := rangeStart; to := textStart;
                        side := Leading |};
                     {| from := textEnd; to := fullEnd; side := Trailing |}]
                | None =>
                    let textStart := (lineFrom + Z.of_nat innerStart)%Z in
                    let textEnd := (lineFrom + Z.of_nat closeIdx)%Z in
                    [{| from := rangeStart; to := textStart;
                        side := Leading |};
                     {| from := textEnd; to := fullEnd; side := Trailing |}]
                end
                ++ wikiLoop fuel' lineText lineFrom (closeIdx + 2)
            end
        end
      else []
  end.

(** [findWikiLinkSyntaxRanges(lineText, lineFrom)] *)
Definition findWikiLinkSyntaxRanges (lineText : string) (lineFrom : Z)
  : list HiddenRange :=
  wikiLoop (String.length lineText) (chars lineText) lineFrom 0.

(** A range without side, as [findWikiDestMarkRanges] returns them. *)
Record MarkRange : Type := mkMarkRange
  { markFrom : Z; markTo : Z }.

(** The loop of [findWikiDestMarkRanges] (the version of the extension
    kept in [LinkEditModal.ts]) from [searchIdx]: for a wiki link with a
    pipe, the destination and the pipe. *)
Fixpoint destMarkLoop (fuel : nat) (lineText : list ascii) (lineFrom : Z)
  (searchIdx : nat) : list MarkRange :=
  match fuel with
  | O => []
  | S fuel' =>
      if searchIdx <? List.length lineText then
        match indexOf (chars "[[") lineText searchIdx with
        | None => []
        | Some openIdx =>
            match indexOf (chars "]]") lineText (openIdx + 2) with
            | None => []
            | Some closeIdx =>
                let innerStart := openIdx + 2 in
                let innerContent := substring lineText innerStart closeIdx in
                match lastIndexOf "|"%char innerContent with
                | Some pipeIdx =>
                    let destStart := (lineFrom + Z.of_nat innerStart)%Z in
                    let destEnd :=
                      (lineFrom + Z.of_nat innerStart
                       + Z.of_nat pipeIdx + 1)%Z in
                    if (destStart <? destEnd)%Z
                    then [{| markFrom := destStart; markTo := destEnd |}]
                    else []
                | None => []
                end
                ++ destMarkLoop fuel' lineText lineFrom (closeIdx + 2)
            end
        end
      else []
  end.

(** [findWikiDestMarkRanges(lineText, lineFrom)] *)
Definition findWikiDestMarkRanges (lineText : string) (lineFrom : Z)
  : list MarkRange :=
  destMarkLoop (String.length lineText) (chars lineText) lineFrom 0.

(** The test [inside] of [correctCursorPos]. *)
Definition inside (h : HiddenRange) (pos : Z) : bool :=
  match side h with
  | Leading => (from h <=? pos)%Z && (pos <? to h)%Z
  | Trailing => (from h <? pos)%Z && (pos <=? to h)%Z
  end.

(** [correctCursorPos(pos, oldPos, hidden, docLength)]: [None] is
    [null]. *)
Fixpoint correctCursorPos (pos oldPos : Z) (hidden : list HiddenRange)
  (docLength : Z) : option Z :=
  match hidden with
  | [] => None
  | h :: rest =>
      if negb (inside h pos) then correctCursorPos pos oldPos rest docLength
      else
        let movingRight := (oldPos <=? pos)%Z in
        match side h with
        | Leading =>
            Some (if movingRight then to h else Z.max 0 (from h - 1))
        | Trailing =>
            Some (if movingRight then Z.min docLength (to h + 1) else from h)
        end
  end.

(** The passes of [cursorCorrector] on one selection head:
    [for (pass = 0; pass < 3; pass++)], stopping at the first [null].
    The result is the head and whether it was adjusted. *)
Fixpoint correctHead (passes : nat) (head oldHead : Z)
  (hidden : list HiddenRange) (docLen : Z) : Z * bool :=
  match passes with
  | O => (head, false)
  | S n =>
      match correctCursorPos head oldHead hidden docLen with
      | None => (head, false)
      | Some corrected =>
          (fst (correctHead n corrected oldHead hidden docLen), true)
      end
  end.

(** The test of [protectSyntaxFilter] on the changed ranges
    [(fromA, toA)] of a transaction: some change touches some hidden
    range. *)
Definition dominated (changes : list (Z * Z)) (hidden : list HiddenRange)
  : bool :=
  existsb
    (fun ch => existsb
                 (fun h => (fst ch <? to h)%Z && (from h <? snd ch)%Z)
                 hidden)
    changes.

(** [protectSyntaxFilter]: whether the transaction is kept.  [hidden] is
    the field of the start state, absent when the field is not
    installed. *)
Definition protectSyntaxFilter (docChanged inputOrDelete : bool)
  (hidden : option (list HiddenRange)) (changes : list (Z * Z)) : bool :=
  if negb docChanged then true
  else if negb inputOrDelete then true
  else match hidden with
       | None => true
       | Some [] => true
       | Some hs => negb (dominated changes hs)
       end.

End SyntaxHider.

(* ------------------------------------------------------------------ *)
(** ** The bundled plugin: the modal and the replacement it triggers *)

Module LegacyModal.
Import JsString.

(** What the handlers of the bundled [LinkEditModal] read and write:
    [this.isWiki], [this.wasUrl] and the values of the two inputs. *)
Record Modal : Type := mkModal
  { isWiki : bool;
    wasUrl : bool;
    textInput : string;
    destInput : string }.

(** What [updateUIState] shows: the warnings and the highlight. *)
Definition Shown : Type := (list (string * Legacy.WarningClass) * bool)%type.

(** [onOpen]: a URL destination forces the markdown form; the inputs
    take the fields of the link; [updateUIState] runs at the end. *)
Definition onOpen (link : Legacy.Link) : Modal * Shown :=
  let isWiki0 :=
    if Utils.isUrl (Legacy.destination link) then false
    else Legacy.isWiki link in
  let m := {| isWiki := isWiki0;
              wasUrl := Utils.isUrl (Legacy.destination link);
              textInput := Legacy.text link;
              destInput := Legacy.destination link |} in
  (m, Legacy.updateUIState (isWiki m) (destInput m)).

(** [handleDestInput], run on every input event of the destination. *)
Definition handleDestInput (m : Modal) : Modal * Shown :=
  let val := destInput m in
  let isNowUrl := Utils.isUrl val in
  let m' := {| isWiki := if isNowUrl then false else isWiki m;
               wasUrl := isNowUrl;
               textInput := textInput m;
               destInput := destInput m |} in
  (m', Legacy.updateUIState (isWiki m') (destInput m')).

(** The [onChange] of the link type toggle. *)
Definition onToggle (m : Modal) (value : bool) : Modal * Shown :=
  let m' := {| isWiki := value;
               wasUrl := wasUrl m;
               textInput := textInput m;
               destInput := destInput m |} in
  (m', Legacy.updateUIState (isWiki m') (destInput m')).

(** [submit]: the link handed to [onSubmit], or nothing when a field is
    empty after [trim]. *)
Definition submit (m : Modal) : option Legacy.Link :=
  let linkText := trim (textInput m) in
  let linkDest := trim (destInput m) in
  if negb (truthy linkText) || negb (truthy linkDest) then None
  else Some {| Legacy.text := linkText;
               Legacy.destination := linkDest;
               Legacy.isWiki := isWiki m |}.

(** The replacement text the edit-link callback builds from the
    submitted link. *)
Definition replacement (result : Legacy.Link) : string :=
  if Legacy.isWiki result then
    if String.eqb (Legacy.text result) (Legacy.destination result)
    then ("[[" ++ Legacy.destination result ++ "]]")%string
    else ("[[" ++ Legacy.destination result ++ "|"
          ++ Legacy.text result ++ "]]")%string
  else ("[" ++ Legacy.text result ++ "]("
        ++ Legacy.destination result ++ ")")%string.

(** [editor.replaceRange(replacement, {line, ch: start}, {line, ch: end})]
    as it changes the text of the line: what is before [start], the
    replacement, what is after [end]. *)
Definition replaceRange (lineText replacement : string) (start end_ : Z)
  : string :=
  str (firstn (Z.to_nat start) (chars lineText)
       ++ chars replacement
       ++ skipn (Z.to_nat end_) (chars lineText)).

(** The offset handed to [editor.setCursor]. *)
Definition newCh (alwaysMoveToEnd enteredFromLeft : bool) (start : Z)
  (replacement : string) : Z :=
  if alwaysMoveToEnd then (start + Z.of_nat (String.length replacement))%Z
  else if enteredFromLeft
       then (start + Z.of_nat (String.length replacement))%Z
       else start.

(** The callback given to the modal: the new text of the line and the
    new cursor offset. *)
Definition onSubmit (alwaysMoveToEnd : bool) (plan : Legacy.Plan)
  (lineText : string) (result : Legacy.Link) : string * Z :=
  let r := replacement result in
  (replaceRange lineText r (Legacy.p_start plan) (Legacy.p_end plan),
   newCh alwaysMoveToEnd (Legacy.p_enteredFromLeft plan)
     (Legacy.p_start plan) r).

End LegacyModal.

(* ------------------------------------------------------------------ *)
(** ** The bundled plugin: the file suggester *)

Module FileSuggest.
Import JsString.

(** The line feed the file content is split and joined on. *)
Definition newline : list ascii := [ascii_of_nat 10].

(** [parts.join(sep)] *)
Fixpoint join (sep : list ascii) (parts : list (list ascii)) : list ascii :=
  match parts with
  | [] => []
  | p :: ps =>
      match ps with
      | [] => p
      | _ :: _ => p ++ sep ++ join sep ps
      end
  end.

(** [addBlockIdToFile(file, position, blockId)] as it maps the content
    read from the file to the content written back; [endLine] is
    [position.end.line].  Nothing is written when [lines[endLine]] is
    undefined: calling [trimEnd] on it throws. *)
Definition addBlockIdToFile (content : string) (endLine : nat)
  (blockId : string) : option string :=
  let lines := SuggestionQuery.split newline 0 (chars content) in
  match nth_error lines endLine with
  | None => None
  | Some l =>
      Some (str (join newline
                   (firstn endLine lines
                    ++ (trimEnd l ++ chars (" ^" ++ blockId))
                    :: skipn (S endLine) lines)))
  end.

End FileSuggest.

(* ------------------------------------------------------------------ *)
(** ** Clipboard services ([services/clipboard.ts])

    The services are objects with a private state; a call takes the
    state and returns the new state with the promise it settles. *)

Module Clipboard.

(** A promise once settled: rejected with the message of the error, or
    fulfilled with a value. *)
Inductive Settled (A : Type) : Type :=
| Rejected (message : string)
| Fulfilled (value : A).
Arguments Rejected {A}.
Arguments Fulfilled {A}.

(** [interface ClipboardService], for a service whose state has type
    [C]. *)
Class ClipboardService (C : Type) : Type :=
  { readText : C -> C * Settled string;
    writeText : string -> C -> C * Settled unit }.

(** [interface MockClipboardOptions]: three optional fields. *)
Record MockClipboardOptions : Type := mkMockClipboardOptions
  { initialText : option string;
    shouldFail : option bool;
    errorMessage : option string }.

(** The closure of [createMockClipboard]: its options and the two
    variables [text] and [writeHistory]. *)
Record MockClipboard : Type := mkMockClipboard
  { options : MockClipboardOptions;
    text : string;
    writeHistory : list string }.

(** [if (options.shouldFail)] *)
Definition failing (o : MockClipboardOptions) : bool :=
  match shouldFail o with Some b => b | None => false end.

(** [new Error(options.errorMessage ?? 'Clipboard access denied')] *)
Definition accessError (o : MockClipboardOptions) : string :=
  match errorMessage o with
  | Some m => m
  | None => "Clipboard access denied"
  end.

Definition createMockClipboard (o : MockClipboardOptions) : MockClipboard :=
  {| options := o;
     text := match initialText o with Some t => t | None => "" end;
     writeHistory := [] |}.

#[export] Instance mockClipboard : ClipboardService MockClipboard :=
  {| readText := fun m =>
       if failing (options m) then (m, Rejected (accessError (options m)))
       else (m, Fulfilled (text m));
     writeText := fun newText m =>
       if failing (options m) then (m, Rejected (accessError (options m)))
       else ({| options := options m;
                text := newText;
                writeHistory := writeHistory m ++ [newText] |},
             Fulfilled tt) |}.

(** The test helpers of the mock. *)
Definition getText (m : MockClipboard) : string := text m.

Definition setText (newText : string) (m : MockClipboard) : MockClipboard :=
  {| options := options m; text := newText;
     writeHistory := writeHistory m |}.

Definition getWriteHistory (m : MockClipboard) : list string :=
  writeHistory m.

(** The closure of [createTrackingClipboard]: the wrapped service and
    the three tracking variables. *)
Record TrackingClipboard (C : Type) : Type := mkTrackingClipboard
  { realClipboard : C;
    readCount : nat;
    writeCount : nat;
    writtenTexts : list string }.
Arguments mkTrackingClipboard {C}.
Arguments realClipboard {C}.
Arguments readCount {C}.
Arguments writeCount {C}.
Arguments writtenTexts {C}.

Definition createTrackingClipboard {C} (real : C) : TrackingClipboard C :=
  {| realClipboard := real; readCount := 0; writeCount := 0;
     writtenTexts := [] |}.

(** The tracking service counts and records before it delegates. *)
#[export] Instance trackingClipboard {C} `{ClipboardService C}
  : ClipboardService (TrackingClipboard C) :=
  {| readText := fun t =>
       let '(real, settled) := readText (realClipboard t) in
       ({| realClipboard := real;
           readCount := S (readCount t);
           writeCount := writeCount t;
           writtenTexts := writtenTexts t |}, settled);
     writeText := fun text t =>
       let '(real, settled) := writeText text (realClipboard t) in
       ({| realClipboard := real;
           readCount := readCount t;
           writeCount := S (writeCount t);
           writtenTexts := writtenTexts t ++ [text] |}, settled) |}.

Definition reset {C} (t : TrackingClipboard C) : TrackingClipboard C :=
  {| realClipboard := realClipboard t; readCount := 0; writeCount := 0;
     writtenTexts := [] |}.

(** [nullClipboard]: no state. *)
#[export] Instance nullClipboard : ClipboardService unit :=
  {| readText := fun u => (u, Fulfilled "");
     writeText := fun _ u => (u, Fulfilled tt) |}.

(** [browserClipboard] over [navigator.clipboard], taken as a service
    with a state of its own: a failed read is caught and gives the
    empty string, a write is passed on. *)
Record BrowserClipboard (N : Type) : Type := mkBrowserClipboard
  { navigatorClipboard : N }.
Arguments mkBrowserClipboard {N}.
Arguments navigatorClipboard {N}.

#[export] Instance browserClipboard {N} `{ClipboardService N}
  : ClipboardService (BrowserClipboard N) :=
  {| readText := fun b =>
       let '(n, settled) := readText (navigatorClipboard b) in
       ({| navigatorClipboard := n |},
        match settled with
        | Fulfilled v => Fulfilled v
        | Rejected _ => Fulfilled ""
        end);
     writeText := fun text b =>
       let '(n, settled) := writeText text (navigatorClipboard b) in
       ({| navigatorClipboard := n |}, settled) |}.

End Clipboard.

(* ------------------------------------------------------------------ *)
(** ** The modal ([LinkEditModal.ts]) *)

Module Modal.
Import JsString.

(** What [submit] reads: the values of the two inputs, [this.isWiki]
    and the value of the embed toggle. *)
Record Inputs : Type := mkInputs
  { textInput : string;
    destInput : string;
    isWiki : bool;
    embedToggle : bool }.

(** [submit]: the link handed to [onSubmit], or nothing when the
    destination is empty after [trim]; an empty text is replaced by the
    destination. *)
Definition submit (m : Inputs) : option LinkInfo :=
  let linkText := trim (textInput m) in
  let linkDest := trim (destInput m) in
  if negb (truthy linkDest) then None
  else
    let finalText := if negb (truthy linkText) then linkDest else linkText in
    Some {| li_text := finalText;
            li_destination := linkDest;
            li_isWiki := isWiki m;
            li_isEmbed := embedToggle m |}.

(** The index arithmetic of the Tab key handler.  [indexOfActive] is
    [focusable.indexOf(active)], [length] is [focusable.length]; [%] is
    the remainder that takes the sign of the dividend. *)
Definition nextIndex (indexOfActive : Z) (shiftKey : bool) (length : Z) : Z :=
  let index := if (indexOfActive =? -1)%Z then 0%Z else indexOfActive in
  let forward := negb shiftKey in
  let step := if forward then 1%Z else (-1)%Z in
  Z.rem (index + step + length) length.

End Modal.

(* ------------------------------------------------------------------ *)
(** ** Vocabulary of the further statements *)

(** A parsed query with a file part: the typed text is the file name, the
    separator, the search term, and possibly a remainder that starts with
    a further separator and is dropped. *)
Definition anchored (sep : string) (p : SuggestionQuery.ParsedQuery)
  (term : string) : Prop :=
  exists f rest,
    SuggestionQuery.fileName p = Some f
    /\ SuggestionQuery.original p = (f ++ sep ++ term ++ rest)%string
    /\ (rest = "" \/ exists r, rest = (sep ++ r)%string)
    /\ f <> ""
    /\ JsString.includes (JsString.chars sep) (JsString.chars f) = false
    /\ JsString.includes (JsString.chars sep) (JsString.chars term) = false.

(** A name that can be written on either side of an anchor separator
    unchanged: its own trim, with neither [#] nor [^] in it. *)
Definition plainName (s : string) : Prop :=
  JsString.trim s = s
  /\ JsString.includesChar "#"%char (JsString.chars s) = false
  /\ JsString.includesChar "^"%char (JsString.chars s) = false.

(** The text of a line between two document offsets. *)
Definition visibleText (lineText : string) (lineFrom s e : Z) : list ascii :=
  SyntaxHider.substring (JsString.chars lineText)
    (Z.to_nat (s - lineFrom)) (Z.to_nat (e - lineFrom)).

(** Hidden ranges that come as one leading and one trailing range per
    link, each range non-empty, every range starting at or after the end
    of the one before, all between [lo] and [hi]; [visible] holds of the
    span left between the two ranges of a link. *)
Fixpoint linkPairs (visible : Z -> Z -> Prop) (lo hi : Z)
  (rs : list SyntaxHider.HiddenRange) : Prop :=
  match rs with
  | [] => True
  | a :: b :: rest =>
      SyntaxHider.side a = SyntaxHider.Leading
      /\ SyntaxHider.side b = SyntaxHider.Trailing
      /\ (lo <= SyntaxHider.from a < SyntaxHider.to a)%Z
      /\ (SyntaxHider.to a <= SyntaxHider.from b)%Z
      /\ (SyntaxHider.from b < SyntaxHider.to b <= hi)%Z
      /\ visible (SyntaxHider.to a) (SyntaxHider.from b)
      /\ linkPairs visible (SyntaxHider.to b) hi rest
  | [_] => False
  end.

(** A hidden range lies in a document of the given length. *)
Definition rangeInDoc (docLength : Z) (h : SyntaxHider.HiddenRange) : Prop :=
  (0 <= SyntaxHider.from h /\ SyntaxHider.from h <= SyntaxHider.to h
   /\ SyntaxHider.to h <= docLength)%Z.

(** A submitted link whose fields can be written in its syntax: both
    non-empty; for a wiki link a destination without []] and [|] and a
    text without []]; for a markdown link a text without []] and a
    destination without [)]. *)
Definition writable (r : Legacy.Link) : Prop :=
  Legacy.text r <> "" /\ Legacy.destination r <> ""
  /\ forallb Utils.notCloseBracket (JsString.chars (Legacy.text r)) = true
  /\ if Legacy.isWiki r
     then forallb Utils.wikiDestChar
            (JsString.chars (Legacy.destination r)) = true
     else forallb Utils.notCloseParen
            (JsString.chars (Legacy.destination r)) = true.

(** The test [/^https?:\/\//i] of [normalizeUrl]: the text starts with
    an explicit scheme. *)
Definition hasScheme (s : string) : bool :=
  Scan.test (Scan.bind (Scan.litCI "http")
               (fun _ => Scan.bind (Scan.optChar true "s"%char)
                           (fun _ => Scan.lit "://")))
    (JsString.chars s).

(** A call on a clipboard service, and a sequence of calls made one
    after the other; a rejected promise leaves the later calls to be
    made. *)
Inductive Call : Type :=
| ReadText
| WriteText (text : string).

Definition call {C} `{Clipboard.ClipboardService C} (c : Call) (s : C) : C :=
  match c with
  | ReadText => fst (Clipboard.readText s)
  | WriteText t => fst (Clipboard.writeText t s)
  end.

Definition calls {C} `{Clipboard.ClipboardService C} (cs : list Call) (s : C)
  : C :=
  fold_left (fun s c => call c s) cs s.

(** The texts of the write calls of a sequence, in order, and the number
    of its read calls. *)
Definition written (cs : list Call) : list string :=
  flat_map (fun c => match c with WriteText t => [t] | ReadText => [] end) cs.

Definition reads (cs : list Call) : nat :=
  List.length (filter (fun c => match c with ReadText => true
                                        | WriteText _ => false end) cs).

(** One hidden range lies before another: it ends where the other
    starts or earlier, and strictly earlier when both are on the same
    side of their links. *)
Definition rangeBefore (x y : SyntaxHider.HiddenRange) : Prop :=
  (SyntaxHider.to x <= SyntaxHider.from y)%Z
  /\ (SyntaxHider.side x = SyntaxHider.side y ->
      (SyntaxHider.to x < SyntaxHider.from y)%Z).
(* ------------------------------------------------------------------ *)
(** ** Properties of [src/linkOperations.ts] *)

Section SkipFacts.

Variable detectLinkAtCursor : string -> Z -> option LinkAtCursor.

Local Abbreviation determineSkipPosition :=
  (LinkOperations.determineSkipPosition detectLinkAtCursor).

Lemma isOnLeftSide_iff (c s e : Z) :
  LinkOperations.isOnLeftSide c s e = true <-> (2 * c <= s + e)%Z.
Proof.
  unfold LinkOperations.isOnLeftSide, LinkOperations.linkCenter.
  rewrite Qle_bool_iff.
  unfold Qle, Qdiv, Qmult, Qplus, Qinv, inject_Z.
  cbn -[Z.mul Z.add]. lia.
Qed.

Lemma isOnLeftSide_false_iff (c s e : Z) :
  LinkOperations.isOnLeftSide c s e = false <-> (s + e < 2 * c)%Z.
Proof.
  destruct (LinkOperations.isOnLeftSide c s e) eqn:E.
  - apply isOnLeftSide_iff in E. split; [discriminate | lia].
  - split; [intros _ | reflexivity].
    destruct (Z.le_gt_cases (2 * c) (s + e)) as [H | H]; [| lia].
    apply isOnLeftSide_iff in H. congruence.
Qed.

Lemma isOnLeftSide_Q (c s e : Z) :
  LinkOperations.isOnLeftSide c s e = true
  <-> (inject_Z c <= (inject_Z s + inject_Z e) / 2)%Q.
Proof.
  unfold LinkOperations.isOnLeftSide, LinkOperations.linkCenter.
  apply Qle_bool_iff.
Qed.

Lemma spansWholeLine_test lk lineText :
  ((lac_start lk =? 0) && (Z.of_nat (String.length lineText) <=? lac_end lk))%Z = true
  <-> spansWholeLine lk lineText.
Proof.
  unfold spansWholeLine.
  rewrite andb_true_iff, Z.eqb_eq, Z.leb_le. tauto.
Qed.

Lemma skip_unfold_none ctx :
  detectLinkAtCursor (sk_lineText ctx) (sk_cursorCh ctx) = None ->
  determineSkipPosition ctx =
    {| position := pos (sk_cursorLine ctx) (sk_cursorCh ctx); skipped := false |}.
Proof.
  intros H. unfold LinkOperations.determineSkipPosition. rewrite H. reflexivity.
Qed.

Lemma skip_skipped_iff ctx :
  skipped (determineSkipPosition ctx) = true
  <-> exists lk, detectLinkAtCursor (sk_lineText ctx) (sk_cursorCh ctx) = Some lk.
Proof.
  unfold LinkOperations.determineSkipPosition.
  destruct (detectLinkAtCursor (sk_lineText ctx) (sk_cursorCh ctx)) as [lk |].
  - split; [eauto | intros _].
    repeat match goal with |- context [if ?b then _ else _] => destruct b end;
      reflexivity.
  - simpl. split; [discriminate | intros [lk H]; discriminate].
Qed.

Ltac zbool :=
  repeat match goal with
    | H : (_ <? _)%Z = true |- _ => apply Z.ltb_lt in H
    | H : (_ <? _)%Z = false |- _ => apply Z.ltb_ge in H
    | H : (_ <=? _)%Z = true |- _ => apply Z.leb_le in H
    | H : (_ <=? _)%Z = false |- _ => apply Z.leb_gt in H
    | H : (_ =? _)%Z = true |- _ => apply Z.eqb_eq in H
    | H : (_ =? _)%Z = false |- _ => apply Z.eqb_neq in H
    end.

Ltac skip_cases :=
  repeat match goal with
    | |- context [if ?b then _ else _] => destruct b eqn:?
    end;
  zbool;
  unfold spansWholeLine, hasNextLine, hasPrevLine, withinLine, pos in *;
  repeat split; intros;
  solve [ reflexivity | discriminate | exfalso; lia ].

(** C6. When no link is detected at the cursor offset, nothing is skipped
    and the position returned is the input cursor position. *)
Theorem skip_no_link ctx :
  detectLinkAtCursor (sk_lineText ctx) (sk_cursorCh ctx) = None ->
  skipped (determineSkipPosition ctx) = false
  /\ position (determineSkipPosition ctx)
     = {| line := sk_cursorLine ctx; ch := sk_cursorCh ctx |}.
Proof.
  intros H. rewrite (skip_unfold_none ctx H). split; reflexivity.
Qed.

(** C4. For a detected link that does not cover the whole line the skip is
    performed, and the target is: from the left side, just past the link
    when that is within the line, else the start of the next line, else
    just before the link, else the end of the link; from the right side,
    just before the link, else the end of the previous line, else just past
    the link, else the start of the line. *)
Theorem skip_normal_case ctx lk :
  detectLinkAtCursor (sk_lineText ctx) (sk_cursorCh ctx) = Some lk ->
  ~ spansWholeLine lk (sk_lineText ctx) ->
  let s := lac_start lk in
  let e := lac_end lk in
  let ln := sk_cursorLine ctx in
  let r := determineSkipPosition ctx in
  skipped r = true
  /\ (LinkOperations.isOnLeftSide (sk_cursorCh ctx) s e = true ->
        (withinLine (e + 1) (sk_lineText ctx) -> position r = pos ln (e + 1))
        /\ (~ withinLine (e + 1) (sk_lineText ctx) -> hasNextLine ctx ->
              position r = pos (ln + 1) 0)
        /\ (~ withinLine (e + 1) (sk_lineText ctx) -> ~ hasNextLine ctx ->
              (0 < s)%Z -> position r = pos ln (s - 1))
        /\ (~ withinLine (e + 1) (sk_lineText ctx) -> ~ hasNextLine ctx ->
              ~ (0 < s)%Z -> position r = pos ln e))
  /\ (LinkOperations.isOnLeftSide (sk_cursorCh ctx) s e = false ->
        ((0 < s)%Z -> position r = pos ln (s - 1))
        /\ (~ (0 < s)%Z -> hasPrevLine ctx ->
              position r = pos (ln - 1) (sk_prevLineLength ctx))
        /\ (~ (0 < s)%Z -> ~ hasPrevLine ctx ->
              withinLine (e + 1) (sk_lineText ctx) -> position r = pos ln (e + 1))
        /\ (~ (0 < s)%Z -> ~ hasPrevLine ctx ->
              ~ withinLine (e + 1) (sk_lineText ctx) -> position r = pos ln 0)).
Proof.
  intros H Hn. cbv zeta.
  unfold LinkOperations.determineSkipPosition. rewrite H.
  destruct ((lac_start lk =? 0)%Z
            && (Z.of_nat (String.length (sk_lineText ctx)) <=? lac_end lk)%Z)
    eqn:W.
  - apply spansWholeLine_test in W. contradiction.
  - clear W Hn H. unfold LinkOperations.skipTo. cbn [skipped position].
    skip_cases.
Qed.

Lemma skip_whole_line_general ctx lk :
  detectLinkAtCursor (sk_lineText ctx) (sk_cursorCh ctx) = Some lk ->
  spansWholeLine lk (sk_lineText ctx) ->
  let e := lac_end lk in
  let ln := sk_cursorLine ctx in
  let r := determineSkipPosition ctx in
  skipped r = true
  /\ (LinkOperations.isOnLeftSide (sk_cursorCh ctx) (lac_start lk) e = true ->
        (hasNextLine ctx -> position r = pos (ln + 1) 0)
        /\ (~ hasNextLine ctx -> hasPrevLine ctx ->
              position r = pos (ln - 1) (sk_prevLineLength ctx))
        /\ (~ hasNextLine ctx -> ~ hasPrevLine ctx -> position r = pos ln e))
  /\ (LinkOperations.isOnLeftSide (sk_cursorCh ctx) (lac_start lk) e = false ->
        (hasPrevLine ctx -> position r = pos (ln - 1) (sk_prevLineLength ctx))
        /\ (~ hasPrevLine ctx -> hasNextLine ctx -> position r = pos (ln + 1) 0)
        /\ (~ hasPrevLine ctx -> ~ hasNextLine ctx -> position r = pos ln 0)).
Proof.
  intros H Hw. cbv zeta.
  unfold LinkOperations.determineSkipPosition. rewrite H.
  apply spansWholeLine_test in Hw. rewrite Hw. clear Hw H.
  unfold LinkOperations.skipTo. cbn [skipped position].
  skip_cases.
Qed.

Lemma skip_side_general ctx lk :
  detectLinkAtCursor (sk_lineText ctx) (sk_cursorCh ctx) = Some lk ->
  (0 < lac_start lk)%Z ->
  (lac_end lk < Z.of_nat (String.length (sk_lineText ctx)))%Z ->
  determineSkipPosition ctx =
    {| position :=
         if (2 * sk_cursorCh ctx <=? lac_start lk + lac_end lk)%Z
         then pos (sk_cursorLine ctx) (lac_end lk + 1)
         else pos (sk_cursorLine ctx) (lac_start lk - 1);
       skipped := true |}.
Proof.
  intros H Hs He.
  unfold LinkOperations.determineSkipPosition. rewrite H.
  destruct ((lac_start lk =? 0)%Z
            && (Z.of_nat (String.length (sk_lineText ctx)) <=? lac_end lk)%Z)
    eqn:W.
  - apply spansWholeLine_test in W. destruct W; lia.
  - clear W.
    destruct (LinkOperations.isOnLeftSide (sk_cursorCh ctx) (lac_start lk) (lac_end lk))
      eqn:L.
    + apply isOnLeftSide_iff in L. apply Z.leb_le in L. rewrite L.
      apply Z.ltb_lt in He. rewrite He. reflexivity.
    + apply isOnLeftSide_false_iff in L.
      assert (L' : (2 * sk_cursorCh ctx <=? lac_start lk + lac_end lk)%Z = false)
        by (apply Z.leb_gt; lia).
      rewrite L'. apply Z.ltb_lt in Hs. rewrite Hs. reflexivity.
Qed.

End SkipFacts.

Section OperationFacts.

Variable detectLinkAtCursor : string -> Z -> option LinkAtCursor.
Variable urlAtCursor : string -> Z -> option string.
Variable determineLinkFromContext : LinkContextInput -> LinkFromContext.

Local Abbreviation determineLinkOperation :=
  (LinkOperations.determineLinkOperation
     detectLinkAtCursor urlAtCursor determineLinkFromContext).
Local Abbreviation determineLinkOperationWithSelection :=
  (LinkOperations.determineLinkOperationWithSelection
     detectLinkAtCursor urlAtCursor determineLinkFromContext).

Lemma createEditOperation_invariant lk :
  operationInvariant (LinkOperations.createEditOperation lk).
Proof.
  split; cbn; intros H; [split; reflexivity | discriminate].
Qed.

(** C10. Every operation produced by [determineLinkOperation] and by
    [determineLinkOperationWithSelection] satisfies the output invariant:
    an edit of an existing link neither selects the text nor carries a
    notice, and a new link is entered from the left and is not an embed.
    Both functions always produce an operation, which is an edit exactly
    when a link is detected at the cursor. *)
Theorem link_operation_invariant :
  (forall ctx, exists op,
      determineLinkOperation ctx = Some op
      /\ operationInvariant op
      /\ (op_isNewLink op = false
          <-> detectLinkAtCursor (ec_lineText ctx) (ec_cursorCh ctx) <> None))
  /\ (forall ctx, exists op,
         determineLinkOperationWithSelection ctx = Some op
         /\ operationInvariant op
         /\ (op_isNewLink op = false
             <-> detectLinkAtCursor (ec_lineText (ecs_context ctx))
                   (ec_cursorCh (ecs_context ctx)) <> None)).
Proof.
  split; intros ctx.
  - unfold LinkOperations.determineLinkOperation.
    destruct (detectLinkAtCursor (ec_lineText ctx) (ec_cursorCh ctx)) as [lk |].
    + eexists; split; [reflexivity | split].
      * apply createEditOperation_invariant.
      * cbn. split; [discriminate | reflexivity].
    + eexists; split; [reflexivity | ].
      unfold LinkOperations.createNewLinkOperation.
      destruct (if JsString.truthy _ then _ else _) as [s e].
      split.
      * split; cbn; intros H; [discriminate | split; reflexivity].
      * cbn. split; [discriminate | congruence].
  - unfold LinkOperations.determineLinkOperationWithSelection.
    destruct (detectLinkAtCursor _ _) as [lk |].
    + eexists; split; [reflexivity | split].
      * apply createEditOperation_invariant.
      * cbn. split; [discriminate | reflexivity].
    + match goal with
      | |- context [let '(a, b) := ?x in _] => destruct x as [s e]
      end.
      eexists; split; [reflexivity | split].
      * split; cbn; intros H; [discriminate | split; reflexivity].
      * cbn. split; [discriminate | congruence].
Qed.

End OperationFacts.

(* ------------------------------------------------------------------ *)
(** ** Strings *)

Section StringFacts.
Import JsString.

Lemma chars_str l : chars (str l) = l.
Proof. apply list_ascii_of_string_of_list_ascii. Qed.

Lemma str_chars s : str (chars s) = s.
Proof. apply string_of_list_ascii_of_string. Qed.

Lemma truthy_false_iff s : truthy s = false <-> s = "".
Proof. destruct s; cbn; split; congruence. Qed.

Lemma truthy_chars s : truthy s = true <-> chars s <> [].
Proof. unfold chars. destruct s; cbn; split; congruence. Qed.

Lemma length_chars s : List.length (chars s) = String.length s.
Proof. unfold chars. induction s; cbn; congruence. Qed.

Lemma trimStart_blank l :
  Forall (fun c => isWhiteSpace c = true) l -> trimStart l = [].
Proof.
  induction 1 as [| c r Hc _ IH]; cbn; [reflexivity |].
  now rewrite Hc.
Qed.

Lemma trim_blank s : blank s -> trim s = "".
Proof.
  unfold blank, trim, trimL. intros H.
  now rewrite (trimStart_blank _ H).
Qed.

Lemma trimStart_noLead l : noLead (trimStart l).
Proof.
  induction l as [| c r IH]; cbn; [exact I |].
  destruct (isWhiteSpace c) eqn:E; [exact IH | exact E].
Qed.

Lemma trimStart_fix l : noLead l -> trimStart l = l.
Proof.
  destruct l as [| c r]; cbn; [reflexivity |].
  now intros ->.
Qed.

Lemma trimStart_idem l : trimStart (trimStart l) = trimStart l.
Proof. apply trimStart_fix, trimStart_noLead. Qed.

Lemma trimStart_snoc l c :
  isWhiteSpace c = false -> exists l', trimStart (l ++ [c]) = l' ++ [c].
Proof.
  intros Hc. induction l as [| a r IH]; cbn.
  - rewrite Hc. now exists [].
  - destruct (isWhiteSpace a); [exact IH |].
    now exists (a :: r).
Qed.

Lemma trimEnd_noLead l : noLead l -> noLead (trimEnd l).
Proof.
  destruct l as [| c r]; cbn; [intros _; exact I |].
  intros Hc. unfold trimEnd. cbn [rev].
  destruct (trimStart_snoc (rev r) c Hc) as [l' ->].
  rewrite rev_app_distr. cbn. exact Hc.
Qed.

Lemma trimEnd_idem l : trimEnd (trimEnd l) = trimEnd l.
Proof.
  unfold trimEnd. now rewrite rev_involutive, trimStart_idem.
Qed.

Lemma trimL_idem l : trimL (trimL l) = trimL l.
Proof.
  unfold trimL.
  rewrite (trimStart_fix (trimEnd (trimStart l))).
  - apply trimEnd_idem.
  - apply trimEnd_noLead, trimStart_noLead.
Qed.

Lemma trimEnd_fix l c :
  isWhiteSpace c = false -> trimEnd (l ++ [c]) = l ++ [c].
Proof.
  intros Hc. unfold trimEnd. rewrite rev_app_distr. cbn [rev app].
  cbn [trimStart]. rewrite Hc.
  change (c :: rev l) with ([c] ++ rev l).
  now rewrite rev_app_distr, rev_involutive.
Qed.

(** A string that neither starts nor ends with white space is its own
    trim. *)
Lemma trimL_fix l c :
  noLead (l ++ [c]) -> isWhiteSpace c = false -> trimL (l ++ [c]) = l ++ [c].
Proof.
  intros H Hc. unfold trimL. rewrite (trimStart_fix _ H).
  now apply trimEnd_fix.
Qed.

Lemma trim_idem s : trim (trim s) = trim s.
Proof.
  unfold trim. now rewrite chars_str, trimL_idem.
Qed.

End StringFacts.

(* ------------------------------------------------------------------ *)
(** ** Scanners *)

Section ScanFacts.
Import JsString Scan.

Lemma bind_Some {A B} (m : scanner A) (f : A -> scanner B) l b r :
  bind m f l = Some (b, r) <->
  exists a r1, m l = Some (a, r1) /\ f a r1 = Some (b, r).
Proof.
  unfold bind. destruct (m l) as [[a r1] |].
  - split; [eauto | intros (a' & r1' & E & H); now inversion E; subst].
  - split; [discriminate | intros (a' & r1' & E & _); discriminate].
Qed.

Lemma ret_Some {A} (a b : A) l r : ret a l = Some (b, r) <-> a = b /\ l = r.
Proof. unfold ret. split; [intros E; now inversion E | intros [-> ->]; reflexivity]. Qed.

Lemma litL_exact p l r : litL false p l = Some (tt, r) <-> l = p ++ r.
Proof.
  revert l. induction p as [| a p IH]; intros l; cbn.
  - split; [intros E; now inversion E | now intros ->].
  - destruct l as [| b l']; [split; discriminate |].
    destruct (Ascii.eqb a b) eqn:E.
    + apply Ascii.eqb_eq in E. subst b. rewrite IH.
      split; [now intros -> | intros H; now inversion H].
    + split; [discriminate | intros H; inversion H; subst].
      now rewrite Ascii.eqb_refl in E.
Qed.

Lemma litL_length ci p l r :
  litL ci p l = Some (tt, r) ->
  exists pre, l = pre ++ r /\ List.length pre = List.length p.
Proof.
  revert l. induction p as [| a p IH]; intros l; cbn.
  - intros E; inversion E; subst. now exists [].
  - destruct l as [| b l']; [discriminate |].
    destruct (if ci then eqbCI a b else Ascii.eqb a b); [| discriminate].
    intros H. destruct (IH _ H) as (pre & -> & Hl).
    exists (b :: pre). cbn. now rewrite Hl.
Qed.

(** A literal only looks at as many characters as it has. *)
Lemma litL_prefix ci p l r :
  litL ci p l = Some (tt, r) ->
  exists pre, l = pre ++ r /\ List.length pre = List.length p
    /\ forall x, litL ci p (pre ++ x) = Some (tt, x).
Proof.
  revert l. induction p as [| a p IH]; intros l; cbn.
  - intros E; inversion E; subst. now exists [].
  - destruct l as [| b l']; [discriminate |].
    destruct (if ci then eqbCI a b else Ascii.eqb a b) eqn:Eab; [| discriminate].
    intros H. destruct (IH _ H) as (pre & -> & Hl & Hx).
    exists (b :: pre). cbn. rewrite Hl, Eab. repeat split. exact Hx.
Qed.

Lemma optChar_exact c l b r :
  optChar false c l = Some (b, r) <->
  (b = true /\ l = c :: r) \/ (b = false /\ l = r /\ forall t, l <> c :: t).
Proof.
  unfold optChar. destruct l as [| x l'].
  - split.
    + intros E; inversion E; subst. right. repeat split. intros t; discriminate.
    + intros [[_ H] | (-> & <- & _)]; [discriminate | reflexivity].
  - destruct (Ascii.eqb c x) eqn:E.
    + apply Ascii.eqb_eq in E. subst x. split.
      * intros H; inversion H; subst. now left.
      * intros [[-> H] | (-> & <- & H)]; [now inversion H |].
        now destruct (H l').
    + split.
      * intros H; inversion H; subst. right. repeat split.
        intros t Ht. inversion Ht; subst. now rewrite Ascii.eqb_refl in E.
      * intros [[-> H] | (-> & <- & H)]; [| reflexivity].
        inversion H; subst. now rewrite Ascii.eqb_refl in E.
Qed.

(** An optional character followed by a character it does not match. *)
Lemma optChar_prefix ci c l b d r :
  optChar ci c l = Some (b, d :: r) ->
  (if ci then eqbCI c d else Ascii.eqb c d) = false ->
  exists pre, l = pre ++ d :: r
    /\ forall x, optChar ci c (pre ++ d :: x) = Some (b, d :: x).
Proof.
  unfold optChar. destruct l as [| y l']; [discriminate |].
  destruct (if ci then eqbCI c y else Ascii.eqb c y) eqn:E.
  - intros H _; inversion H; subst. exists [y]. split; [reflexivity |].
    intros x. cbn. now rewrite E.
  - intros H D; inversion H; subst. exists []. split; [reflexivity |].
    intros x. cbn. now rewrite D.
Qed.

Lemma optChar_suffix ci c l b r :
  optChar ci c l = Some (b, r) -> exists pre, l = pre ++ r.
Proof.
  unfold optChar. destruct l as [| x l'].
  - intros E; inversion E; now exists [].
  - destruct (if ci then eqbCI c x else Ascii.eqb c x);
      intros E; inversion E; subst; [now exists [x] | now exists []].
Qed.

(** What a greedy run returns: the run, all in the class, and a rest that
    does not start in the class. *)
Lemma run_sound p l a r :
  run p l = (a, r) ->
  l = a ++ r /\ forallb p a = true
  /\ match r with c :: _ => p c = false | [] => True end.
Proof.
  revert a r. induction l as [| c l' IH]; intros a r; cbn.
  - intros E; inversion E; subst. now repeat split.
  - destruct (p c) eqn:Pc.
    + destruct (run p l') as [a' r'] eqn:R.
      destruct (IH a' r' eq_refl) as (-> & Ha & Hr).
      intros E; inversion E; subst. cbn. rewrite Pc, Ha. now repeat split.
    + intros E; inversion E; subst. cbn. now rewrite Pc.
Qed.

Lemma run_complete p a r :
  forallb p a = true ->
  match r with c :: _ => p c = false | [] => True end ->
  run p (a ++ r) = (a, r).
Proof.
  intros Ha Hr. induction a as [| x a IH]; cbn.
  - destruct r as [| c r']; [reflexivity | cbn; now rewrite Hr].
  - cbn in Ha. apply andb_true_iff in Ha as [Hx Ha].
    now rewrite Hx, (IH Ha).
Qed.

Lemma many_Some p l a r : many p l = Some (a, r) <-> run p l = (a, r).
Proof. unfold many. split; [intros E; now inversion E | now intros ->]. Qed.

Lemma many1_Some p l a r :
  many1 p l = Some (a, r) <-> run p l = (a, r) /\ a <> [].
Proof.
  unfold many1. destruct (run p l) as [[| x a'] r'].
  - split; [discriminate | intros [E H]; inversion E; subst; now destruct H].
  - split; [intros E; inversion E; subst; split; [reflexivity | discriminate]
           | intros [E _]; now inversion E].
Qed.

Lemma eol_Some l r : eol l = Some (tt, r) <-> l = [] /\ r = [].
Proof.
  unfold eol. destruct l; split; try discriminate.
  - intros E; inversion E; now split.
  - now intros [_ ->].
  - intros [H _]; discriminate.
Qed.

Lemma lit_Some str0 l (u : unit) r :
  lit str0 l = Some (u, r) <-> l = chars str0 ++ r.
Proof. destruct u. apply litL_exact. Qed.

End ScanFacts.

(** Inversion of a chain of [bind]s. *)
Ltac scan_inv H :=
  repeat match type of H with
    | Scan.bind _ _ _ = Some _ =>
        let a := fresh "a" in
        let r := fresh "r" in
        let H1 := fresh "S" in
        apply bind_Some in H as (a & r & H1 & H)
    end.

Section ScanShapes.
Import JsString Scan.

(** The markdown scanner accepts exactly the words of the markdown
    pattern, with their captures. *)
Lemma mdLinkRe_shape l caps rest :
  Utils.mdLinkRe l = Some (caps, rest) <-> MdShape l caps rest.
Proof.
  destruct caps as [[bang t] d]. unfold MdShape, Utils.mdLinkRe. split.
  - intros H. scan_inv H.
    apply ret_Some in H as [E ->]. inversion E; subst; clear E.
    apply lit_Some in S0, S2, S4. cbn in S0, S2, S4.
    apply many_Some, run_sound in S1 as (-> & Ht & _).
    apply many1_Some in S3 as [S3 Hd].
    apply run_sound in S3 as (-> & Hd' & _).
    subst. apply optChar_exact in S as [[-> ->] | (-> & -> & _)];
      cbn; rewrite <- ?app_assoc; cbn; auto.
  - intros (-> & Ht & Hd & Hd').
    apply bind_Some.
    exists bang, ("["%char :: t ++ ["]"%char; "("%char] ++ d ++ [")"%char] ++ rest).
    split.
    { apply optChar_exact. destruct bang; cbn; [now left | right].
      repeat split. intros x; discriminate. }
    apply bind_Some. eexists tt, _. split; [apply lit_Some; cbn; reflexivity |].
    apply bind_Some. exists t, ("]"%char :: "("%char :: d ++ [")"%char] ++ rest).
    split; [apply many_Some, run_complete; [exact Ht | reflexivity] |].
    apply bind_Some. eexists tt, _. split; [apply lit_Some; cbn; reflexivity |].
    apply bind_Some. exists d, (")"%char :: rest).
    split; [apply many1_Some; split;
            [apply run_complete; [exact Hd' | reflexivity] | exact Hd] |].
    apply bind_Some. eexists tt, _. split; [apply lit_Some; cbn; reflexivity |].
    reflexivity.
Qed.

Lemma optional_Some {A} (g : scanner A) l o r :
  optional g l = Some (o, r) <->
  (exists a, o = Some a /\ g l = Some (a, r)) \/ (o = None /\ g l = None /\ l = r).
Proof.
  unfold optional. destruct (g l) as [[a r'] |].
  - split.
    + intros E; inversion E; subst. left. eauto.
    + intros [(a' & -> & E) | (_ & E & _)]; [now inversion E | discriminate].
  - split.
    + intros E; inversion E; subst. now right.
    + intros [(a' & _ & E) | (-> & _ & ->)]; [discriminate | reflexivity].
Qed.

(** The wiki scanner accepts exactly the words of the wiki pattern, with
    their captures. *)
Lemma wikiLinkRe_shape l caps rest :
  Utils.wikiLinkRe l = Some (caps, rest) <-> WikiShape l caps rest.
Proof.
  destruct caps as [[bang d] t]. unfold WikiShape, Utils.wikiLinkRe. split.
  - intros H. scan_inv H.
    apply ret_Some in H as [E ->]. inversion E; subst; clear E.
    apply lit_Some in S0, S3. cbn in S0, S3.
    apply many1_Some in S1 as [S1 Hd].
    apply run_sound in S1 as (-> & Hd' & _).
    apply optional_Some in S2 as [(t' & -> & S2) | (-> & _ & ->)].
    + scan_inv S2. apply lit_Some in S1. cbn in S1.
      apply many1_Some in S2 as [S2 Ht].
      apply run_sound in S2 as (-> & Ht' & _).
      subst. apply optChar_exact in S as [[-> ->] | (-> & -> & _)];
        cbn; rewrite <- ?app_assoc; cbn; auto.
    + subst. apply optChar_exact in S as [[-> ->] | (-> & -> & _)];
        cbn; rewrite <- ?app_assoc; cbn; auto.
  - intros (-> & Hd & Hd' & Ht).
    set (tail := (match t with Some t' => "|"%char :: t' | None => [] end
                  ++ ["]"%char; "]"%char] ++ rest)).
    apply bind_Some.
    exists bang, ("["%char :: "["%char :: d ++ tail).
    split.
    { apply optChar_exact. destruct bang; cbn; [now left | right].
      repeat split. intros x; discriminate. }
    apply bind_Some. eexists tt, _. split; [apply lit_Some; cbn; reflexivity |].
    apply bind_Some. exists d, tail.
    split.
    { apply many1_Some; split; [| exact Hd].
      apply run_complete; [exact Hd' |].
      subst tail. destruct t; reflexivity. }
    apply bind_Some. exists t, ("]"%char :: "]"%char :: rest).
    split.
    { apply optional_Some. subst tail. destruct t as [t' |].
      - left. exists t'. split; [reflexivity |].
        destruct Ht as [Ht Ht'].
        apply bind_Some. eexists tt, _.
        split; [apply lit_Some; cbn; reflexivity |].
        apply many1_Some; split; [| exact Ht].
        apply run_complete; [exact Ht' | reflexivity].
      - right. cbn. repeat split. }
    apply bind_Some. eexists tt, _. split; [apply lit_Some; cbn; reflexivity |].
    reflexivity.
Qed.

(** *** The global scan *)

Lemma consumes_length {A} (re : scanner A) l a rest :
  consumes re -> re l = Some (a, rest) -> List.length rest < List.length l.
Proof.
  intros C H. destruct (C _ _ _ H) as (pre & -> & Hp).
  rewrite length_app. destruct pre; [congruence | cbn; lia].
Qed.

Lemma consumes_nil {A} (re : scanner A) : consumes re -> re [] = None.
Proof.
  intros C. destruct (re []) as [[a rest] |] eqn:E; [| reflexivity].
  apply (consumes_length _ _ _ _ C) in E. cbn in E. lia.
Qed.

(** Stepping over [k] characters is resuming the scan [k] places further. *)
Lemma execAllFrom_skip {A} (re : scanner A) l k p :
  execAllFrom re k p l = execAllFrom re 0 (p + k) (skipn k l).
Proof.
  revert k p. induction l as [| c r IH]; intros k p.
  - now destruct k.
  - destruct k as [| k]; cbn [execAllFrom skipn].
    + now rewrite Nat.add_0_r.
    + rewrite IH. f_equal. lia.
Qed.

(** The scan in terms of [lastIndex]: a match at [p] is followed by the
    scan from its end, a failure by the scan from [p + 1]. *)
Lemma execAllFrom_step {A} (re : scanner A) l p :
  consumes re ->
  execAllFrom re 0 p l =
    match l with
    | [] => []
    | _ :: r =>
        match re l with
        | Some (a, rest) =>
            let n := List.length l - List.length rest in
            mkFound p (p + n) a :: execAllFrom re 0 (p + n) (skipn n l)
        | None => execAllFrom re 0 (S p) r
        end
    end.
Proof.
  intros C. destruct l as [| c r]; [reflexivity |].
  cbn [execAllFrom]. destruct (re (c :: r)) as [[a rest] |] eqn:E; [| reflexivity].
  cbv zeta. f_equal. rewrite execAllFrom_skip.
  pose proof (consumes_length _ _ _ _ C E) as L. cbn [List.length] in *.
  replace (S (List.length r) - List.length rest)
    with (S (List.length r - List.length rest)) by lia.
  cbn [skipn]. f_equal; [lia |].
  f_equal. lia.
Qed.

Lemma ExecSeq_back {A} (re : scanner A) l p ms :
  re (skipn p l) = None -> ExecSeq re l (S p) ms -> ExecSeq re l p ms.
Proof.
  intros N H. inversion H; subst.
  - apply ExecDone. intros q Hq.
    destruct (Nat.eq_dec q p) as [-> | Hne]; [exact N | apply H0; lia].
  - eapply ExecStep; eauto; [lia |].
    intros q Hq1 Hq2.
    destruct (Nat.eq_dec q p) as [-> | Hne]; [exact N | apply H2; lia].
Qed.

Lemma execAllFrom_ExecSeq {A} (re : scanner A) l :
  consumes re ->
  forall n p, List.length l - p <= n ->
    ExecSeq re l p (execAllFrom re 0 p (skipn p l)).
Proof.
  intros C. induction n as [| n IH]; intros p Hn.
  - rewrite skipn_all2 by lia. cbn. apply ExecDone.
    intros q Hq. rewrite skipn_all2 by lia. now apply consumes_nil.
  - rewrite (execAllFrom_step re _ p C).
    destruct (skipn p l) as [| c r] eqn:E.
    + apply ExecDone. intros q Hq.
      assert (List.length l <= p).
      { destruct (Nat.le_gt_cases (List.length l) p) as [H | H]; [exact H |].
        pose proof (length_skipn p l) as L. rewrite E in L. cbn in L. lia. }
      rewrite skipn_all2 by lia. now apply consumes_nil.
    + assert (Lp : List.length (c :: r) = List.length l - p)
        by (rewrite <- E; apply length_skipn).
      assert (Er : r = skipn (S p) l).
      { change (S p) with (1 + p). rewrite <- (skipn_skipn 1 p l), E.
        reflexivity. }
      destruct (re (c :: r)) as [[a rest] |] eqn:R.
      * pose proof (consumes_length _ _ _ _ C R) as L.
        cbv zeta.
        assert (En : p + (List.length (c :: r) - List.length rest)
                     = List.length l - List.length rest).
        { rewrite Lp. cbn [List.length] in *. lia. }
        rewrite En.
        assert (Es : skipn (List.length (c :: r) - List.length rest) (c :: r)
                     = skipn (List.length l - List.length rest) l).
        { rewrite <- E, skipn_skipn. f_equal. rewrite E. lia. }
        rewrite Es.
        apply ExecStep with (rest := rest).
        -- lia.
        -- cbn [List.length] in Lp. lia.
        -- intros q Hq1 Hq2. lia.
        -- now rewrite E.
        -- now rewrite E.
        -- apply IH. cbn [List.length] in *. lia.
      * apply ExecSeq_back; [now rewrite E |].
        rewrite Er. apply IH. cbn [List.length] in Lp. lia.
Qed.

(** The matches of [execAll] are the successive results of [exec] from
    [lastIndex = 0]. *)
Lemma execAll_ExecSeq {A} (re : scanner A) l :
  consumes re -> ExecSeq re l 0 (execAll re l).
Proof.
  intros C. unfold execAll.
  exact (execAllFrom_ExecSeq re l C (List.length l) 0 (Nat.le_sub_l _ _)).
Qed.

(** Each match of a scan is a match of the pattern at its start, and its
    end is where that match stops. *)
Lemma ExecSeq_In {A} (re : scanner A) l p ms m :
  ExecSeq re l p ms -> In m ms ->
  p <= f_start m /\ f_start m < List.length l
  /\ exists rest,
       re (skipn (f_start m) l) = Some (f_caps m, rest)
       /\ List.length rest < List.length (skipn (f_start m) l)
       /\ f_end m = List.length l - List.length rest.
Proof.
  induction 1 as [| lastIndex p a rest ms H1 H2 H3 H4 H5 H6 IH]; intros Hin.
  - destruct Hin.
  - destruct Hin as [<- | Hin]; cbn.
    + repeat split; try assumption. now exists rest.
    + destruct (IH Hin) as (Ha & Hb & Hc).
      repeat split; try assumption.
      rewrite length_skipn in H5. lia.
Qed.


(** *** The loop over the matches *)

Lemma covers_iff {A} (m : found A) c : covers c m = true <-> holds m c.
Proof.
  unfold covers, holds. rewrite andb_true_iff, !Z.leb_le. tauto.
Qed.

Lemma firstCovering_Some {A} (ms : list (found A)) c m :
  firstCovering c ms = Some m <->
  exists pre post, ms = pre ++ m :: post
    /\ (forall x, In x pre -> ~ holds x c) /\ holds m c.
Proof.
  induction ms as [| x ms IH]; cbn.
  - split; [discriminate | intros ([| ? ?] & ? & E & _); discriminate].
  - destruct (covers c x) eqn:Cx.
    + split.
      * intros E; inversion E; subst. exists [], ms.
        split; [reflexivity | split; [intros ? [] | now apply covers_iff]].
      * intros (pre & post & E & Hpre & Hm).
        destruct pre as [| y pre]; cbn in E; inversion E; subst; [reflexivity |].
        exfalso. apply (Hpre y); [now left | now apply covers_iff].
    + rewrite IH. split.
      * intros (pre & post & -> & Hpre & Hm). exists (x :: pre), post.
        split; [reflexivity | split; [| exact Hm]].
        intros y [<- | Hy]; [| now apply Hpre].
        rewrite <- covers_iff. congruence.
      * intros (pre & post & E & Hpre & Hm).
        destruct pre as [| y pre]; cbn in E; inversion E; subst.
        -- apply covers_iff in Hm. congruence.
        -- exists pre, post. split; [reflexivity | split; [| exact Hm]].
           intros z Hz. apply Hpre. now right.
Qed.

Lemma firstCovering_None {A} (ms : list (found A)) c :
  firstCovering c ms = None <-> forall x, In x ms -> ~ holds x c.
Proof.
  induction ms as [| x ms IH]; cbn.
  - split; [intros _ ? [] | reflexivity].
  - destruct (covers c x) eqn:Cx.
    + split; [discriminate |].
      intros H. exfalso. apply (H x); [now left | now apply covers_iff].
    + rewrite IH. split.
      * intros H y [<- | Hy]; [| now apply H].
        rewrite <- covers_iff. congruence.
      * intros H y Hy. apply H. now right.
Qed.

End ScanShapes.

(* ------------------------------------------------------------------ *)
(** ** Cursor link locator *)

Section LocatorFacts.
Import JsString Scan.

Lemma mdLinkRe_consumes : consumes Utils.mdLinkRe.
Proof.
  intros l [[bang t] d] rest H. apply mdLinkRe_shape in H as (-> & _).
  exists ((if bang then ["!"%char] else []) ++ ["["%char] ++ t
          ++ ["]"%char; "("%char] ++ d ++ [")"%char]).
  split; [now rewrite <- !app_assoc | destruct bang; discriminate].
Qed.

Lemma wikiLinkRe_consumes : consumes Utils.wikiLinkRe.
Proof.
  intros l [[bang d] t] rest H. apply wikiLinkRe_shape in H as (-> & _).
  exists ((if bang then ["!"%char] else []) ++ ["["%char; "["%char] ++ d
          ++ match t with Some t' => "|"%char :: t' | None => [] end
          ++ ["]"%char; "]"%char]).
  split; [now rewrite <- !app_assoc | destruct bang; discriminate].
Qed.

End LocatorFacts.

(* ------------------------------------------------------------------ *)
(** ** URL at the cursor and the new-link synthesizer *)

Section SynthesizerFacts.
Import JsString Scan.

Lemma urlInLineRe_consumes : consumes Utils.urlInLineRe.
Proof.
  intros l u rest H. unfold Utils.urlInLineRe, alt in H.
  match type of H with
  | match ?x with _ => _ end = _ => destruct x as [[u1 r1] |] eqn:E1
  end.
  - inversion H; subst; clear H. scan_inv E1.
    destruct a. apply litL_length in S as (p1 & -> & L1).
    apply optChar_suffix in S0 as (p2 & ->).
    apply lit_Some in S1. subst r0.
    apply many1_Some in S2 as [S2 _]. apply run_sound in S2 as (-> & _).
    apply ret_Some in E1 as [_ ->].
    exists (p1 ++ p2 ++ chars "://" ++ a2).
    split; [now rewrite <- !app_assoc |].
    destruct p1; [discriminate | discriminate].
  - scan_inv H.
    destruct a. apply litL_length in S as (p1 & -> & L1).
    apply many1_Some in S0 as [S0 _]. apply run_sound in S0 as (-> & _).
    apply ret_Some in H as [_ ->].
    exists (p1 ++ a0).
    split; [now rewrite <- !app_assoc |].
    destruct p1; [discriminate | discriminate].
Qed.

Lemma firstn_length_app {A} (a b : list A) : firstn (List.length a) (a ++ b) = a.
Proof. induction a; cbn; congruence. Qed.

(** A match of a scan spans the text it consumed. *)
Lemma matchedText_span {A} (re : scanner A) line m :
  consumes re -> In m (execAll re (chars line)) ->
  f_start m < f_end m /\ f_end m <= String.length line
  /\ String.length (Utils.matchedText line m) = f_end m - f_start m
  /\ Utils.matchedText line m <> ""
  /\ exists rest,
       skipn (f_start m) (chars line) = chars (Utils.matchedText line m) ++ rest
       /\ re (skipn (f_start m) (chars line)) = Some (f_caps m, rest).
Proof.
  intros C Hin.
  destruct (ExecSeq_In _ _ _ _ _ (execAll_ExecSeq re _ C) Hin)
    as (_ & Hs & rest & R & L & E).
  destruct (C _ _ _ R) as (pre & P & Hpre).
  pose proof (length_skipn (f_start m) (chars line)) as Lk.
  rewrite P, length_app in Lk.
  assert (W : f_end m - f_start m = List.length pre) by lia.
  assert (T : Utils.matchedText line m = str pre).
  { unfold Utils.matchedText. now rewrite W, P, firstn_length_app. }
  rewrite <- length_chars, T, chars_str.
  rewrite length_chars in *.
  repeat split.
  - destruct pre; [congruence | cbn in W; lia].
  - lia.
  - rewrite <- length_chars, chars_str. lia.
  - intros N. apply (f_equal chars) in N. rewrite chars_str in N.
    now apply Hpre.
  - exists rest. now split.
Qed.

Lemma ci_h_nonspace c : eqbCI "h" c = true -> isWhiteSpace c = false.
Proof.
  destruct c as [[] [] [] [] [] [] [] []]; vm_compute; congruence.
Qed.

Lemma ci_w_nonspace c : eqbCI "w" c = true -> isWhiteSpace c = false.
Proof.
  destruct c as [[] [] [] [] [] [] [] []]; vm_compute; congruence.
Qed.

Lemma run_all p a : forallb p a = true -> run p a = (a, []).
Proof.
  intros H. rewrite <- (app_nil_r a) at 1. now apply run_complete.
Qed.

(** What the in-line URL pattern matches is a URL for [isUrl]. *)
Lemma urlInLineRe_isUrl pre rest :
  Utils.urlInLineRe (pre ++ rest) = Some (tt, rest) ->
  Utils.isUrl (str pre) = true.
Proof.
  intros H.
  assert (G : test Utils.urlRe pre = true /\ trimL pre = pre /\ pre <> []).
  { unfold Utils.urlInLineRe, alt in H.
    match type of H with
    | match ?x with _ => _ end = _ => destruct x as [[u1 r1] |] eqn:E1
    end.
    - inversion H; subst; clear H. scan_inv E1.
      destruct a. apply litL_prefix in S as (p1 & E & L1 & X1).
      apply lit_Some in S1. cbn in S1. subst r0.
      apply optChar_prefix in S0 as (p2 & Er & X2); [| reflexivity].
      apply many1_Some in S2 as [S2 Ha]. apply run_sound in S2 as (Er1 & Fa & _).
      apply ret_Some in E1 as [_ Er2]. subst r r1 r2.
      assert (Ep : pre = p1 ++ p2 ++ chars "://" ++ a2).
      { apply (app_inv_tail rest). rewrite E. cbn.
        now rewrite <- !app_assoc. }
      destruct (exists_last Ha) as (a' & c & ->).
      rewrite forallb_app in Fa. apply andb_true_iff in Fa as [Fa' Fc].
      cbn in Fc. rewrite andb_true_r in Fc.
      apply negb_true_iff in Fc.
      split; [| split].
      + subst pre. unfold test, Utils.urlRe, alt.
        match goal with
        | |- match match ?x with _ => _ end with _ => _ end = true =>
            assert (M : x = Some (tt, []));
            [| now rewrite M]
        end.
        apply bind_Some. eexists tt, _. split; [apply X1 |].
        apply bind_Some. eexists _, _. split; [apply X2 |].
        apply bind_Some. eexists tt, _.
        split; [apply lit_Some; reflexivity |].
        apply bind_Some. exists (a' ++ [c]), [].
        split; [| reflexivity].
        apply many1_Some. split; [apply run_all | exact Ha].
        rewrite forallb_app, Fa'. cbn. unfold nonSpace. now rewrite Fc.
      + subst pre.
        replace (p1 ++ p2 ++ chars "://" ++ a' ++ [c])
          with ((p1 ++ p2 ++ chars "://" ++ a') ++ [c])
          by (now rewrite <- !app_assoc).
        apply trimL_fix; [| exact Fc].
        destruct p1 as [| c1 p1]; [discriminate |].
        cbn. specialize (X1 []). cbn in X1.
        destruct (eqbCI "h" c1) eqn:Eh; [| discriminate].
        now apply ci_h_nonspace.
      + subst pre. destruct p1; [discriminate | discriminate].
    - scan_inv H.
      destruct a. apply litL_prefix in S as (p1 & E & L1 & X1).
      apply many1_Some in S0 as [S0 Ha]. apply run_sound in S0 as (Er & Fa & _).
      apply ret_Some in H as [_ Er0]. subst r r0.
      assert (Ep : pre = p1 ++ a0).
      { apply (app_inv_tail rest). rewrite E. now rewrite <- !app_assoc. }
      destruct (exists_last Ha) as (a' & c & ->).
      rewrite forallb_app in Fa. apply andb_true_iff in Fa as [Fa' Fc].
      cbn in Fc. rewrite andb_true_r in Fc.
      apply negb_true_iff in Fc.
      split; [| split].
      + subst pre. unfold test, Utils.urlRe, alt.
        match goal with
        | |- match match ?x with _ => _ end with _ => _ end = true =>
            destruct x as [[? ?] |]; [reflexivity |]
        end.
        match goal with
        | |- match ?x with _ => _ end = true =>
            assert (M : x = Some (tt, []));
            [| now rewrite M]
        end.
        apply bind_Some. eexists tt, _. split; [apply X1 |].
        apply bind_Some. exists (a' ++ [c]), [].
        split; [| reflexivity].
        apply many1_Some. split; [apply run_all | exact Ha].
        rewrite forallb_app, Fa'. cbn. unfold nonSpace. now rewrite Fc.
      + subst pre.
        replace (p1 ++ a' ++ [c]) with ((p1 ++ a') ++ [c])
          by (now rewrite <- !app_assoc).
        apply trimL_fix; [| exact Fc].
        destruct p1 as [| c1 p1]; [discriminate |].
        cbn. specialize (X1 []). cbn in X1.
        destruct (eqbCI "w" c1) eqn:Eh; [| discriminate].
        now apply ci_w_nonspace.
      + subst pre. destruct p1; [discriminate | discriminate]. }
  destruct G as (T & Tr & Ne).
  unfold Utils.isUrl, trim.
  assert (Tt : truthy (str pre) = true).
  { apply truthy_chars. now rewrite chars_str. }
  rewrite Tt. cbn [negb]. now rewrite !chars_str, Tr.
Qed.

(** The URL found at the cursor is a URL for [isUrl], it is the text of
    the line over its span, and its span holds the cursor. *)
Lemma urlAtCursor_Some line c u :
  Utils.urlAtCursor line c = Some u ->
  exists m,
    Utils.urlMatchAtCursor line c = Some m
    /\ u = Utils.matchedText line m
    /\ holds m c
    /\ f_start m < f_end m /\ f_end m <= String.length line
    /\ String.length u = f_end m - f_start m
    /\ u <> ""
    /\ Utils.isUrl u = true.
Proof.
  unfold Utils.urlAtCursor.
  destruct (Utils.urlMatchAtCursor line c) as [m |] eqn:E; [| discriminate].
  intros H; inversion H; subst; clear H. exists m.
  unfold Utils.urlMatchAtCursor in E.
  apply firstCovering_Some in E as (pre & post & Em & _ & Hm).
  assert (Hin : In m (Utils.urlMatches line)) by (rewrite Em; apply in_elt).
  destruct (matchedText_span _ _ _ urlInLineRe_consumes Hin)
    as (A1 & A2 & A3 & A4 & rest & A5 & A6).
  repeat split; try assumption; try apply Hm.
  rewrite A5 in A6. destruct (f_caps m).
  apply urlInLineRe_isUrl in A6. now rewrite str_chars in A6.
Qed.

Lemma normalizeUrl_trim s : Utils.normalizeUrl (trim s) = Utils.normalizeUrl s.
Proof.
  unfold Utils.normalizeUrl.
  destruct (truthy s) eqn:Ts; cbn [negb].
  - destruct (truthy (trim s)) eqn:Tt; cbn [negb].
    + now rewrite trim_idem.
    + apply truthy_false_iff in Tt. rewrite Tt. reflexivity.
  - apply truthy_false_iff in Ts. subst s. reflexivity.
Qed.

Lemma isUrl_truthy s : Utils.isUrl s = true -> truthy s = true.
Proof.
  unfold Utils.isUrl. destruct (truthy s); [reflexivity | discriminate].
Qed.

Local Abbreviation newLink :=
  (LinkOperations.createNewLinkOperation
     Utils.urlAtCursor Utils.determineLinkFromContext).

(** C1. The new-link synthesizer applies the six rules in order, the first
    that matches winning: a URL selection; any other non-empty selection,
    with the destination taken from the clipboard; a URL at the cursor,
    replacing the span of that URL; a whole link in the clipboard, taken
    as it is; a bare URL in the clipboard; otherwise an empty text with the
    clipboard as a wiki destination. *)
Theorem new_link_rules (lineText selection clipboardText : string) (c : Z) :
  let op := newLink lineText c selection clipboardText in
  let lk := op_link op in
  (Utils.isUrl selection = true ->
     li_text lk = trim selection
     /\ li_destination lk = Utils.normalizeUrl selection
     /\ li_isWiki lk = false
     /\ op_shouldSelectText op = true)
  /\ (Utils.isUrl selection = false -> selection <> "" ->
        li_text lk = selection
        /\ (Utils.isUrl clipboardText = true ->
              li_destination lk = Utils.normalizeUrl clipboardText
              /\ li_isWiki lk = false)
        /\ (Utils.isUrl clipboardText = false ->
              li_destination lk = clipboardText /\ li_isWiki lk = true))
  /\ (selection = "" ->
      forall cursorUrl, Utils.urlAtCursor lineText c = Some cursorUrl ->
        Utils.isUrl cursorUrl = true
        /\ li_text lk = Utils.normalizeUrl cursorUrl
        /\ li_destination lk = Utils.normalizeUrl cursorUrl
        /\ li_isWiki lk = false
        /\ op_shouldSelectText op = true
        /\ (op_start op <= c <= op_end op)%Z
        /\ (op_start op < op_end op)%Z
        /\ (op_end op <= Z.of_nat (String.length lineText))%Z
        /\ cursorUrl
           = str (firstn (Z.to_nat (op_end op) - Z.to_nat (op_start op))
                    (skipn (Z.to_nat (op_start op)) (chars lineText))))
  /\ (selection = "" -> Utils.urlAtCursor lineText c = None ->
      forall parsed, Utils.parseClipboardLink clipboardText = Some parsed ->
        li_text lk = Utils.cl_text parsed
        /\ li_destination lk = Utils.cl_destination parsed
        /\ li_isWiki lk = Utils.cl_isWiki parsed
        /\ op_start op = c /\ op_end op = c)
  /\ (selection = "" -> Utils.urlAtCursor lineText c = None ->
      Utils.parseClipboardLink clipboardText = None ->
      Utils.isUrl clipboardText = true ->
        li_text lk = Utils.normalizeUrl clipboardText
        /\ li_destination lk = Utils.normalizeUrl clipboardText
        /\ li_isWiki lk = false
        /\ op_shouldSelectText op = true)
  /\ (selection = "" -> Utils.urlAtCursor lineText c = None ->
      Utils.parseClipboardLink clipboardText = None ->
      Utils.isUrl clipboardText = false ->
        li_text lk = ""
        /\ li_destination lk = clipboardText
        /\ li_isWiki lk = true
        /\ op_start op = c /\ op_end op = c).
Proof.
  cbv zeta. unfold LinkOperations.createNewLinkOperation.
  repeat match goal with |- _ /\ _ => split end.
  - intros U. pose proof (isUrl_truthy _ U) as T.
    unfold Utils.determineLinkFromContext. cbn [lci_selection].
    rewrite U, T. cbn. rewrite normalizeUrl_trim. now repeat split.
  - intros U N.
    assert (T : truthy selection = true) by (destruct selection; [congruence | reflexivity]).
    unfold Utils.determineLinkFromContext.
    cbn [lci_selection lci_clipboardText].
    rewrite U, T. split; [| split].
    + destruct (Utils.isUrl clipboardText); reflexivity.
    + intros ->. now split.
    + intros ->. now split.
  - intros -> u Hu.
    destruct (urlAtCursor_Some _ _ _ Hu)
      as (m & Em & Eu & Hm & A1 & A2 & A3 & A4 & A5).
    assert (T : truthy u = true) by (destruct u; [congruence | reflexivity]).
    unfold Utils.determineLinkFromContext, Utils.urlSpanAtCursor.
    cbn [lci_selection lci_cursorUrl lci_line lci_cursorCh].
    rewrite Hu, Em. cbn [Utils.isUrl truthy negb truthyOpt]. rewrite T. cbn.
    repeat split; try apply Hm; try lia; try exact A5.
    rewrite !Nat2Z.id. exact Eu.
  - intros -> Hu p Hp.
    unfold Utils.determineLinkFromContext.
    cbn [lci_selection lci_cursorUrl lci_clipboardText lci_cursorCh].
    rewrite Hu, Hp. cbn. now repeat split.
  - intros -> Hu Hp U.
    unfold Utils.determineLinkFromContext.
    cbn [lci_selection lci_cursorUrl lci_clipboardText lci_cursorCh].
    rewrite Hu, Hp, U. cbn. now repeat split.
  - intros -> Hu Hp U.
    unfold Utils.determineLinkFromContext.
    cbn [lci_selection lci_cursorUrl lci_clipboardText lci_cursorCh].
    rewrite Hu, Hp, U. cbn. now repeat split.
Qed.

End SynthesizerFacts.

(* ------------------------------------------------------------------ *)
(** ** Destination codec *)

Section CodecFacts.
Import JsString Scan.

Lemma includes_eq needle l :
  includes needle l =
    match stripPrefix needle l with
    | Some _ => true
    | None => match l with [] => false | _ :: r => includes needle r end
    end.
Proof. destruct l; reflexivity. Qed.

Lemma includes_cons_false needle c r :
  includes needle (c :: r) = false ->
  stripPrefix needle (c :: r) = None /\ includes needle r = false.
Proof.
  rewrite includes_eq.
  destruct (stripPrefix needle (c :: r)); [discriminate | now split].
Qed.

Lemma encode_head r b t :
  Utils.encodeL r = b :: t -> Utils.isPercent b = false ->
  exists r1, r = b :: r1 /\ t = Utils.encodeL r1.
Proof.
  destruct r as [| x r1]; cbn; [discriminate |].
  destruct (Utils.isSpaceChar x); [| destruct (Utils.isCaret x)]; cbn;
    intros E P; inversion E; subst; try discriminate.
  now exists r1.
Qed.

Lemma decode_step a t :
  (forall r, ~ (Utils.isPercent a = true
                /\ (t = "2"%char :: "0"%char :: r
                    \/ t = "5"%char :: "E"%char :: r))) ->
  Utils.decodeL (a :: t) = a :: Utils.decodeL t.
Proof.
  intros H. cbn [Utils.decodeL].
  destruct t as [| b [| c r]]; try reflexivity.
  destruct (Utils.isPercent a) eqn:P; cbn [andb]; [| reflexivity].
  destruct (Ascii.eqb b "2" && Ascii.eqb c "0") eqn:E1.
  - apply andb_true_iff in E1 as [B C].
    apply Ascii.eqb_eq in B, C. subst.
    exfalso. apply (H r). split; [reflexivity | now left].
  - destruct (Ascii.eqb b "5" && Ascii.eqb c "E") eqn:E2; [| reflexivity].
    apply andb_true_iff in E2 as [B C].
    apply Ascii.eqb_eq in B, C. subst.
    exfalso. apply (H r). split; [reflexivity | now right].
Qed.

(** Decoding inverts encoding on a string in which neither [%20] nor [%5E]
    occurs. *)
Lemma decode_encode l :
  includes (chars "%20") l = false ->
  includes (chars "%5E") l = false ->
  Utils.decodeL (Utils.encodeL l) = l.
Proof.
  induction l as [| c r IH]; [reflexivity |].
  intros H1 H2.
  apply includes_cons_false in H1 as [P1 H1].
  apply includes_cons_false in H2 as [P2 H2].
  specialize (IH H1 H2).
  cbn [Utils.encodeL].
  destruct (Utils.isSpaceChar c) eqn:Sp.
  - apply Ascii.eqb_eq in Sp. subst c. cbn. now rewrite IH.
  - destruct (Utils.isCaret c) eqn:Ca.
    + apply Ascii.eqb_eq in Ca. subst c. cbn. now rewrite IH.
    + rewrite decode_step; [now rewrite IH |].
      intros r' [Pc [E | E]];
        apply Ascii.eqb_eq in Pc; subst c;
        apply encode_head in E as (r1 & -> & E); try reflexivity;
        symmetry in E; apply encode_head in E as (r2 & -> & _);
        try reflexivity; cbn in P1, P2; discriminate.
Qed.

Lemma wikiToMarkdown_nonUrl s :
  Utils.isUrl s = false ->
  Utils.wikiToMarkdown s = str (Utils.encodeL (chars s)).
Proof. unfold Utils.wikiToMarkdown. now intros ->. Qed.

(** C7, as amended.  [markdownToWiki] returns null on every URL;
    [wikiToMarkdown] leaves every URL unchanged; and for a non-URL string
    without encoded sequences whose encoding is not itself a URL,
    [markdownToWiki (wikiToMarkdown s)] is [s].  When the encoding of a
    non-URL string is a URL the round trip returns null instead. *)
Theorem codec_laws :
  (forall u, Utils.isUrl u = true -> Utils.markdownToWiki u = None)
  /\ (forall u, Utils.isUrl u = true -> Utils.wikiToMarkdown u = u)
  /\ (forall s,
        Utils.isUrl s = false ->
        Utils.hasEncodedSequence s = false ->
        Utils.isUrl (Utils.wikiToMarkdown s) = false ->
        Utils.markdownToWiki (Utils.wikiToMarkdown s) = Some s)
  /\ (forall s,
        Utils.isUrl (Utils.wikiToMarkdown s) = true ->
        Utils.markdownToWiki (Utils.wikiToMarkdown s) = None).
Proof.
  repeat match goal with |- _ /\ _ => split end.
  - intros u U. unfold Utils.markdownToWiki. now rewrite U.
  - intros u U. unfold Utils.wikiToMarkdown. now rewrite U.
  - intros s U E U'.
    unfold Utils.markdownToWiki. rewrite U'.
    rewrite (wikiToMarkdown_nonUrl s U), chars_str.
    unfold Utils.hasEncodedSequence in E.
    apply orb_false_iff in E as [E1 E2].
    now rewrite (decode_encode _ E1 E2), str_chars.
  - intros s U. unfold Utils.markdownToWiki. now rewrite U.
Qed.

End CodecFacts.

(* ------------------------------------------------------------------ *)
(** ** Link validator *)

Section ValidatorFacts.
Import JsString Scan.

Lemma inv_init :
  v_isValid Utils.initialValidation = false
  <-> hasErrorWarning Utils.initialValidation.
Proof.
  split; [discriminate | intros (w & [] & _)].
Qed.

Lemma pushError_invalid text r :
  v_isValid (Utils.pushError text r) = false
  /\ hasErrorWarning (Utils.pushError text r)
  /\ v_shouldHighlightDest (Utils.pushError text r) = true.
Proof.
  split; [reflexivity | split; [| reflexivity]].
  exists {| w_text := text; w_severity := SevError |}.
  split; [cbn; apply in_or_app; right; now left | reflexivity].
Qed.

Lemma pushCaution_error text r :
  hasErrorWarning (Utils.pushCaution text r) <-> hasErrorWarning r.
Proof.
  unfold hasErrorWarning. cbn. split.
  - intros (w & Hin & Hw). apply in_app_or in Hin as [Hin | [<- | []]].
    + now exists w.
    + discriminate.
  - intros (w & Hin & Hw). exists w. split; [apply in_or_app; now left | exact Hw].
Qed.

(** Every step of the validation keeps "invalid exactly when an error
    warning is present". *)
Lemma step_keeps_inv b (error : bool) text r :
  (v_isValid r = false <-> hasErrorWarning r) ->
  let r' := Utils.when b
              (if error then Utils.pushError text else Utils.pushCaution text) r in
  v_isValid r' = false <-> hasErrorWarning r'.
Proof.
  intros H. destruct b; cbn [Utils.when]; [| exact H].
  destruct error.
  - destruct (pushError_invalid text r) as (A & B & _). tauto.
  - rewrite pushCaution_error. exact H.
Qed.

(** Once an error is recorded, the later steps keep the result invalid,
    the error present and the destination highlighted. *)
Lemma step_keeps_error b (error : bool) text r :
  v_isValid r = false /\ hasErrorWarning r /\ v_shouldHighlightDest r = true ->
  let r' := Utils.when b
              (if error then Utils.pushError text else Utils.pushCaution text) r in
  v_isValid r' = false /\ hasErrorWarning r' /\ v_shouldHighlightDest r' = true.
Proof.
  intros (A & B & C). destruct b; cbn [Utils.when]; [| now repeat split].
  destruct error.
  - apply pushError_invalid.
  - split; [exact A | split; [now apply pushCaution_error | exact C]].
Qed.

Lemma validate_wiki_url dest text :
  Utils.isUrl dest = true ->
  let r := Utils.validateLinkDestination dest text true in
  v_isValid r = false /\ hasErrorWarning r /\ v_shouldHighlightDest r = true.
Proof.
  intros U. cbv zeta. unfold Utils.validateLinkDestination.
  rewrite (isUrl_truthy _ U), U. cbn [negb andb].
  apply (step_keeps_error _ false), (step_keeps_error _ false),
    (step_keeps_error _ false), (step_keeps_error _ true).
  cbn [Utils.when]. apply pushError_invalid.
Qed.

(** C8. An empty destination is valid and carries no warning; a wiki link
    whose destination is a URL is invalid, carries an error warning and
    has its destination highlighted; and a result is invalid exactly when
    one of its warnings is an error, so that cautions alone never
    invalidate it. *)
Theorem validate_destination_spec :
  (forall text isWiki,
      Utils.validateLinkDestination "" text isWiki
      = {| v_isValid := true; v_warnings := [];
           v_shouldHighlightDest := false; v_shouldHighlightText := false |})
  /\ (forall dest text,
        Utils.isUrl dest = true ->
        let r := Utils.validateLinkDestination dest text true in
        v_isValid r = false
        /\ hasErrorWarning r
        /\ v_shouldHighlightDest r = true)
  /\ (forall dest text isWiki,
        let r := Utils.validateLinkDestination dest text isWiki in
        v_isValid r = false <-> hasErrorWarning r)
  /\ (forall dest text isWiki,
        let r := Utils.validateLinkDestination dest text isWiki in
        (forall w, In w (v_warnings r) -> w_severity w = SevCaution) ->
        v_isValid r = true).
Proof.
  assert (Inv : forall dest text isWiki,
             let r := Utils.validateLinkDestination dest text isWiki in
             v_isValid r = false <-> hasErrorWarning r).
  { intros dest text isWiki. cbv zeta. unfold Utils.validateLinkDestination.
    destruct (truthy dest); cbn [negb]; [| apply inv_init].
    apply (step_keeps_inv _ false), (step_keeps_inv _ false),
      (step_keeps_inv _ false), (step_keeps_inv _ true),
      (step_keeps_inv _ true), inv_init. }
  repeat match goal with |- _ /\ _ => split end.
  - reflexivity.
  - intros dest text U. now apply validate_wiki_url.
  - exact Inv.
  - intros dest text isWiki r H.
    destruct (v_isValid r) eqn:V; [reflexivity |].
    apply (Inv dest text isWiki) in V as (w & Hin & Hw).
    rewrite (H w Hin) in Hw. discriminate.
Qed.

End ValidatorFacts.

(* ------------------------------------------------------------------ *)
(** ** Empty and white-space-only inputs *)

Section BlankFacts.
Import JsString Scan.

Ltac by_first_char :=
  let c := fresh "c" in
  let r := fresh "r" in
  let H := fresh "H" in
  intros c r H;
  destruct c as [[] [] [] [] [] [] [] []];
  try (vm_compute in H; discriminate H);
  reflexivity.

Lemma mdLinkRe_failsOnSpace : failsOnSpace Utils.mdLinkRe.
Proof. by_first_char. Qed.

Lemma wikiLinkRe_failsOnSpace : failsOnSpace Utils.wikiLinkRe.
Proof. by_first_char. Qed.

Lemma urlInLineRe_failsOnSpace : failsOnSpace Utils.urlInLineRe.
Proof. by_first_char. Qed.

Lemma execAllFrom_blank {A} (re : scanner A) l p :
  failsOnSpace re ->
  Forall (fun c => isWhiteSpace c = true) l ->
  execAllFrom re 0 p l = [].
Proof.
  intros F H. revert p. induction H as [| c r Hc _ IH]; intros p; cbn.
  - reflexivity.
  - now rewrite (F c r Hc).
Qed.

Lemma whole_blank {A} (re : scanner A) s :
  failsOnSpace re -> re [] = None -> blank s ->
  Utils.whole re (chars s) = None.
Proof.
  intros F N B. unfold Utils.whole, bind.
  destruct B as [| c r Hc _]; [now rewrite N | now rewrite (F c r Hc)].
Qed.

Lemma blank_isUrl s : blank s -> Utils.isUrl s = false.
Proof.
  intros B. unfold Utils.isUrl.
  destruct (truthy s); [| reflexivity].
  now rewrite (trim_blank s B).
Qed.

Lemma blank_isAlmostUrl s : blank s -> Utils.isAlmostUrl s = false.
Proof.
  intros B. unfold Utils.isAlmostUrl.
  destruct (truthy s); [| reflexivity].
  now rewrite (trim_blank s B).
Qed.

Lemma blank_parseWikiLink s : blank s -> Utils.parseWikiLink s = None.
Proof.
  intros B. unfold Utils.parseWikiLink.
  now rewrite (whole_blank _ s wikiLinkRe_failsOnSpace eq_refl B).
Qed.

Lemma blank_parseMarkdownLink s : blank s -> Utils.parseMarkdownLink s = None.
Proof.
  intros B. unfold Utils.parseMarkdownLink.
  now rewrite (whole_blank _ s mdLinkRe_failsOnSpace eq_refl B).
Qed.

Lemma blank_parseClipboardLink s : blank s -> Utils.parseClipboardLink s = None.
Proof.
  intros B. unfold Utils.parseClipboardLink.
  now rewrite (trim_blank s B).
Qed.

Lemma blank_detectLinkAtCursor s c :
  blank s -> Utils.detectLinkAtCursor s c = None.
Proof.
  intros B.
  unfold Utils.detectLinkAtCursor, Utils.detectMarkdownLinkAtCursor,
    Utils.detectWikiLinkAtCursor, Utils.markdownMatches, Utils.wikiMatches,
    execAll.
  rewrite (execAllFrom_blank _ _ 0 mdLinkRe_failsOnSpace B).
  now rewrite (execAllFrom_blank _ _ 0 wikiLinkRe_failsOnSpace B).
Qed.

Lemma blank_urlAtCursor s c : blank s -> Utils.urlAtCursor s c = None.
Proof.
  intros B.
  unfold Utils.urlAtCursor, Utils.urlMatchAtCursor, Utils.urlMatches, execAll.
  now rewrite (execAllFrom_blank _ _ 0 urlInLineRe_failsOnSpace B).
Qed.

(** C9. The core functions are total.  [determineSkipPosition] returns a
    position in every case: the skip is performed exactly when a link is
    detected, and otherwise the position is the cursor.  On the empty
    string and on strings of white space the classifiers answer false, the
    parsers and the locators find nothing, the skip leaves the cursor where
    it is, and the validator and the codec return their empty results. *)
Theorem core_total_on_blank :
  (forall detect ctx,
      let r := LinkOperations.determineSkipPosition detect ctx in
      (skipped r = true
       <-> exists lk, detect (sk_lineText ctx) (sk_cursorCh ctx) = Some lk)
      /\ (skipped r = false ->
          position r = pos (sk_cursorLine ctx) (sk_cursorCh ctx)))
  /\ (forall s, blank s ->
        Utils.isUrl s = false
        /\ Utils.isAlmostUrl s = false
        /\ Utils.parseWikiLink s = None
        /\ Utils.parseMarkdownLink s = None
        /\ Utils.parseClipboardLink s = None
        /\ (forall c, Utils.detectLinkAtCursor s c = None)
        /\ (forall c, Utils.urlAtCursor s c = None)
        /\ (forall ln c lineCount prevLineLength,
              LinkOperations.determineSkipPosition Utils.detectLinkAtCursor
                {| sk_cursorLine := ln; sk_cursorCh := c; sk_lineText := s;
                   sk_lineCount := lineCount;
                   sk_prevLineLength := prevLineLength |}
              = {| position := pos ln c; skipped := false |}))
  /\ (forall text isWiki,
        Utils.validateLinkDestination "" text isWiki = Utils.initialValidation)
  /\ Utils.wikiToMarkdown "" = ""
  /\ Utils.markdownToWiki "" = Some ""
  /\ Utils.normalizeUrl "" = "".
Proof.
  split; [| split; [| repeat split]].
  - intros detect ctx r. split; [apply skip_skipped_iff |].
    subst r. unfold LinkOperations.determineSkipPosition.
    destruct (detect (sk_lineText ctx) (sk_cursorCh ctx)) as [lk |].
    + intros H. exfalso. revert H.
      repeat match goal with
        | |- context [if ?b then _ else _] => destruct b
        end; discriminate.
    + reflexivity.
  - intros s B.
    repeat split.
    + now apply blank_isUrl.
    + now apply blank_isAlmostUrl.
    + now apply blank_parseWikiLink.
    + now apply blank_parseMarkdownLink.
    + now apply blank_parseClipboardLink.
    + intros c. now apply blank_detectLinkAtCursor.
    + intros c. now apply blank_urlAtCursor.
    + intros ln c lc pl. apply skip_unfold_none. cbn.
      now apply blank_detectLinkAtCursor.
Qed.

End BlankFacts.

(* ------------------------------------------------------------------ *)
(** ** The skip scenarios *)

Section SkipScenarios.
Import JsString Scan.

Local Abbreviation skip :=
  (LinkOperations.determineSkipPosition Utils.detectLinkAtCursor).

(** C3, as amended.  The cursor is on the left side of the detected link
    exactly when [cursorCh <= (start + end) / 2], the midpoint included:
    where both directions are open the skip goes just past the link from
    the left side and just before it from the right side.  On the line
    ["Check [[my-note]] for more"] the link spans offsets 6 to 17; a cursor
    at 8 skips to offset 18 and a cursor at 15 to offset 5. *)
Theorem skip_side_classification :
  (forall c s e,
      LinkOperations.isOnLeftSide c s e = true
      <-> (inject_Z c <= (inject_Z s + inject_Z e) / 2)%Q)
  /\ (forall c s e,
        LinkOperations.isOnLeftSide c s e = true <-> (2 * c <= s + e)%Z)
  /\ (forall c s e,
        (2 * c = s + e)%Z -> LinkOperations.isOnLeftSide c s e = true)
  /\ (forall detect ctx lk,
        detect (sk_lineText ctx) (sk_cursorCh ctx) = Some lk ->
        (0 < lac_start lk)%Z ->
        (lac_end lk < Z.of_nat (String.length (sk_lineText ctx)))%Z ->
        LinkOperations.determineSkipPosition detect ctx
        = {| position :=
               if LinkOperations.isOnLeftSide (sk_cursorCh ctx)
                    (lac_start lk) (lac_end lk)
               then pos (sk_cursorLine ctx) (lac_end lk + 1)
               else pos (sk_cursorLine ctx) (lac_start lk - 1);
             skipped := true |})
  /\ (forall lineCount prevLineLength,
        skip {| sk_cursorLine := 0; sk_cursorCh := 8;
                sk_lineText := "Check [[my-note]] for more";
                sk_lineCount := lineCount;
                sk_prevLineLength := prevLineLength |}
        = {| position := pos 0 18; skipped := true |})
  /\ (forall lineCount prevLineLength,
        skip {| sk_cursorLine := 0; sk_cursorCh := 15;
                sk_lineText := "Check [[my-note]] for more";
                sk_lineCount := lineCount;
                sk_prevLineLength := prevLineLength |}
        = {| position := pos 0 5; skipped := true |})
  /\ (forall c, (6 <= c <= 17)%Z ->
        exists lk,
          Utils.detectLinkAtCursor "Check [[my-note]] for more" c = Some lk
          /\ lac_start lk = 6%Z /\ lac_end lk = 17%Z).
Proof.
  repeat match goal with |- _ /\ _ => split end.
  - apply isOnLeftSide_Q.
  - apply isOnLeftSide_iff.
  - intros c s e H. apply isOnLeftSide_iff. lia.
  - intros detect ctx lk H Hs He.
    rewrite (skip_side_general detect ctx lk H Hs He).
    destruct (LinkOperations.isOnLeftSide _ _ _) eqn:L.
    + apply isOnLeftSide_iff in L. apply Z.leb_le in L. now rewrite L.
    + apply isOnLeftSide_false_iff in L.
      assert (L' : (2 * sk_cursorCh ctx <=? lac_start lk + lac_end lk)%Z = false)
        by (apply Z.leb_gt; lia).
      now rewrite L'.
  - intros lc pl. vm_compute. reflexivity.
  - intros lc pl. vm_compute. reflexivity.
  - intros c Hc.
    assert (E : (c = 6 \/ c = 7 \/ c = 8 \/ c = 9 \/ c = 10 \/ c = 11 \/ c = 12
                 \/ c = 13 \/ c = 14 \/ c = 15 \/ c = 16 \/ c = 17)%Z) by lia.
    repeat (destruct E as [-> | E]); try subst c;
      (eexists; split; [vm_compute; reflexivity | split; reflexivity]).
Qed.

(** C3: the span asserted for the scenario is not the detected one; the
    link [[[my-note]]] has eleven characters and ends at offset 17. *)
Lemma skip_scenario_span_counterexample :
  ~ (exists lk,
        Utils.detectLinkAtCursor "Check [[my-note]] for more" 8 = Some lk
        /\ lac_start lk = 6%Z /\ lac_end lk = 18%Z).
Proof.
  intros (lk & H & _ & E). vm_compute in H.
  inversion H; subst. discriminate E.
Qed.

(** The inline detection of the bundled plugin reports the same span, and
    the link is the eleven characters from offset 6. *)
Example bundled_span_of_scenario :
  Legacy.detect "Check [[my-note]] for more" 8
  = Some ({| Legacy.text := "my-note"; Legacy.destination := "my-note";
             Legacy.isWiki := true |}, 6%Z, 17%Z, true)
  /\ substring 6 11 "Check [[my-note]] for more" = "[[my-note]]"
  /\ String.length "[[my-note]]" = 11.
Proof. repeat split. Qed.

(** C5. When the detected link covers the whole line, the skip from the
    left side goes to the start of the next line, else to the end of the
    previous line, else stays at the end of the link; from the right side
    to the end of the previous line, else to the start of the next line,
    else to the start of the line.  On line 3 of 10, holding
    ["[[my-note]]"], a cursor on the left side goes to line 4, offset 0. *)
Theorem skip_whole_line :
  (forall detect ctx lk,
      detect (sk_lineText ctx) (sk_cursorCh ctx) = Some lk ->
      spansWholeLine lk (sk_lineText ctx) ->
      let e := lac_end lk in
      let ln := sk_cursorLine ctx in
      let r := LinkOperations.determineSkipPosition detect ctx in
      skipped r = true
      /\ (LinkOperations.isOnLeftSide (sk_cursorCh ctx) (lac_start lk) e = true ->
            (hasNextLine ctx -> position r = pos (ln + 1) 0)
            /\ (~ hasNextLine ctx -> hasPrevLine ctx ->
                  position r = pos (ln - 1) (sk_prevLineLength ctx))
            /\ (~ hasNextLine ctx -> ~ hasPrevLine ctx -> position r = pos ln e))
      /\ (LinkOperations.isOnLeftSide (sk_cursorCh ctx) (lac_start lk) e = false ->
            (hasPrevLine ctx -> position r = pos (ln - 1) (sk_prevLineLength ctx))
            /\ (~ hasPrevLine ctx -> hasNextLine ctx ->
                  position r = pos (ln + 1) 0)
            /\ (~ hasPrevLine ctx -> ~ hasNextLine ctx -> position r = pos ln 0)))
  /\ (forall c prevLineLength,
        (0 <= c)%Z ->
        LinkOperations.isOnLeftSide c 0 11 = true ->
        (exists lk,
            Utils.detectLinkAtCursor "[[my-note]]" c = Some lk
            /\ spansWholeLine lk "[[my-note]]")
        /\ skip {| sk_cursorLine := 3; sk_cursorCh := c;
                   sk_lineText := "[[my-note]]";
                   sk_lineCount := 10;
                   sk_prevLineLength := prevLineLength |}
           = {| position := pos 4 0; skipped := true |}).
Proof.
  split.
  - intros detect ctx lk H W. exact (skip_whole_line_general detect ctx lk H W).
  - intros c pl H0 L. apply isOnLeftSide_iff in L.
    assert (E : (c = 0 \/ c = 1 \/ c = 2 \/ c = 3 \/ c = 4 \/ c = 5)%Z) by lia.
    repeat (destruct E as [-> | E]); try subst c;
      (split;
       [ eexists; split; [vm_compute; reflexivity | split; vm_compute; congruence]
       | vm_compute; reflexivity ]).
Qed.

End SkipScenarios.

(* ------------------------------------------------------------------ *)
(** ** The round trip on a string whose encoding is a URL *)

(** C7: ["www.a b"] is not a URL and holds no encoded sequence, its
    encoding ["www.a%20b"] is a URL, and so the round trip returns null
    rather than the string. *)
Lemma codec_roundtrip_counterexample :
  Utils.isUrl "www.a b" = false
  /\ Utils.hasEncodedSequence "www.a b" = false
  /\ Utils.wikiToMarkdown "www.a b" = "www.a%20b"
  /\ Utils.isUrl "www.a%20b" = true
  /\ Utils.markdownToWiki (Utils.wikiToMarkdown "www.a b") = None
  /\ ~ (forall s,
           Utils.isUrl s = false ->
           Utils.hasEncodedSequence s = false ->
           Utils.markdownToWiki (Utils.wikiToMarkdown s) = Some s).
Proof.
  repeat split; try reflexivity.
  intros H. specialize (H "www.a b" eq_refl eq_refl).
  vm_compute in H. discriminate H.
Qed.

(** The three sentences of the codec contract cannot hold together for any
    pair of conversions that encodes the space of ["www.a b"]. *)
Lemma roundtrip_excludes_url_null
  (w2m : string -> string) (m2w : string -> option string) :
  (forall u, Utils.isUrl u = true -> m2w u = None) ->
  w2m "www.a b" = "www.a%20b" ->
  m2w (w2m "www.a b") <> Some "www.a b".
Proof.
  intros H E. rewrite E, (H "www.a%20b" eq_refl). discriminate.
Qed.

(* ------------------------------------------------------------------ *)
(** ** The bundled plugin against [src/utils.ts] *)

Section LegacyFacts.
Import JsString Scan.

(** Without a URL at the cursor, and with a selection or a clipboard that
    is not a whole link, the synthesizer decides what the inline callback
    of the bundled plugin decides; the two word their notice differently
    but give one in the same cases. *)
Lemma newLink_agrees selection clipboardText lineText c :
  truthy selection = true \/ Utils.parseClipboardLink clipboardText = None ->
  let r := Utils.determineLinkFromContext
             {| lci_selection := selection;
                lci_clipboardText := clipboardText;
                lci_cursorUrl := None;
                lci_line := lineText;
                lci_cursorCh := c |} in
  let '(lk, shouldSelectText, conversionNotice) :=
    Legacy.newLink selection clipboardText in
  lfc_text r = Legacy.text lk
  /\ lfc_destination r = Legacy.destination lk
  /\ lfc_isWiki r = Legacy.isWiki lk
  /\ lfc_shouldSelectText r = shouldSelectText
  /\ (lfc_conversionNotice r = None <-> conversionNotice = None).
Proof.
  intros H. cbv zeta.
  unfold Utils.determineLinkFromContext, Legacy.newLink.
  cbn [lci_selection lci_clipboardText lci_cursorUrl lci_cursorCh].
  unfold Utils.noticeOnChange, Legacy.notice.
  destruct (Utils.isUrl selection) eqn:Us.
  - cbn. destruct (String.eqb _ _); repeat split; discriminate.
  - destruct (truthy selection) eqn:Ts.
    + destruct (Utils.isUrl clipboardText); cbn;
        [destruct (String.eqb _ _) |]; repeat split; discriminate.
    + destruct H as [H | H]; [discriminate |]. rewrite H.
      destruct (Utils.isUrl clipboardText); cbn;
        [destruct (String.eqb _ _) |]; repeat split; discriminate.
Qed.

(** [updateUIState] reports an error exactly for a wiki link to a URL, and
    nothing for an empty destination. *)
Lemma updateUIState_error isWiki dest :
  (exists w, In w (fst (Legacy.updateUIState isWiki dest))
             /\ snd w = Legacy.LinkWarningError)
  <-> isWiki && Utils.isUrl dest = true.
Proof.
  unfold Legacy.updateUIState. cbn [fst].
  destruct (isWiki && Utils.isUrl dest) eqn:E.
  - split; [reflexivity | intros _].
    eexists. split; [left; reflexivity | reflexivity].
  - split; [| discriminate].
    intros (w & Hin & Hw). cbn [app] in Hin.
    apply in_app_or in Hin as [Hin | Hin].
    + destruct (negb (Utils.isUrl dest) && Utils.isAlmostUrl dest);
        [destruct Hin as [<- | []]; discriminate | destruct Hin].
    + destruct (500 <? _);
        [destruct Hin as [<- | []]; discriminate | destruct Hin].
Qed.

(** *** The detection of the edit-link callback *)

(** The markdown scanner of the callback accepts exactly the words of
    its pattern, with their captures. *)
Lemma legacy_mdRegex_shape l caps rest :
  Legacy.mdRegex l = Some (caps, rest) <-> BundledMdShape l caps rest.
Proof.
  destruct caps as [t d]. unfold BundledMdShape, Legacy.mdRegex. split.
  - intros H. scan_inv H.
    apply ret_Some in H as [E ->]. inversion E; subst; clear E.
    apply lit_Some in S, S1, S3. cbn in S, S1, S3.
    apply many1_Some in S0 as [S0 Ht].
    apply run_sound in S0 as (-> & Ht' & _).
    apply many1_Some in S2 as [S2 Hd].
    apply run_sound in S2 as (-> & Hd' & _).
    subst. cbn. rewrite <- ?app_assoc. cbn. auto.
  - intros (-> & Ht & Ht' & Hd & Hd').
    apply bind_Some. eexists tt, _.
    split; [apply lit_Some; cbn; reflexivity |].
    apply bind_Some.
    exists t, ("]"%char :: "("%char :: d ++ [")"%char] ++ rest).
    split; [apply many1_Some; split;
            [apply run_complete; [exact Ht' | reflexivity] | exact Ht] |].
    apply bind_Some. eexists tt, _.
    split; [apply lit_Some; cbn; reflexivity |].
    apply bind_Some. exists d, (")"%char :: rest).
    split; [apply many1_Some; split;
            [apply run_complete; [exact Hd' | reflexivity] | exact Hd] |].
    apply bind_Some. eexists tt, _.
    split; [apply lit_Some; cbn; reflexivity |].
    reflexivity.
Qed.

(** The wiki scanner of the callback accepts exactly the words of its
    pattern, with their captures. *)
Lemma legacy_wikiRegex_shape l caps rest :
  Legacy.wikiRegex l = Some (caps, rest) <-> BundledWikiShape l caps rest.
Proof.
  destruct caps as [d t]. unfold BundledWikiShape, Legacy.wikiRegex. split.
  - intros H. scan_inv H.
    apply ret_Some in H as [E ->]. inversion E; subst; clear E.
    apply lit_Some in S, S2. cbn in S, S2.
    apply many1_Some in S0 as [S0 Hd].
    apply run_sound in S0 as (-> & Hd' & _).
    apply optional_Some in S1 as [(t' & -> & S1) | (-> & _ & ->)].
    + scan_inv S1. apply lit_Some in S0. cbn in S0.
      apply many1_Some in S1 as [S1 Ht].
      apply run_sound in S1 as (-> & Ht' & _).
      subst. cbn. rewrite <- ?app_assoc. cbn. auto.
    + subst. cbn. rewrite <- ?app_assoc. cbn. auto.
  - intros (-> & Hd & Hd' & Ht).
    set (tail := (match t with Some t' => "|"%char :: t' | None => [] end
                  ++ ["]"%char; "]"%char] ++ rest)).
    apply bind_Some. eexists tt, _.
    split; [apply lit_Some; cbn; reflexivity |].
    apply bind_Some. exists d, tail.
    split.
    { apply many1_Some; split; [| exact Hd].
      apply run_complete; [exact Hd' |].
      subst tail. destruct t; reflexivity. }
    apply bind_Some. exists t, ("]"%char :: "]"%char :: rest).
    split.
    { apply optional_Some. subst tail. destruct t as [t' |].
      - left. exists t'. split; [reflexivity |].
        destruct Ht as [Ht Ht'].
        apply bind_Some. eexists tt, _.
        split; [apply lit_Some; cbn; reflexivity |].
        apply many1_Some; split; [| exact Ht].
        apply run_complete; [exact Ht' | reflexivity].
      - right. cbn. repeat split. }
    apply bind_Some. eexists tt, _.
    split; [apply lit_Some; cbn; reflexivity |].
    reflexivity.
Qed.

Lemma legacy_md_shape l t d rest :
  Legacy.mdRegex l = Some ((t, d), rest) ->
  l = "["%char :: t ++ "]"%char :: "("%char :: d ++ ")"%char :: rest.
Proof.
  intros H. apply legacy_mdRegex_shape in H as (-> & _).
  cbn. now rewrite <- ?app_assoc.
Qed.

Lemma legacy_wiki_shape l d t rest :
  Legacy.wikiRegex l = Some ((d, t), rest) ->
  l = "["%char :: "["%char :: d
      ++ match t with Some t' => "|"%char :: t' | None => [] end
      ++ "]"%char :: "]"%char :: rest.
Proof.
  intros H. apply legacy_wikiRegex_shape in H as (-> & _).
  cbn. now rewrite <- ?app_assoc.
Qed.

Lemma legacy_mdRegex_consumes : consumes Legacy.mdRegex.
Proof.
  intros l [t d] rest H. apply legacy_md_shape in H.
  exists ("["%char :: t ++ "]"%char :: "("%char :: d ++ [")"%char]).
  split; [| discriminate].
  rewrite H. cbn. rewrite <- !app_assoc. cbn. now rewrite <- !app_assoc.
Qed.

Lemma legacy_wikiRegex_consumes : consumes Legacy.wikiRegex.
Proof.
  intros l [d t] rest H. apply legacy_wiki_shape in H.
  exists ("["%char :: "["%char :: d
          ++ match t with Some t' => "|"%char :: t' | None => [] end
          ++ ["]"%char; "]"%char]).
  split; [| discriminate].
  rewrite H. cbn. now rewrite <- !app_assoc.
Qed.



Lemma updateUIState_empty isWiki :
  Legacy.updateUIState isWiki "" = ([], false).
Proof. destruct isWiki; reflexivity. Qed.

(** The texts of the warnings: the error of a wiki link to a URL, and the
    length warning with the number of characters. *)
Example test_updateUIState_texts :
  Legacy.updateUIState true "https://example.com"
  = ([((Legacy.warningSign
        ++ " Warning: Valid URL detected but Wiki Link format selected. Wiki links cannot link to external URLs.")%string,
       Legacy.LinkWarningError)], true)
  /\ Legacy.updateUIState false (str (repeat "a"%char 501))
     = ([((Legacy.warningSign
           ++ " Warning: Destination is very long (501 chars). Consider shortening for reliability.")%string,
          Legacy.LinkWarningCaution)], true)
  /\ Legacy.updateUIState false (str (repeat "a"%char 500)) = ([], false).
Proof. repeat split; vm_compute; reflexivity. Qed.

(** The validator and [updateUIState] agree on when a destination is in
    error because a wiki link points to a URL. *)
Lemma validator_agrees_on_wiki_url dest text :
  Utils.isUrl dest = true ->
  v_isValid (Utils.validateLinkDestination dest text true) = false
  /\ exists w, In w (fst (Legacy.updateUIState true dest))
               /\ snd w = Legacy.LinkWarningError.
Proof.
  intros U. split.
  - now apply validate_wiki_url.
  - apply updateUIState_error. now rewrite U.
Qed.

End LegacyFacts.

(* ------------------------------------------------------------------ *)
(** ** The expectations of the test suite *)

Example test_isUrl :
  Utils.isUrl "https://example.com" = true
  /\ Utils.isUrl "http://example.com" = true
  /\ Utils.isUrl "www.example.com" = true
  /\ Utils.isUrl "example.com" = false
  /\ Utils.isUrl "just text" = false
  /\ Utils.isUrl "" = false.
Proof. repeat split. Qed.

Example test_normalizeUrl :
  Utils.normalizeUrl "www.example.com" = "https://www.example.com"
  /\ Utils.normalizeUrl "http://example.com" = "http://example.com"
  /\ Utils.normalizeUrl "https://example.com" = "https://example.com".
Proof. repeat split. Qed.

(** The suite of [src/utils.ts] also expects ["www.example.com"] to be an
    almost-URL; the pattern of the bundled plugin, which ends its last
    alternative at a label without a dot, does not accept it. *)
Example test_isAlmostUrl :
  Utils.isAlmostUrl "htp://example.com" = true
  /\ Utils.isAlmostUrl "htps://example.com" = true
  /\ Utils.isAlmostUrl "www.example" = true
  /\ Utils.isAlmostUrl "www.example.com" = false
  /\ Utils.isAlmostUrl "example.com" = false
  /\ Utils.isAlmostUrl "just text" = false
  /\ Utils.isAlmostUrl "" = false.
Proof. repeat split. Qed.

Example test_isValidWikiLink :
  Utils.isValidWikiLink "https://example.com" = false
  /\ Utils.isValidWikiLink "MyNote" = true
  /\ Utils.isValidWikiLink "My Note" = true
  /\ Utils.isValidWikiLink "file|name" = false
  /\ Utils.isValidWikiLink "file:name" = false
  /\ Utils.isValidWikiLink "file*name" = false
  /\ Utils.isValidWikiLink "" = false.
Proof. repeat split. Qed.

Example test_isValidMarkdownLink :
  Utils.isValidMarkdownLink "https://example.com" = true
  /\ Utils.isValidMarkdownLink "www.example.com" = true
  /\ Utils.isValidMarkdownLink "my file.md" = false
  /\ Utils.isValidMarkdownLink "my%20file.md" = true
  /\ Utils.isValidMarkdownLink "" = false.
Proof. repeat split. Qed.

Example test_parseWikiLink :
  Utils.parseWikiLink "[[MyNote]]"
  = Some {| Utils.pl_destination := "MyNote"; Utils.pl_text := "MyNote";
            Utils.pl_isEmbed := false |}
  /\ Utils.parseWikiLink "[[MyNote|Display]]"
     = Some {| Utils.pl_destination := "MyNote"; Utils.pl_text := "Display";
               Utils.pl_isEmbed := false |}
  /\ Utils.parseWikiLink "![[Image.png]]"
     = Some {| Utils.pl_destination := "Image.png"; Utils.pl_text := "Image.png";
               Utils.pl_isEmbed := true |}
  /\ Utils.parseWikiLink "not a link" = None
  /\ Utils.parseWikiLink "" = None.
Proof. repeat split. Qed.

Example test_parseMarkdownLink :
  Utils.parseMarkdownLink "[text](dest.md)"
  = Some {| Utils.pl_destination := "dest.md"; Utils.pl_text := "text";
            Utils.pl_isEmbed := false |}
  /\ Utils.parseMarkdownLink "![alt](image.png)"
     = Some {| Utils.pl_destination := "image.png"; Utils.pl_text := "alt";
               Utils.pl_isEmbed := true |}
  /\ Utils.parseMarkdownLink "not a link" = None
  /\ Utils.parseMarkdownLink "" = None.
Proof. repeat split. Qed.

Example test_conversion :
  Utils.wikiToMarkdown "My Note" = "My%20Note"
  /\ Utils.wikiToMarkdown "Note^ref" = "Note%5Eref"
  /\ Utils.wikiToMarkdown "https://example.com" = "https://example.com"
  /\ Utils.markdownToWiki "My%20Note" = Some "My Note"
  /\ Utils.markdownToWiki "Note%5Eref" = Some "Note^ref"
  /\ Utils.markdownToWiki "https://example.com" = None
  /\ Utils.wikiToMarkdown "" = ""
  /\ Utils.markdownToWiki "" = Some "".
Proof. repeat split. Qed.

Example test_urlAtCursor :
  Utils.urlAtCursor "Visit https://example.com today" 10
  = Some "https://example.com"
  /\ Utils.urlAtCursor "This is plain text" 5 = None
  /\ Utils.urlAtCursor "Check www.example.com now" 10 = Some "www.example.com".
Proof. repeat split. Qed.

Example test_parseClipboardLink :
  Utils.parseClipboardLink "[[MyNote|Display]]"
  = Some {| Utils.cl_text := "Display"; Utils.cl_destination := "MyNote";
            Utils.cl_isWiki := true |}
  /\ Utils.parseClipboardLink "[text](dest.md)"
     = Some {| Utils.cl_text := "text"; Utils.cl_destination := "dest.md";
               Utils.cl_isWiki := false |}
  /\ Utils.parseClipboardLink "just plain text" = None
  /\ Utils.parseClipboardLink "" = None.
Proof. repeat split. Qed.

Example test_detectLinkAtCursor :
  Utils.detectLinkAtCursor "This is [[MyNote]] here" 12
  = Some {| lac_link := {| li_text := "MyNote"; li_destination := "MyNote";
                           li_isWiki := true; li_isEmbed := false |};
            lac_start := 8; lac_end := 18; lac_enteredFromLeft := false |}
  /\ Utils.detectLinkAtCursor "This is [link](dest.md) here" 12
     = Some {| lac_link := {| li_text := "link"; li_destination := "dest.md";
                              li_isWiki := false; li_isEmbed := false |};
               lac_start := 8; lac_end := 23; lac_enteredFromLeft := false |}
  /\ Utils.detectLinkAtCursor "This is plain text" 10 = None.
Proof. repeat split. Qed.

Example test_validateLinkDestination :
  v_isValid (Utils.validateLinkDestination "MyNote" "text" true) = true
  /\ v_isValid (Utils.validateLinkDestination "https://example.com" "text" true)
     = false
  /\ v_isValid (Utils.validateLinkDestination "https://example.com" "text" false)
     = true
  /\ Utils.validateLinkDestination "" "text" true = Utils.initialValidation
  /\ v_isValid (Utils.validateLinkDestination "file|with|pipes" "text" true)
     = false.
Proof. repeat split. Qed.

(** [tests/linkOperations.test.ts], new links. *)
Example test_determineLinkOperation :
  (forall op,
      LinkOperations.determineLinkOperation
        Utils.detectLinkAtCursor Utils.urlAtCursor Utils.determineLinkFromContext
        {| ec_cursorLine := 0; ec_cursorCh := 8;
           ec_lineText := "Visit www.example.com today";
           ec_selection := ""; ec_clipboardText := "" |} = Some op ->
      li_destination (op_link op) = "https://www.example.com"
      /\ op_start op = 6%Z /\ op_end op = 21%Z
      /\ op_shouldSelectText op = true)
  /\ (forall op,
        LinkOperations.determineLinkOperation
          Utils.detectLinkAtCursor Utils.urlAtCursor Utils.determineLinkFromContext
          {| ec_cursorLine := 0; ec_cursorCh := 5;
             ec_lineText := "Plain text";
             ec_selection := "";
             ec_clipboardText := "[[other-note|Other Note]]" |} = Some op ->
        op_link op = {| li_text := "Other Note"; li_destination := "other-note";
                        li_isWiki := true; li_isEmbed := false |}
        /\ op_isNewLink op = true)
  /\ (forall op,
        LinkOperations.determineLinkOperation
          Utils.detectLinkAtCursor Utils.urlAtCursor Utils.determineLinkFromContext
          {| ec_cursorLine := 0; ec_cursorCh := 6;
             ec_lineText := "Click here for more info";
             ec_selection := "here";
             ec_clipboardText := "https://example.com" |} = Some op ->
        li_text (op_link op) = "here"
        /\ li_destination (op_link op) = "https://example.com").
Proof.
  repeat split;
    match goal with H : _ = Some _ |- _ => vm_compute in H; inversion H end;
    reflexivity.
Qed.

(** [tests/linkOperations.test.ts], the skip positions. *)
Example test_determineSkipPosition :
  let skip := LinkOperations.determineSkipPosition Utils.detectLinkAtCursor in
  skip {| sk_cursorLine := 0; sk_cursorCh := 8;
          sk_lineText := "Check [[my-note]]";
          sk_lineCount := 5; sk_prevLineLength := 20 |}
  = {| position := pos 1 0; skipped := true |}
  /\ skip {| sk_cursorLine := 3; sk_cursorCh := 10;
             sk_lineText := "[[my-note]] for more";
             sk_lineCount := 10; sk_prevLineLength := 15 |}
     = {| position := pos 2 15; skipped := true |}
  /\ skip {| sk_cursorLine := 3; sk_cursorCh := 8;
             sk_lineText := "[[my-note]]";
             sk_lineCount := 10; sk_prevLineLength := 25 |}
     = {| position := pos 2 25; skipped := true |}
  /\ skip {| sk_cursorLine := 0; sk_cursorCh := 5;
             sk_lineText := "[[my-note]]";
             sk_lineCount := 1; sk_prevLineLength := 20 |}
     = {| position := pos 0 11; skipped := true |}
  /\ skip {| sk_cursorLine := 0; sk_cursorCh := 11;
             sk_lineText := "Test [[link]] end";
             sk_lineCount := 10; sk_prevLineLength := 20 |}
     = {| position := pos 0 4; skipped := true |}.
Proof. cbv zeta. repeat split; vm_compute; reflexivity. Qed.

(** The suite of [src/linkOperations.ts] expects a cursor at offset 5 of
    this link, in its left half, to count as entered from the left; the rule
    [ch <= start + 2], which is also the rule of the bundled plugin, does
    not. *)
Example enteredFromLeft_by_bracket :
  (exists lk, Utils.detectLinkAtCursor "[[my-note|My Note]]" 5 = Some lk
              /\ lac_enteredFromLeft lk = false)
  /\ (exists lk, Utils.detectLinkAtCursor "[[my-note|My Note]]" 2 = Some lk
                 /\ lac_enteredFromLeft lk = true)
  /\ (exists lk, Utils.detectLinkAtCursor "[[my-note|My Note]]" 15 = Some lk
                 /\ lac_enteredFromLeft lk = false).
Proof.
  repeat split; eexists; (split; [vm_compute; reflexivity | reflexivity]).
Qed.

(* ------------------------------------------------------------------ *)
(** ** Instances at concrete inputs *)

Lemma new_link_rules_witness :
  Utils.isUrl "www.example.com" = true
  /\ li_destination
       (op_link
          (LinkOperations.createNewLinkOperation
             Utils.urlAtCursor Utils.determineLinkFromContext
             "" 0 "www.example.com" ""))
     = "https://www.example.com".
Proof.
  split; [reflexivity |].
  pose proof (new_link_rules "" "www.example.com" "" 0) as H.
  cbv zeta in H. destruct H as [R1 _].
  destruct (R1 eq_refl) as (_ & D & _).
  rewrite D. reflexivity.
Defined.

Lemma skip_side_classification_witness :
  Utils.detectLinkAtCursor "Test [[link]] end" 11
  = Some {| lac_link := {| li_text := "link"; li_destination := "link";
                           li_isWiki := true; li_isEmbed := false |};
            lac_start := 5; lac_end := 13; lac_enteredFromLeft := false |}
  /\ (0 < 5)%Z /\ (13 < 17)%Z
  /\ LinkOperations.determineSkipPosition Utils.detectLinkAtCursor
       {| sk_cursorLine := 0; sk_cursorCh := 11;
          sk_lineText := "Test [[link]] end";
          sk_lineCount := 10; sk_prevLineLength := 20 |}
     = {| position := pos 0 4; skipped := true |}.
Proof.
  split; [reflexivity | split; [lia | split; [lia |]]].
  destruct skip_side_classification as (_ & _ & _ & G & _).
  rewrite (G Utils.detectLinkAtCursor
             {| sk_cursorLine := 0; sk_cursorCh := 11;
                sk_lineText := "Test [[link]] end";
                sk_lineCount := 10; sk_prevLineLength := 20 |}
             _ eq_refl); [reflexivity | cbn; lia | cbn; lia].
Defined.

Lemma skip_normal_case_witness :
  Utils.detectLinkAtCursor "Check [[my-note]]" 8
  = Some {| lac_link := {| li_text := "my-note"; li_destination := "my-note";
                           li_isWiki := true; li_isEmbed := false |};
            lac_start := 6; lac_end := 17; lac_enteredFromLeft := true |}
  /\ position
       (LinkOperations.determineSkipPosition Utils.detectLinkAtCursor
          {| sk_cursorLine := 0; sk_cursorCh := 8;
             sk_lineText := "Check [[my-note]]";
             sk_lineCount := 5; sk_prevLineLength := 20 |})
     = pos 1 0.
Proof.
  split; [reflexivity |].
  assert (N : ~ spansWholeLine
                {| lac_link := {| li_text := "my-note"; li_destination := "my-note";
                                  li_isWiki := true; li_isEmbed := false |};
                   lac_start := 6; lac_end := 17; lac_enteredFromLeft := true |}
                "Check [[my-note]]").
  { unfold spansWholeLine; cbn; lia. }
  destruct (skip_normal_case Utils.detectLinkAtCursor
              {| sk_cursorLine := 0; sk_cursorCh := 8;
                 sk_lineText := "Check [[my-note]]";
                 sk_lineCount := 5; sk_prevLineLength := 20 |}
              _ eq_refl N) as (_ & L & _).
  destruct (L eq_refl) as (_ & T & _).
  apply T.
  - unfold withinLine; cbn; lia.
  - unfold hasNextLine; cbn; lia.
Defined.

Lemma skip_whole_line_witness :
  Utils.detectLinkAtCursor "[[my-note]]" 8
  = Some {| lac_link := {| li_text := "my-note"; li_destination := "my-note";
                           li_isWiki := true; li_isEmbed := false |};
            lac_start := 0; lac_end := 11; lac_enteredFromLeft := false |}
  /\ position
       (LinkOperations.determineSkipPosition Utils.detectLinkAtCursor
          {| sk_cursorLine := 3; sk_cursorCh := 8;
             sk_lineText := "[[my-note]]";
             sk_lineCount := 10; sk_prevLineLength := 25 |})
     = pos 2 25.
Proof.
  split; [reflexivity |].
  assert (W : spansWholeLine
                {| lac_link := {| li_text := "my-note"; li_destination := "my-note";
                                  li_isWiki := true; li_isEmbed := false |};
                   lac_start := 0; lac_end := 11; lac_enteredFromLeft := false |}
                "[[my-note]]").
  { unfold spansWholeLine; cbn; lia. }
  destruct skip_whole_line as [G _].
  destruct (G Utils.detectLinkAtCursor
              {| sk_cursorLine := 3; sk_cursorCh := 8;
                 sk_lineText := "[[my-note]]";
                 sk_lineCount := 10; sk_prevLineLength := 25 |}
              _ eq_refl W) as (_ & _ & R).
  destruct (R eq_refl) as (T & _).
  apply T. unfold hasPrevLine; cbn; lia.
Defined.

Lemma skip_no_link_witness :
  Utils.detectLinkAtCursor "Plain text with no links" 10 = None
  /\ LinkOperations.determineSkipPosition Utils.detectLinkAtCursor
       {| sk_cursorLine := 0; sk_cursorCh := 10;
          sk_lineText := "Plain text with no links";
          sk_lineCount := 10; sk_prevLineLength := 20 |}
     = {| position := {| line := 0; ch := 10 |}; skipped := false |}.
Proof.
  split; [reflexivity |].
  destruct (skip_no_link Utils.detectLinkAtCursor
              {| sk_cursorLine := 0; sk_cursorCh := 10;
                 sk_lineText := "Plain text with no links";
                 sk_lineCount := 10; sk_prevLineLength := 20 |} eq_refl)
    as [S P].
  destruct (LinkOperations.determineSkipPosition _ _) as [p s].
  cbn in S, P. now subst.
Defined.

Lemma codec_laws_witness :
  Utils.isUrl "My Note" = false
  /\ Utils.hasEncodedSequence "My Note" = false
  /\ Utils.isUrl (Utils.wikiToMarkdown "My Note") = false
  /\ Utils.markdownToWiki (Utils.wikiToMarkdown "My Note") = Some "My Note".
Proof.
  repeat (split; [reflexivity |]).
  destruct codec_laws as (_ & _ & R & _).
  exact (R "My Note" eq_refl eq_refl eq_refl).
Defined.

Lemma validate_destination_spec_witness :
  Utils.isUrl "https://example.com" = true
  /\ v_isValid (Utils.validateLinkDestination "https://example.com" "text" true)
     = false.
Proof.
  split; [reflexivity |].
  destruct validate_destination_spec as (_ & R & _).
  exact (proj1 (R "https://example.com" "text" eq_refl)).
Defined.

Lemma core_total_on_blank_witness :
  blank "   " /\ Utils.parseWikiLink "   " = None /\ Utils.isUrl "   " = false.
Proof.
  assert (B : blank "   ") by (unfold blank; cbn; repeat constructor).
  split; [exact B |].
  destruct core_total_on_blank as (_ & R & _).
  destruct (R "   " B) as (U & _ & W & _).
  now split.
Defined.

Lemma link_operation_invariant_witness :
  exists op,
    LinkOperations.determineLinkOperation
      Utils.detectLinkAtCursor Utils.urlAtCursor Utils.determineLinkFromContext
      {| ec_cursorLine := 0; ec_cursorCh := 12;
         ec_lineText := "Embed: ![[image.png]]";
         ec_selection := ""; ec_clipboardText := "" |} = Some op
    /\ operationInvariant op.
Proof.
  destruct (link_operation_invariant
              Utils.detectLinkAtCursor Utils.urlAtCursor
              Utils.determineLinkFromContext) as [G _].
  destruct (G {| ec_cursorLine := 0; ec_cursorCh := 12;
                 ec_lineText := "Embed: ![[image.png]]";
                 ec_selection := ""; ec_clipboardText := "" |})
    as (op & E & I & _).
  exists op. now split.
Defined.

(* ------------------------------------------------------------------ *)
(** ** Suggestion queries *)

Section SuggestionQueryFacts.
Import JsString SuggestionQuery.

Example test_parse_file_block :
  parseSuggestionQuery "folder/note#^block"
  = {| type := FileBlock; fileName := Some "folder/note";
       searchTerm := Some "block"; original := "folder/note#^block" |}.
Proof. reflexivity. Qed.

Example test_parse_trims :
  parseSuggestionQuery "  ##Heading  "
  = {| type := GlobalHeading; fileName := None;
       searchTerm := Some "Heading"; original := "##Heading" |}.
Proof. reflexivity. Qed.

Example test_generateLinkValue :
  generateLinkValue
    {| query := parseSuggestionQuery "##Introduction";
       currentFilePath := None; targetFileBasename := Some "sourcenote";
       headingText := Some "Introduction"; blockId := None |}
  = "sourcenote#Introduction"
  /\ generateLinkValue
       {| query := parseSuggestionQuery "^abc123";
          currentFilePath := None; targetFileBasename := None;
          headingText := None; blockId := Some "abc123" |}
     = "#^abc123".
Proof. split; reflexivity. Qed.

Example test_validateQuery :
  fst (validateQuery (parseSuggestionQuery "note#heading")) = true
  /\ snd (validateQuery (parseSuggestionQuery "note|name#heading"))
     = [msgFileNamePipe]
  /\ fst (validateQuery (parseSuggestionQuery "note[[name")) = true.
Proof. repeat split; reflexivity. Qed.

Example test_hasSearchTerm :
  hasSearchTerm (parseSuggestionQuery "##intro") = true
  /\ hasSearchTerm (parseSuggestionQuery "note#") = false.
Proof. split; reflexivity. Qed.

Example test_parse_empty_anchor :
  parseSuggestionQuery "mynote^"
  = {| type := FileBlockNoHash; fileName := Some "mynote";
       searchTerm := Some ""; original := "mynote^" |}.
Proof. reflexivity. Qed.

Lemma stripPrefix_Some p l r : stripPrefix p l = Some r <-> l = p ++ r.
Proof.
  revert l. induction p as [| a p IH]; intros l; cbn.
  - split; congruence.
  - destruct l as [| b l]; [split; discriminate |].
    destruct (Ascii.eqb a b) eqn:E.
    + apply Ascii.eqb_eq in E. subst b. rewrite IH. split; congruence.
    + split; [discriminate |]. intros [= -> _].
      now rewrite Ascii.eqb_refl in E.
Qed.

Lemma stripPrefix_app p x y z :
  stripPrefix p x = Some z -> stripPrefix p (x ++ y) = Some (z ++ y).
Proof.
  intros H. apply stripPrefix_Some in H. subst x.
  apply stripPrefix_Some. now rewrite app_assoc.
Qed.

Lemma stripPrefix_app_None p x y :
  stripPrefix p (x ++ y) = None -> stripPrefix p x = None.
Proof.
  intros H. destruct (stripPrefix p x) eqn:E; [| reflexivity].
  now rewrite (stripPrefix_app _ _ y _ E) in H.
Qed.

Lemma split_skip sep pre rest :
  split sep (List.length pre) (pre ++ rest) = split sep 0 rest.
Proof.
  induction pre as [| c pre IH]; cbn [List.length app].
  - reflexivity.
  - cbn [split]. exact IH.
Qed.

Lemma split_cons sep c r :
  split sep 0 (c :: r) =
    match stripPrefix sep (c :: r) with
    | Some _ => [] :: split sep (List.length sep - 1) r
    | None => match split sep 0 r with
              | p :: ps => (c :: p) :: ps
              | [] => [[c]]
              end
    end.
Proof. reflexivity. Qed.

(** The array returned by [split]: the text before the first occurrence
    of the separator, followed by the pieces of what comes after it. *)
Lemma split_first sep l :
  sep <> [] ->
  exists a,
    (includes sep l = false /\ a = l /\ split sep 0 l = [a])
    \/ (exists rest, includes sep l = true /\ l = a ++ sep ++ rest
        /\ includes sep a = false
        /\ split sep 0 l = a :: split sep 0 rest).
Proof.
  intros Hsep. induction l as [| c r IH].
  - exists []. left. destruct sep; [congruence | now cbn].
  - rewrite split_cons, (includes_eq sep (c :: r)).
    destruct (stripPrefix sep (c :: r)) as [rest |] eqn:E.
    + exists []. right. exists rest.
      apply stripPrefix_Some in E.
      destruct sep as [| s sep']; [congruence |].
      cbn [app] in E. injection E as -> ->.
      repeat split.
      cbn [List.length app].
      replace (S (List.length sep') - 1) with (List.length sep') by lia.
      now rewrite split_skip.
    + destruct IH as [a [(I & -> & S) | (rest & I & -> & Ia & S)]].
      * exists (c :: r). left. rewrite S. now repeat split.
      * exists (c :: a). right. exists rest. rewrite S.
        repeat split; [exact I |].
        rewrite includes_eq.
        change (c :: a ++ sep ++ rest) with ((c :: a) ++ sep ++ rest) in E.
        now rewrite (stripPrefix_app_None _ _ _ E).
Qed.

Lemma str_app a b : str (a ++ b) = (str a ++ str b)%string.
Proof.
  unfold str. induction a as [| c a IH]; cbn; [reflexivity | now rewrite IH].
Qed.

Lemma chars_app a b : chars (a ++ b)%string = chars a ++ chars b.
Proof.
  unfold chars. induction a as [| c a IH]; cbn; [reflexivity | now rewrite IH].
Qed.

Lemma startsWith_true p l :
  startsWith p l = true <-> l = p ++ skipn (List.length p) l.
Proof.
  unfold startsWith. destruct (stripPrefix p l) as [r |] eqn:E.
  - apply stripPrefix_Some in E. subst l. split; [intros _ | reflexivity].
    now rewrite skipn_app, skipn_all, Nat.sub_diag.
  - split; [discriminate |]. intros H.
    assert (G : stripPrefix p l = Some (skipn (List.length p) l))
      by now apply stripPrefix_Some.
    congruence.
Qed.

Lemma startsWith_cons c p d l :
  startsWith (c :: p) (d :: l) = Ascii.eqb c d && startsWith p l.
Proof. unfold startsWith. cbn. now destruct (Ascii.eqb c d). Qed.

Local Abbreviation t_of q := (chars (trim q)).

(** The eight branches of the parser, each with the tests that lead to
    it. *)
Lemma parse_cases q :
  let t := t_of q in
  (startsWith (chars "##") t = true
   /\ parseSuggestionQuery q =
        {| type := GlobalHeading; fileName := None;
           searchTerm := Some (str (skipn 2 t)); original := trim q |})
  \/ (startsWith (chars "#^") t = true
      /\ parseSuggestionQuery q =
           {| type := CurrentBlock; fileName := None;
              searchTerm := Some (str (skipn 2 t)); original := trim q |})
  \/ (startsWith (chars "#") t = true
      /\ parseSuggestionQuery q =
           {| type := CurrentHeading; fileName := None;
              searchTerm := Some (str (skipn 1 t)); original := trim q |})
  \/ (startsWith (chars "^") t = true
      /\ parseSuggestionQuery q =
           {| type := Block; fileName := None;
              searchTerm := Some (str (skipn 1 t)); original := trim q |})
  \/ (startsWith (chars "#") t = false /\ startsWith (chars "^") t = false
      /\ includes (chars "#^") t = true
      /\ parseSuggestionQuery q =
           {| type := FileBlock; fileName := fst (splitPair "#^" t);
              searchTerm := snd (splitPair "#^" t); original := trim q |})
  \/ (startsWith (chars "#") t = false /\ startsWith (chars "^") t = false
      /\ includes (chars "#") t = true
      /\ parseSuggestionQuery q =
           {| type := FileHeading; fileName := fst (splitPair "#" t);
              searchTerm := snd (splitPair "#" t); original := trim q |})
  \/ (startsWith (chars "#") t = false /\ startsWith (chars "^") t = false
      /\ includes (chars "^") t = true
      /\ parseSuggestionQuery q =
           {| type := FileBlockNoHash; fileName := fst (splitPair "^" t);
              searchTerm := snd (splitPair "^" t); original := trim q |})
  \/ (startsWith (chars "#") t = false /\ startsWith (chars "^") t = false
      /\ includes (chars "#") t = false /\ includes (chars "^") t = false
      /\ parseSuggestionQuery q =
           {| type := File; fileName := None;
              searchTerm := Some (str t); original := trim q |}).
Proof.
  intros t. unfold parseSuggestionQuery. fold t.
  destruct (startsWith (chars "##") t) eqn:E1; [now left |].
  destruct (startsWith (chars "#^") t) eqn:E2; [now right; left |].
  destruct (startsWith (chars "#") t) eqn:E3; cbn [andb negb];
    [now right; right; left |].
  destruct (startsWith (chars "^") t) eqn:E4; [now do 3 right; left |].
  destruct (includes (chars "#^") t) eqn:E5.
  { do 4 right; left. now destruct (splitPair "#^" t). }
  destruct (includes (chars "#") t) eqn:E6; cbn [andb].
  { do 5 right; left. now destruct (splitPair "#" t). }
  destruct (includes (chars "^") t) eqn:E7; cbn [andb].
  { do 6 right; left. now destruct (splitPair "^" t). }
  do 7 right. now repeat split.
Qed.

Lemma trimL_noLead l : noLead (trimL l).
Proof. apply trimEnd_noLead, trimStart_noLead. Qed.

Lemma trimL_cons_nonblank c r :
  isWhiteSpace c = false -> trimL (c :: r) <> [].
Proof.
  intros Hc. unfold trimL. cbn [trimStart]. rewrite Hc.
  unfold trimEnd. cbn [rev].
  destruct (trimStart_snoc (rev r) c Hc) as [l' ->].
  rewrite rev_app_distr. cbn. congruence.
Qed.

(** What the destructured split gives for a text that holds the
    separator but does not start with its first character. *)
Lemma splitPair_anchor (sep : string) s0 sep' t :
  chars sep = s0 :: sep' ->
  startsWith [s0] t = false ->
  includes (chars sep) t = true ->
  exists f term rest,
    splitPair sep t = (Some (str f), Some (str term))
    /\ t = f ++ chars sep ++ term ++ rest
    /\ (rest = [] \/ exists r, rest = chars sep ++ r)
    /\ (exists c f', f = c :: f' /\ hd_error t = Some c)
    /\ includes (chars sep) f = false
    /\ includes (chars sep) term = false.
Proof.
  intros Hsep Hs Hi.
  assert (Hne : chars sep <> []) by (rewrite Hsep; congruence).
  unfold splitPair.
  destruct (split_first (chars sep) t Hne)
    as [f [(I & _) | (rest1 & _ & -> & If & S)]]; [congruence |].
  rewrite S.
  destruct (split_first (chars sep) rest1 Hne)
    as [term [(It & -> & S2) | (rest2 & _ & -> & It & S2)]]; rewrite S2.
  - exists f, rest1, []. cbn [nth_error option_map].
    rewrite app_nil_r. repeat split; auto.
    destruct f as [| c f'].
    + cbn [app] in Hs. rewrite Hsep in Hs. cbn [app] in Hs.
      rewrite startsWith_cons, Ascii.eqb_refl in Hs. discriminate.
    + now exists c, f'.
  - exists f, term, (chars sep ++ rest2). cbn [nth_error option_map].
    repeat split; auto.
    + right. now exists rest2.
    + destruct f as [| c f'].
      * cbn [app] in Hs. rewrite Hsep in Hs. cbn [app] in Hs.
        rewrite startsWith_cons, Ascii.eqb_refl in Hs. discriminate.
      * now exists c, f'.
Qed.

Lemma startsWith_sharp2 t :
  startsWith (chars "##") t = true -> startsWith (chars "#") t = true.
Proof.
  destruct t as [| c t]; [discriminate |].
  change (chars "##") with ["#"%char; "#"%char].
  change (chars "#") with ["#"%char].
  rewrite !startsWith_cons. destruct (Ascii.eqb "#" c); [| discriminate].
  reflexivity.
Qed.

Lemma startsWith_sharp_caret t :
  startsWith (chars "#^") t = true -> startsWith (chars "#") t = true.
Proof.
  destruct t as [| c t]; [discriminate |].
  change (chars "#^") with ["#"%char; "^"%char].
  change (chars "#") with ["#"%char].
  rewrite !startsWith_cons. destruct (Ascii.eqb "#" c); [| discriminate].
  reflexivity.
Qed.

Lemma parse_fileName_set q :
  fileName (parseSuggestionQuery q) <> None
  <-> isFileSpecificQuery (parseSuggestionQuery q) = true
      /\ type (parseSuggestionQuery q) <> File.
Proof.
  destruct (parse_cases q)
    as [(A & ->) | [(A & ->) | [(A & ->) | [(A & ->)
       | [(A & B & C & ->) | [(A & B & C & ->) | [(A & B & C & ->)
       | (A & B & C & D & ->)]]]]]]];
    cbn [fileName type];
    unfold isFileSpecificQuery; cbn [type existsb QueryType_eqb orb];
    try (split; [congruence | intros []; congruence]).
  - destruct (splitPair_anchor "#^" "#"%char ["^"%char] _ eq_refl A C)
      as (f & term & rest & -> & _).
    cbn [fst]. repeat split; congruence.
  - destruct (splitPair_anchor "#" "#"%char [] _ eq_refl A C)
      as (f & term & rest & -> & _).
    cbn [fst]. repeat split; congruence.
  - destruct (splitPair_anchor "^" "^"%char [] _ eq_refl B C)
      as (f & term & rest & -> & _).
    cbn [fst]. repeat split; congruence.
Qed.

(** X1.  Whether a parsed query is file-specific is decided by the first
    character of the trimmed text alone: it is file-specific exactly
    when the text starts with neither [#] nor [^].  The parser sets
    [fileName] exactly for the three file-specific types other than
    ['file'], always sets [searchTerm], and keeps the trimmed text as
    [original]. *)
Theorem parse_scope (q : string) :
  let p := parseSuggestionQuery q in
  let t := chars (trim q) in
  isFileSpecificQuery p
    = negb (startsWith (chars "#") t || startsWith (chars "^") t)
  /\ (fileName p <> None
      <-> isFileSpecificQuery p = true /\ type p <> File)
  /\ searchTerm p <> None
  /\ original p = trim q.
Proof.
  intros p t. subst p t.
  destruct (parse_cases q)
    as [(A & ->) | [(A & ->) | [(A & ->) | [(A & ->)
       | [(A & B & C & ->) | [(A & B & C & ->) | [(A & B & C & ->)
       | (A & B & C & D & ->)]]]]]]];
    cbn [fileName searchTerm original type];
    unfold isFileSpecificQuery; cbn [type existsb QueryType_eqb orb].
  - rewrite (startsWith_sharp2 _ A). cbn [negb orb].
    repeat split; try congruence; intros []; congruence.
  - rewrite (startsWith_sharp_caret _ A). cbn [negb orb].
    repeat split; try congruence; intros []; congruence.
  - rewrite A. cbn [negb orb].
    repeat split; try congruence; intros []; congruence.
  - rewrite A, orb_true_r. cbn [negb orb].
    repeat split; try congruence; intros []; congruence.
  - rewrite A, B. cbn [negb orb].
    destruct (splitPair_anchor "#^" "#"%char ["^"%char] _ eq_refl A C)
      as (f & term & rest & -> & _).
    cbn [fst snd]. repeat split; congruence.
  - rewrite A, B. cbn [negb orb].
    destruct (splitPair_anchor "#" "#"%char [] _ eq_refl A C)
      as (f & term & rest & -> & _).
    cbn [fst snd]. repeat split; congruence.
  - rewrite A, B. cbn [negb orb].
    destruct (splitPair_anchor "^" "^"%char [] _ eq_refl B C)
      as (f & term & rest & -> & _).
    cbn [fst snd]. repeat split; congruence.
  - rewrite A, B. cbn [negb orb].
    repeat split; try congruence; intros []; congruence.
Qed.

Lemma anchored_of_split (sep : string) s0 sep' q ty :
  chars sep = s0 :: sep' ->
  startsWith [s0] (chars (trim q)) = false ->
  includes (chars sep) (chars (trim q)) = true ->
  exists term,
    snd (splitPair sep (chars (trim q))) = Some term
    /\ anchored sep
         {| type := ty; fileName := fst (splitPair sep (chars (trim q)));
            searchTerm := snd (splitPair sep (chars (trim q)));
            original := trim q |} term.
Proof.
  intros Hsep Hs Hi.
  destruct (splitPair_anchor sep s0 sep' _ Hsep Hs Hi)
    as (f & term & rest & -> & Ht & Hr & (c & f' & -> & _) & If & It).
  exists (str term). split; [reflexivity |].
  exists (str (c :: f')), (str rest). cbn [fileName original fst snd].
  split; [reflexivity |]. split.
  { rewrite <- (str_chars (trim q)), Ht.
    now rewrite !str_app, str_chars. }
  split.
  { destruct Hr as [-> | [r ->]]; [now left | right].
    exists (str r). now rewrite str_app, str_chars. }
  split; [discriminate |].
  now rewrite !chars_str.
Qed.

(** X2.  The fields of a parsed query spell the trimmed text back: for
    the five types without file part, [original] is the prefix of the
    type followed by the search term; for the three types with a file
    part it is the non-empty file name, the separator and the search
    term, followed only by what a further separator starts (the part
    the destructuring drops). *)
Theorem parse_reconstruct (q : string) :
  let p := parseSuggestionQuery q in
  exists term,
    searchTerm p = Some term
    /\ match type p with
       | GlobalHeading =>
           fileName p = None /\ original p = ("##" ++ term)%string
       | CurrentBlock =>
           fileName p = None /\ original p = ("#^" ++ term)%string
       | CurrentHeading =>
           fileName p = None /\ original p = ("#" ++ term)%string
       | Block =>
           fileName p = None /\ original p = ("^" ++ term)%string
       | FileBlock => anchored "#^" p term
       | FileHeading => anchored "#" p term
       | FileBlockNoHash => anchored "^" p term
       | File => fileName p = None /\ original p = term
       end.
Proof.
  intros p. subst p.
  assert (R : forall pre, startsWith (chars pre) (chars (trim q)) = true ->
            trim q = (pre ++ str (skipn (String.length pre)
                                    (chars (trim q))))%string).
  { intros pre H. apply startsWith_true in H.
    rewrite <- (str_chars (trim q)) at 1. rewrite H at 1.
    now rewrite str_app, str_chars, length_chars. }
  destruct (parse_cases q)
    as [(A & ->) | [(A & ->) | [(A & ->) | [(A & ->)
       | [(A & B & C & ->) | [(A & B & C & ->) | [(A & B & C & ->)
       | (A & B & C & D & ->)]]]]]]];
    cbn [fileName searchTerm original type].
  - eexists; split; [reflexivity |]. split; [reflexivity |].
    exact (R "##" A).
  - eexists; split; [reflexivity |]. split; [reflexivity |].
    exact (R "#^" A).
  - eexists; split; [reflexivity |]. split; [reflexivity |].
    exact (R "#" A).
  - eexists; split; [reflexivity |]. split; [reflexivity |].
    exact (R "^" A).
  - exact (anchored_of_split "#^" "#"%char ["^"%char] q FileBlock
             eq_refl A C).
  - exact (anchored_of_split "#" "#"%char [] q FileHeading eq_refl A C).
  - exact (anchored_of_split "^" "^"%char [] q FileBlockNoHash
             eq_refl B C).
  - eexists; split; [reflexivity |]. split; [reflexivity |].
    now rewrite str_chars.
Qed.

Lemma msg_distinct :
  msgFileNamePipe <> msgFileNameRequired
  /\ msgFileNameBrackets <> msgFileNameRequired.
Proof. split; vm_compute; discriminate. Qed.

(** The file name of a parser result is never blank. *)
Lemma parse_fileName_nonblank q f :
  fileName (parseSuggestionQuery q) = Some f ->
  truthy f = true /\ trim f <> "".
Proof.
  assert (G : forall (sep : string) s0 sep',
             chars sep = s0 :: sep' ->
             startsWith [s0] (chars (trim q)) = false ->
             includes (chars sep) (chars (trim q)) = true ->
             fst (splitPair sep (chars (trim q))) = Some f ->
             truthy f = true /\ trim f <> "").
  { intros sep s0 sep' Hsep Hs Hi.
    destruct (splitPair_anchor sep s0 sep' _ Hsep Hs Hi)
      as (f0 & term & rest & -> & Ht & _ & (c & f' & -> & Hc) & _).
    cbn [fst]. intros E.
    assert (F : f = str (c :: f')) by congruence.
    subst f. clear E.
    assert (W : isWhiteSpace c = false).
    { pose proof (trimL_noLead (chars q)) as N.
      unfold trim in Hc. rewrite chars_str in Hc.
      destruct (trimL (chars q)); [discriminate |].
      cbn in Hc. injection Hc as ->. exact N. }
    split.
    - apply truthy_chars. rewrite chars_str. discriminate.
    - unfold trim. rewrite chars_str. intros E.
      apply (trimL_cons_nonblank c f' W).
      rewrite <- (chars_str (trimL (c :: f'))), E. reflexivity. }
  destruct (parse_cases q)
    as [(A & ->) | [(A & ->) | [(A & ->) | [(A & ->)
       | [(A & B & C & ->) | [(A & B & C & ->) | [(A & B & C & ->)
       | (A & B & C & D & ->)]]]]]]];
    cbn [fileName]; try discriminate.
  - exact (G "#^" "#"%char ["^"%char] eq_refl A C).
  - exact (G "#" "#"%char [] eq_refl A C).
  - exact (G "^" "^"%char [] eq_refl B C).
Qed.

(** X3.  Validating what the parser returns never reports a missing file
    name, for any typed text: the only warnings possible are the two
    about the characters of the file name, and the query is valid
    exactly when the file name, if there is one, holds no [|], no [[[]
    and no []]]. *)
Theorem parse_then_validate (q : string) :
  let p := parseSuggestionQuery q in
  ~ In msgFileNameRequired (snd (validateQuery p))
  /\ (fst (validateQuery p) = true
      <-> forall f, fileName p = Some f ->
            includes (chars "|") (chars f) = false
            /\ includes (chars "[[") (chars f) = false
            /\ includes (chars "]]") (chars f) = false).
Proof.
  intros p.
  pose proof (parse_fileName_nonblank q) as N. fold p in N.
  pose proof (parse_fileName_set q) as Hf. fold p in Hf.
  unfold validateQuery.
  destruct (fileName p) as [f |] eqn:Ef.
  - destruct (N f eq_refl) as [T B].
    assert (Hs : isFileSpecificQuery p = true /\ type p <> File)
      by (apply Hf; congruence).
    destruct Hs as [Hs1 Hs2]. rewrite Hs1.
    assert (E0 : String.eqb (trim f) "" = false)
      by now apply String.eqb_neq.
    cbn [truthyOpt]. rewrite T, E0. cbn [negb orb andb app].
    destruct msg_distinct as [D1 D2].
    destruct (negb (QueryType_eqb (type p) File));
      destruct (includes (chars "|") (chars f)) eqn:Ia;
      destruct (includes (chars "[[") (chars f)) eqn:Ib;
      destruct (includes (chars "]]") (chars f)) eqn:Ic;
      cbn [orb app fst snd List.length Nat.eqb]; (split; [| split]);
      try (cbn [In]; intuition congruence);
      try discriminate;
      try (intros H; destruct (H f eq_refl) as (H1 & H2 & H3);
           congruence);
      try (intros _ f0 [= <-]; repeat split; assumption).
  - assert (Hs : ~ (isFileSpecificQuery p = true /\ type p <> File))
      by (intros H; apply Hf in H; congruence).
    destruct (isFileSpecificQuery p) eqn:Hs1; cbn [andb].
    + destruct (type p) eqn:Et; cbn [QueryType_eqb negb];
        try (exfalso; apply Hs; split; [reflexivity | discriminate]).
      cbn. split; [tauto |]. split; [discriminate | reflexivity].
    + cbn. split; [tauto |]. split; [discriminate | reflexivity].
Qed.

(** X4.  The classification predicates partition the query types: a
    query is file-specific exactly when it is neither a current-file nor
    a global query, these two never hold together, a query is never both
    a heading and a block query, and it is neither of them exactly when
    its type is ['file']. *)
Theorem query_kinds_partition (p : ParsedQuery) :
  isFileSpecificQuery p = negb (isCurrentFileQuery p || isGlobalQuery p)
  /\ isCurrentFileQuery p && isGlobalQuery p = false
  /\ isHeadingQuery p && isBlockQuery p = false
  /\ (isHeadingQuery p || isBlockQuery p = false <-> type p = File).
Proof.
  unfold isFileSpecificQuery, isCurrentFileQuery, isGlobalQuery,
    isHeadingQuery, isBlockQuery.
  destruct (type p); cbn; repeat split; congruence.
Qed.

Lemma trimL_fix_iff l : trimL l = l <-> noLead l /\ noLead (rev l).
Proof.
  split.
  - intros E. split.
    + rewrite <- E. apply trimL_noLead.
    + rewrite <- E. unfold trimL, trimEnd. rewrite rev_involutive.
      apply trimStart_noLead.
  - intros [A B]. unfold trimL, trimEnd.
    now rewrite (trimStart_fix _ A), (trimStart_fix _ B), rev_involutive.
Qed.

Lemma noLead_app a b : noLead a -> noLead b -> noLead (a ++ b).
Proof. destruct a; cbn; auto. Qed.

Lemma trimL_app a b : trimL a = a -> trimL b = b -> trimL (a ++ b) = a ++ b.
Proof.
  rewrite !trimL_fix_iff. intros [A1 A2] [B1 B2]. split.
  - now apply noLead_app.
  - rewrite rev_app_distr. now apply noLead_app.
Qed.

Lemma trim_fix_chars s : trim s = s <-> trimL (chars s) = chars s.
Proof.
  unfold trim. split; intros E.
  - rewrite <- E at 2. now rewrite chars_str.
  - now rewrite E, str_chars.
Qed.

Lemma trim_app a b :
  trim a = a -> trim b = b -> trim (a ++ b)%string = (a ++ b)%string.
Proof.
  rewrite !trim_fix_chars, chars_app. apply trimL_app.
Qed.

Lemma includesChar_cons c d l :
  includesChar c (d :: l) = false <->
  Ascii.eqb c d = false /\ includesChar c l = false.
Proof. unfold includesChar. cbn [existsb]. apply orb_false_iff. Qed.

Lemma includes_no_first c p l :
  includesChar c l = false -> includes (c :: p) l = false.
Proof.
  induction l as [| d l IH]; [reflexivity |].
  rewrite includesChar_cons. intros [E H].
  rewrite includes_eq. cbn [stripPrefix]. rewrite E. auto.
Qed.

Lemma includes_app_sep n a r : includes n (a ++ n ++ r) = true.
Proof.
  induction a as [| c a IH]; rewrite includes_eq.
  - cbn [app].
    assert (E : stripPrefix n (n ++ r) = Some r)
      by now apply stripPrefix_Some.
    now rewrite E.
  - destruct (stripPrefix n ((c :: a) ++ n ++ r)); [reflexivity |].
    exact IH.
Qed.

Lemma split_no_first c p l :
  includesChar c l = false -> split (c :: p) 0 l = [l].
Proof.
  induction l as [| d l IH]; [reflexivity |].
  rewrite includesChar_cons. intros [E H].
  rewrite split_cons. cbn [stripPrefix]. rewrite E, (IH H). reflexivity.
Qed.

Lemma split_plain c p a r :
  includesChar c a = false ->
  split (c :: p) 0 (a ++ (c :: p) ++ r) = a :: split (c :: p) 0 r.
Proof.
  induction a as [| d a IH].
  - intros _. cbn [app]. rewrite split_cons.
    assert (E : stripPrefix (c :: p) (c :: p ++ r) = Some r)
      by now apply (stripPrefix_Some (c :: p)).
    rewrite E. cbn [List.length].
    replace (S (List.length p) - 1) with (List.length p) by lia.
    now rewrite split_skip.
  - rewrite includesChar_cons. intros [E H].
    cbn [app]. rewrite split_cons.
    cbn [stripPrefix]. rewrite E.
    change (a ++ c :: p ++ r) with (a ++ (c :: p) ++ r).
    now rewrite (IH H).
Qed.

Lemma plainName_chars s :
  plainName s ->
  trimL (chars s) = chars s
  /\ includesChar "#"%char (chars s) = false
  /\ includesChar "^"%char (chars s) = false.
Proof. intros (A & B & C). now rewrite <- trim_fix_chars. Qed.

Lemma includes_sharp_caret a h :
  includesChar "#"%char a = false ->
  includesChar "#"%char h = false ->
  includesChar "^"%char h = false ->
  includes (chars "#^") (a ++ "#"%char :: h) = false.
Proof.
  intros Ha Hh Hc. induction a as [| d a IH].
  - cbn [app]. rewrite includes_eq.
    destruct h as [| x h].
    + reflexivity.
    + apply includesChar_cons in Hc as [Ex Hc'].
      change (chars "#^") with ["#"%char; "^"%char].
      cbn [stripPrefix]. rewrite Ascii.eqb_refl, Ex.
      now apply includes_no_first.
  - apply includesChar_cons in Ha as [E Ha'].
    cbn [app]. rewrite includes_eq.
    change (chars "#^") with ["#"%char; "^"%char].
    cbn [stripPrefix]. rewrite E. now apply IH.
Qed.

Section RoundTrip.
Variables (q : ParsedQuery) (cfp : option string) (b h i : string).
Hypothesis (Pb : plainName b) (Nb : b <> "")
  (Ph : plainName h) (Pi : plainName i).

Lemma parse_file_heading_value :
  parseSuggestionQuery (b ++ "#" ++ h)
  = {| type := FileHeading; fileName := Some b; searchTerm := Some h;
       original := (b ++ "#" ++ h)%string |}.
Proof.
  destruct (plainName_chars _ Pb) as (Tb & Hb & Cb).
  destruct (plainName_chars _ Ph) as (Th & Hh & Ch).
  assert (T : trim (b ++ "#" ++ h) = (b ++ "#" ++ h)%string).
  { destruct Pb as (? & _), Ph as (? & _).
    apply trim_app; [assumption |]. now apply (trim_app "#"). }
  unfold parseSuggestionQuery. rewrite T, !chars_app.
  change (chars "#") with ["#"%char].
  assert (Ne : chars b <> []).
  { intros E. apply Nb. now rewrite <- (str_chars b), E. }
  destruct (chars b) as [| c b'] eqn:Eb; [congruence |].
  apply includesChar_cons in Hb as [E1 Hb'].
  apply includesChar_cons in Cb as [E2 Cb'].
  cbn [app]. change (chars "##") with ["#"%char; "#"%char].
  change (chars "#^") with ["#"%char; "^"%char].
  change (chars "^") with ["^"%char].
  rewrite !startsWith_cons, E1, E2. cbn [andb negb].
  change (c :: b' ++ "#"%char :: chars h)
    with ((c :: b') ++ "#"%char :: chars h).
  assert (Hcb : includesChar "#"%char (c :: b') = false)
    by now apply includesChar_cons.
  change ["#"%char; "^"%char] with (chars "#^").
  rewrite (includes_sharp_caret _ _ Hcb Hh Ch).
  change ((c :: b') ++ "#"%char :: chars h)
    with ((c :: b') ++ ["#"%char] ++ chars h).
  rewrite includes_app_sep.
  unfold splitPair. change (chars "#") with ["#"%char].
  rewrite (split_plain _ _ _ _ Hcb), (split_no_first _ _ _ Hh).
  cbn [nth_error option_map]. rewrite <- Eb, !str_chars. reflexivity.
Qed.

Lemma parse_file_block_value :
  parseSuggestionQuery (b ++ "#^" ++ i)
  = {| type := FileBlock; fileName := Some b; searchTerm := Some i;
       original := (b ++ "#^" ++ i)%string |}.
Proof.
  destruct (plainName_chars _ Pb) as (Tb & Hb & Cb).
  destruct (plainName_chars _ Pi) as (Ti & Hi & Ci).
  assert (T : trim (b ++ "#^" ++ i) = (b ++ "#^" ++ i)%string).
  { destruct Pb as (? & _), Pi as (? & _).
    apply trim_app; [assumption |]. now apply (trim_app "#^"). }
  unfold parseSuggestionQuery. rewrite T, !chars_app.
  assert (Ne : chars b <> []).
  { intros E. apply Nb. now rewrite <- (str_chars b), E. }
  destruct (chars b) as [| c b'] eqn:Eb; [congruence |].
  apply includesChar_cons in Hb as [E1 Hb'].
  apply includesChar_cons in Cb as [E2 Cb'].
  cbn [app]. change (chars "##") with ["#"%char; "#"%char].
  change (chars "#") with ["#"%char].
  change (chars "^") with ["^"%char].
  change (chars "#^") with ["#"%char; "^"%char].
  rewrite !startsWith_cons, E1, E2. cbn [andb negb].
  change (c :: b' ++ ["#"%char; "^"%char] ++ chars i)
    with ((c :: b') ++ ["#"%char; "^"%char] ++ chars i).
  rewrite includes_app_sep.
  assert (Hcb : includesChar "#"%char (c :: b') = false)
    by now apply includesChar_cons.
  unfold splitPair. change (chars "#^") with ["#"%char; "^"%char].
  rewrite (split_plain _ _ _ _ Hcb), (split_no_first _ _ _ Hi).
  cbn [nth_error option_map]. rewrite <- Eb, !str_chars. reflexivity.
Qed.

Lemma parse_current_heading_value :
  parseSuggestionQuery ("#" ++ h)
  = {| type := CurrentHeading; fileName := None; searchTerm := Some h;
       original := ("#" ++ h)%string |}.
Proof.
  destruct (plainName_chars _ Ph) as (Th & Hh & Ch).
  assert (T : trim ("#" ++ h) = ("#" ++ h)%string).
  { destruct Ph as (? & _). now apply (trim_app "#"). }
  unfold parseSuggestionQuery. rewrite T, chars_app.
  change (chars "#") with ["#"%char]. cbn [app].
  change (chars "##") with ["#"%char; "#"%char].
  change (chars "#^") with ["#"%char; "^"%char].
  rewrite !startsWith_cons, Ascii.eqb_refl. cbn [andb].
  destruct (chars h) as [| x h'] eqn:Eh.
  - cbn. rewrite <- (str_chars h), Eh. reflexivity.
  - apply includesChar_cons in Hh as [E1 _].
    apply includesChar_cons in Ch as [E2 _].
    rewrite !startsWith_cons, E1, E2. cbn [andb negb skipn].
    unfold startsWith at 1. cbn [stripPrefix].
    rewrite <- Eh, str_chars. reflexivity.
Qed.

Lemma parse_current_block_value :
  parseSuggestionQuery ("#^" ++ i)
  = {| type := CurrentBlock; fileName := None; searchTerm := Some i;
       original := ("#^" ++ i)%string |}.
Proof.
  assert (T : trim ("#^" ++ i) = ("#^" ++ i)%string).
  { destruct Pi as (? & _). now apply (trim_app "#^"). }
  unfold parseSuggestionQuery. rewrite T, chars_app.
  change (chars "#^") with ["#"%char; "^"%char]. cbn [app].
  change (chars "##") with ["#"%char; "#"%char].
  rewrite !startsWith_cons, Ascii.eqb_refl. cbn [andb].
  change (Ascii.eqb "#" "^") with false. cbn [andb skipn].
  unfold startsWith. cbn [stripPrefix]. now rewrite str_chars.
Qed.

Lemma parse_file_value :
  parseSuggestionQuery b
  = {| type := File; fileName := None; searchTerm := Some b;
       original := b |}.
Proof.
  destruct (plainName_chars _ Pb) as (Tb & Hb & Cb).
  assert (T : trim b = b) by apply Pb.
  unfold parseSuggestionQuery. rewrite T.
  assert (Ne : chars b <> []).
  { intros E. apply Nb. now rewrite <- (str_chars b), E. }
  destruct (chars b) as [| c b'] eqn:Eb; [congruence |].
  pose proof Hb as Hb0. pose proof Cb as Cb0.
  apply includesChar_cons in Hb as [E1 Hb'].
  apply includesChar_cons in Cb as [E2 Cb'].
  change (chars "##") with ["#"%char; "#"%char].
  change (chars "#") with ["#"%char].
  change (chars "^") with ["^"%char].
  change (chars "#^") with ["#"%char; "^"%char].
  rewrite !startsWith_cons, E1, E2. cbn [andb negb].
  rewrite !(includes_no_first _ _ _ Hb0), (includes_no_first _ _ _ Cb0).
  cbn [andb]. rewrite <- Eb, str_chars. reflexivity.
Qed.

End RoundTrip.

(** X5.  A generated link value parses back to the file name and anchor
    it was generated from.  For a target base name, heading text and
    block id that are their own trim and hold no [#] or [^] (the base
    name not empty), [parseSuggestionQuery (generateLinkValue ctx)] is
    the file-heading query of that file and heading for the types
    global-heading and file-heading, the file-block query of that file
    and block for the types file-block and file-block-no-hash, the
    current-heading and current-block queries for the current-file
    types, and the file query of the base name for the type file; in
    each case [original] is the generated value. *)
Theorem generate_then_parse (q : ParsedQuery) (cfp : option string)
  (b h i : string) :
  plainName b -> b <> "" -> plainName h -> plainName i ->
  parseSuggestionQuery
    (generateLinkValue
       {| query := q; currentFilePath := cfp; targetFileBasename := Some b;
          headingText := Some h; blockId := Some i |})
  = match type q with
    | GlobalHeading | FileHeading =>
        {| type := FileHeading; fileName := Some b; searchTerm := Some h;
           original := (b ++ "#" ++ h)%string |}
    | CurrentHeading =>
        {| type := CurrentHeading; fileName := None; searchTerm := Some h;
           original := ("#" ++ h)%string |}
    | CurrentBlock | Block =>
        {| type := CurrentBlock; fileName := None; searchTerm := Some i;
           original := ("#^" ++ i)%string |}
    | FileBlock | FileBlockNoHash =>
        {| type := FileBlock; fileName := Some b; searchTerm := Some i;
           original := (b ++ "#^" ++ i)%string |}
    | File =>
        {| type := File; fileName := None; searchTerm := Some b;
           original := b |}
    end.
Proof.
  intros Pb Nb Ph Pi.
  assert (Tb : truthy b = true) by (destruct b; [congruence | reflexivity]).
  unfold generateLinkValue.
  cbn [query targetFileBasename headingText blockId tpl truthyOpt].
  rewrite Tb.
  destruct (type q); cbn [QueryType_eqb negb orb].
  - now apply parse_file_heading_value.
  - now apply parse_current_block_value.
  - now apply parse_current_heading_value.
  - now apply parse_current_block_value.
  - now apply parse_file_block_value.
  - now apply parse_file_heading_value.
  - now apply parse_file_block_value.
  - now apply parse_file_value.
Qed.

End SuggestionQueryFacts.

(* ------------------------------------------------------------------ *)
(** ** Hidden link syntax *)

Section SyntaxHiderFacts.
Import JsString Scan SyntaxHider.

Example test_markdown_ranges :
  findMarkdownLinkSyntaxRanges "a [t](d) ![](e)" 100
  = [ {| from := 102; to := 103; side := Leading |};
      {| from := 104; to := 108; side := Trailing |};
      {| from := 109; to := 111; side := Leading |};
      {| from := 111; to := 115; side := Trailing |} ]%Z.
Proof. reflexivity. Qed.

Example test_wiki_ranges :
  findWikiLinkSyntaxRanges "x [[a|b]] ![[c]]" 10
  = [ {| from := 12; to := 16; side := Leading |};
      {| from := 17; to := 19; side := Trailing |};
      {| from := 20; to := 23; side := Leading |};
      {| from := 24; to := 26; side := Trailing |} ]%Z.
Proof. reflexivity. Qed.

Lemma substring_skipn l p a b :
  substring l (p + a) (p + b) = substring (skipn p l) a b.
Proof.
  unfold substring. rewrite skipn_skipn.
  replace (p + b - (p + a)) with (b - a) by lia.
  now rewrite (Nat.add_comm a p).
Qed.

Local Abbreviation mdVisible lineText lineFrom :=
  (fun s e =>
     forallb Utils.notCloseBracket (visibleText lineText lineFrom s e) = true).

Lemma markdown_pairs_of_scan lineText lineFrom p ms :
  ExecSeq Utils.mdLinkRe (chars lineText) p ms ->
  linkPairs (mdVisible lineText lineFrom)
    (lineFrom + Z.of_nat p)
    (lineFrom + Z.of_nat (String.length lineText))
    (flat_map (markdownRangesOfMatch lineFrom) ms).
Proof.
  induction 1 as [| lastIndex p a rest ms H1 H2 H3 H4 H5 H6 IH].
  - exact I.
  - cbn [flat_map]. unfold markdownRangesOfMatch at 1.
    cbn [f_caps f_start f_end].
    destruct a as [[bang t] d].
    apply mdLinkRe_shape in H4. destruct H4 as (E & Ht & Hd & Hd').
    set (m1 := (if bang then ["!"%char] else []) ++ ["["%char]) in *.
    assert (E' : skipn p (chars lineText)
                 = m1 ++ t ++ ["]"%char; "("%char] ++ d ++ [")"%char] ++ rest).
    { rewrite E. unfold m1. now rewrite <- !app_assoc. }
    assert (L : List.length (chars lineText) - p
                = List.length m1 + List.length t + 2 + List.length d + 1
                  + List.length rest).
    { rewrite <- length_skipn, E', !length_app. cbn [List.length]. lia. }
    assert (M1 : 1 <= List.length m1).
    { unfold m1. rewrite length_app. cbn. lia. }
    rewrite length_chars in *.
    set (n := String.length lineText) in *.
    assert (C1 : ((lineFrom + Z.of_nat p
                   <? lineFrom + Z.of_nat p + Z.of_nat (List.length m1))
                  = true)%Z) by (apply Z.ltb_lt; lia).
    assert (C2 : ((lineFrom + Z.of_nat p + Z.of_nat (List.length m1)
                   + Z.of_nat (List.length t)
                   <? lineFrom + Z.of_nat p
                      + Z.of_nat (n - List.length rest - p))
                  = true)%Z) by (apply Z.ltb_lt; lia).
    rewrite C1, C2. cbn [app linkPairs from to side].
    repeat split; try lia.
    + unfold visibleText.
      replace (Z.to_nat (lineFrom + Z.of_nat p + Z.of_nat (List.length m1)
                         - lineFrom))
        with (p + List.length m1) by lia.
      replace (Z.to_nat (lineFrom + Z.of_nat p + Z.of_nat (List.length m1)
                         + Z.of_nat (List.length t) - lineFrom))
        with (p + (List.length m1 + List.length t)) by lia.
      rewrite substring_skipn, E'. unfold substring.
      rewrite skipn_app, skipn_all, Nat.sub_diag. cbn [app skipn].
      replace (List.length m1 + List.length t - List.length m1)
        with (List.length t) by lia.
      now rewrite firstn_length_app.
    + replace (lineFrom + Z.of_nat p + Z.of_nat (n - List.length rest - p))%Z
        with (lineFrom + Z.of_nat (n - List.length rest))%Z by lia.
      exact IH.
Qed.

(** X6.  The ranges hidden for the markdown links of a line come as one
    leading and one trailing range per link, in the order of the line:
    each range is non-empty, starts at or after the end of the one
    before, all lie between the start and the end of the line, and the
    text left visible between the two ranges of a link holds no
    closing bracket. *)
Theorem markdown_ranges_pairs (lineText : string) (lineFrom : Z) :
  linkPairs (mdVisible lineText lineFrom)
    lineFrom (lineFrom + Z.of_nat (String.length lineText))
    (findMarkdownLinkSyntaxRanges lineText lineFrom).
Proof.
  unfold findMarkdownLinkSyntaxRanges.
  pose proof (markdown_pairs_of_scan lineText lineFrom 0
                (execAll Utils.mdLinkRe (chars lineText))
                (execAll_ExecSeq _ _ mdLinkRe_consumes)) as H.
  now rewrite Z.add_0_r in H.
Qed.

(** *** [indexOf] and [lastIndexOf] *)

Lemma indexOfAt_Some n l pos i :
  indexOfAt n l pos = Some i ->
  exists k, i = pos + k
    /\ (exists r, skipn k l = n ++ r)
    /\ forall j, j < k -> stripPrefix n (skipn j l) = None.
Proof.
  revert pos. induction l as [| c l IH]; intros pos; cbn [indexOfAt].
  - destruct (stripPrefix n []) as [r |] eqn:E; [| discriminate].
    intros [= <-]. exists 0. rewrite Nat.add_0_r. repeat split.
    + exists r. now apply stripPrefix_Some.
    + intros j Hj. lia.
  - destruct (stripPrefix n (c :: l)) as [r |] eqn:E.
    + intros [= <-]. exists 0. rewrite Nat.add_0_r. repeat split.
      * exists r. now apply stripPrefix_Some.
      * intros j Hj. lia.
    + intros H. destruct (IH _ H) as (k & -> & Hr & Hj).
      exists (S k). repeat split; [lia | exact Hr |].
      intros [| j] Hlt; [exact E | apply Hj; lia].
Qed.

Lemma indexOf_Some n l from i :
  n <> [] ->
  indexOf n l from = Some i ->
  from <= i /\ i + List.length n <= List.length l
  /\ (exists r, skipn i l = n ++ r)
  /\ forall j, from <= j -> j < i -> stripPrefix n (skipn j l) = None.
Proof.
  intros Hn H. unfold indexOf in H.
  destruct (indexOfAt_Some _ _ _ _ H) as (k & -> & (r & Hr) & Hj).
  rewrite skipn_skipn in Hr. rewrite (Nat.add_comm k from) in Hr.
  repeat split.
  - lia.
  - pose proof (length_skipn (from + k) l) as L.
    rewrite Hr, length_app in L.
    destruct n; [congruence |]. cbn [List.length] in *. lia.
  - now exists r.
  - intros j H1 H2.
    replace j with ((j - from) + from) by lia.
    rewrite <- skipn_skipn. apply Hj. lia.
Qed.

Lemma lastIndexOfAt_None c l pos :
  lastIndexOfAt c l pos = None -> includesChar c l = false.
Proof.
  revert pos. induction l as [| x l IH]; intros pos; [reflexivity |].
  cbn [lastIndexOfAt].
  destruct (lastIndexOfAt c l (S pos)) eqn:E; [discriminate |].
  destruct (Ascii.eqb c x) eqn:Ex; [discriminate |]. intros _.
  apply includesChar_cons. split; [exact Ex | now apply (IH (S pos))].
Qed.

Lemma lastIndexOfAt_Some c l pos i :
  lastIndexOfAt c l pos = Some i ->
  exists k, i = pos + k /\ k < List.length l
    /\ includesChar c (skipn (S k) l) = false.
Proof.
  revert pos. induction l as [| x l IH]; intros pos; [discriminate |].
  cbn [lastIndexOfAt].
  destruct (lastIndexOfAt c l (S pos)) as [i' |] eqn:E.
  - intros [= <-]. destruct (IH _ E) as (k & -> & Hk & Hs).
    exists (S k). cbn [List.length]. repeat split; [lia | lia | exact Hs].
  - destruct (Ascii.eqb c x); [| discriminate]. intros [= <-].
    exists 0. cbn [List.length skipn]. repeat split; [lia | lia |].
    now apply (lastIndexOfAt_None _ _ (S pos)).
Qed.

(** An occurrence inside a prefix of a text is an occurrence in the
    text. *)
Lemma includes_firstn n k x :
  n <> [] ->
  includes n (firstn k x) = true ->
  exists j, j < k /\ stripPrefix n (skipn j x) <> None.
Proof.
  intros Hn. revert k. induction x as [| c x IH]; intros k H.
  - rewrite firstn_nil in H. destruct n; [congruence | discriminate].
  - destruct k as [| k].
    + cbn [firstn] in H. destruct n; [congruence | discriminate].
    + cbn [firstn] in H. rewrite includes_eq in H.
      destruct (stripPrefix n (c :: firstn k x)) as [r |] eqn:E.
      * exists 0. split; [lia |]. cbn [skipn].
        change (c :: firstn k x) with (firstn (S k) (c :: x)) in E.
        rewrite <- (firstn_skipn (S k) (c :: x)).
        now rewrite (stripPrefix_app _ _ (skipn (S k) (c :: x)) _ E).
      * destruct (IH _ H) as (j & Hj & Hs).
        exists (S j). split; [lia | exact Hs].
Qed.

(** *** The wiki loop *)

Local Abbreviation wikiVisible lineText lineFrom :=
  (fun s e =>
     includesChar "|"%char (visibleText lineText lineFrom s e) = false
     /\ includes (chars "]]") (visibleText lineText lineFrom s e) = false).

Lemma substring_no_close l o2 ts c :
  o2 <= ts ->
  (forall j, o2 <= j -> j < c ->
     stripPrefix (chars "]]") (skipn j l) = None) ->
  includes (chars "]]") (substring l ts c) = false.
Proof.
  intros Ho Hmin. unfold substring.
  destruct (includes (chars "]]") (firstn (c - ts) (skipn ts l))) eqn:E;
    [| reflexivity].
  apply includes_firstn in E as (j & Hj & Hs); [| discriminate].
  rewrite skipn_skipn in Hs. exfalso. apply Hs, Hmin; lia.
Qed.

Lemma substring_after_pipe l a c k :
  includesChar "|"%char (skipn (S k) (substring l a c)) = false ->
  includesChar "|"%char (substring l (a + k + 1) c) = false.
Proof.
  unfold substring. rewrite skipn_firstn_comm, skipn_skipn.
  replace (S k + a) with (a + k + 1) by lia.
  replace (c - a - S k) with (c - (a + k + 1)) by lia.
  auto.
Qed.

Lemma wikiLoop_pairs lineText lineFrom fuel :
  forall searchIdx,
    (searchIdx = 0
     \/ nth_error (chars lineText) (searchIdx - 1) = Some "]"%char) ->
    linkPairs (wikiVisible lineText lineFrom)
      (lineFrom + Z.of_nat searchIdx)
      (lineFrom + Z.of_nat (String.length lineText))
      (wikiLoop fuel (chars lineText) lineFrom searchIdx).
Proof.
  rewrite <- (length_chars lineText).
  set (l := chars lineText).
  induction fuel as [| fuel IH]; intros searchIdx Inv; cbn [wikiLoop];
    [exact I |].
  destruct (searchIdx <? List.length l); [| exact I].
  destruct (indexOf (chars "[[") l searchIdx) as [o |] eqn:EO; [| exact I].
  destruct (indexOf (chars "]]") l (o + 2)) as [c |] eqn:EC; [| exact I].
  apply indexOf_Some in EO as (O1 & O2 & _ & _); [| discriminate].
  apply indexOf_Some in EC as (C1 & C2 & (r & C3) & C4); [| discriminate].
  cbn [List.length chars list_ascii_of_string] in O2, C2.
  set (hasEmbed := (0 <? o)
                   && match nth_error l (o - 1) with
                      | Some x => Ascii.eqb x "!"%char
                      | None => false
                      end).
  assert (RS : searchIdx <= (if hasEmbed then o - 1 else o) < o + 2).
  { destruct hasEmbed eqn:EH; [| lia].
    unfold hasEmbed in EH. apply andb_true_iff in EH as [E1 E2].
    apply Nat.ltb_lt in E1.
    destruct (Nat.eq_dec o searchIdx) as [-> | Hne]; [| lia].
    destruct Inv as [-> | Inv]; [lia |].
    rewrite Inv in E2. discriminate. }
  assert (Inv' : c + 2 = 0
                 \/ nth_error l (c + 2 - 1) = Some "]"%char).
  { right. replace (c + 2 - 1) with (c + 1) by lia.
    rewrite <- nth_error_skipn, C3. reflexivity. }
  specialize (IH (c + 2) Inv').
  replace (lineFrom + Z.of_nat (c + 2))%Z
    with (lineFrom + Z.of_nat c + 2)%Z in IH by lia.
  assert (V0 : forall ts, o + 2 <= ts -> ts <= c ->
            includes (chars "]]")
              (visibleText lineText lineFrom
                 (lineFrom + Z.of_nat ts) (lineFrom + Z.of_nat c)) = false).
  { intros ts T1 T2. unfold visibleText. fold l.
    replace (Z.to_nat (lineFrom + Z.of_nat ts - lineFrom)) with ts by lia.
    replace (Z.to_nat (lineFrom + Z.of_nat c - lineFrom)) with c by lia.
    now apply (substring_no_close l (o + 2)). }
  destruct (lastIndexOf "|"%char (substring l (o + 2) c)) as [pipe |] eqn:EP.
  - apply lastIndexOfAt_Some in EP as (k & -> & K1 & K2).
    cbn [Nat.add] in *.
    assert (K3 : k < c - (o + 2)).
    { unfold substring in K1. rewrite length_firstn in K1. lia. }
    cbn [app linkPairs from to side].
    repeat split; try lia; try exact IH.
    + unfold visibleText. fold l.
      replace (Z.to_nat (lineFrom + Z.of_nat (o + 2) + Z.of_nat k + 1
                         - lineFrom)) with (o + 2 + k + 1) by lia.
      replace (Z.to_nat (lineFrom + Z.of_nat c - lineFrom)) with c by lia.
      now apply substring_after_pipe.
    + replace (lineFrom + Z.of_nat (o + 2) + Z.of_nat k + 1)%Z
        with (lineFrom + Z.of_nat (o + 2 + k + 1))%Z by lia.
      apply V0; lia.
  - apply lastIndexOfAt_None in EP.
    cbn [app linkPairs from to side].
    repeat split; try lia; try exact IH.
    + unfold visibleText. fold l.
      replace (Z.to_nat (lineFrom + Z.of_nat (o + 2) - lineFrom))
        with (o + 2) by lia.
      replace (Z.to_nat (lineFrom + Z.of_nat c - lineFrom)) with c by lia.
      exact EP.
    + apply V0; lia.
Qed.

(** The loop never runs out of turns: its result is the same for every
    count that covers what is left of the line. *)
Lemma wikiLoop_fuel l lineFrom f1 :
  forall f2 searchIdx,
    List.length l - searchIdx <= f1 -> List.length l - searchIdx <= f2 ->
    wikiLoop f1 l lineFrom searchIdx = wikiLoop f2 l lineFrom searchIdx.
Proof.
  induction f1 as [| f1 IH]; intros f2 searchIdx H1 H2.
  - destruct f2; [reflexivity |]. cbn [wikiLoop].
    assert (E : (searchIdx <? List.length l) = false)
      by (apply Nat.ltb_ge; lia).
    now rewrite E.
  - destruct f2 as [| f2]; cbn [wikiLoop].
    + assert (E : (searchIdx <? List.length l) = false)
        by (apply Nat.ltb_ge; lia).
      now rewrite E.
    + destruct (searchIdx <? List.length l); [| reflexivity].
      destruct (indexOf (chars "[[") l searchIdx) as [o |] eqn:EO;
        [| reflexivity].
      destruct (indexOf (chars "]]") l (o + 2)) as [c |] eqn:EC;
        [| reflexivity].
      apply indexOf_Some in EO as (O1 & _); [| discriminate].
      apply indexOf_Some in EC as (C1 & _); [| discriminate].
      f_equal. apply IH; lia.
Qed.

(** X7.  The ranges hidden for the wiki links of a line come as one
    leading and one trailing range per link, in the order of the line:
    each range is non-empty, starts at or after the end of the one
    before (an embed marker never reaches back into the link before),
    all lie between the start and the end of the line, and the text
    left visible between the two ranges of a link holds neither a pipe
    nor a closing pair of brackets.  The loop that finds them ends
    within as many turns as the line has characters. *)
Theorem wiki_ranges_pairs (lineText : string) (lineFrom : Z) :
  linkPairs (wikiVisible lineText lineFrom)
    lineFrom (lineFrom + Z.of_nat (String.length lineText))
    (findWikiLinkSyntaxRanges lineText lineFrom)
  /\ forall fuel, String.length lineText <= fuel ->
       wikiLoop fuel (chars lineText) lineFrom 0
       = findWikiLinkSyntaxRanges lineText lineFrom.
Proof.
  split.
  - pose proof (wikiLoop_pairs lineText lineFrom (String.length lineText)
                  0 (or_introl eq_refl)) as H.
    now rewrite Z.add_0_r in H.
  - intros fuel Hf. unfold findWikiLinkSyntaxRanges.
    apply wikiLoop_fuel; rewrite length_chars; lia.
Qed.

(** *** Cursor correction *)

Lemma correctCursorPos_None pos oldPos hidden docLength :
  correctCursorPos pos oldPos hidden docLength = None
  <-> forall h, In h hidden -> inside h pos = false.
Proof.
  induction hidden as [| h rest IH]; cbn [correctCursorPos].
  - split; [intros _ h [] | reflexivity].
  - destruct (inside h pos) eqn:E; cbn [negb].
    + split.
      * destruct (side h); discriminate.
      * intros H. specialize (H h (or_introl eq_refl)). congruence.
    + rewrite IH. split.
      * intros H x [<- | Hx]; [exact E | now apply H].
      * intros H x Hx. apply H. now right.
Qed.

Lemma correctCursorPos_Some pos oldPos hidden docLength p :
  correctCursorPos pos oldPos hidden docLength = Some p ->
  exists h, In h hidden /\ inside h pos = true
    /\ p = match side h with
           | Leading =>
               if (oldPos <=? pos)%Z then to h else Z.max 0 (from h - 1)
           | Trailing =>
               if (oldPos <=? pos)%Z then Z.min docLength (to h + 1)
               else from h
           end.
Proof.
  induction hidden as [| h rest IH]; cbn [correctCursorPos]; [discriminate |].
  destruct (inside h pos) eqn:E; cbn [negb].
  - intros H. exists h. split; [now left |]. split; [exact E |].
    destruct (side h); congruence.
  - intros H. destruct (IH H) as (x & Hx & Hi & Hp).
    exists x. split; [now right | now split].
Qed.

(** X8.  A corrected cursor position stays in the document and never
    goes against the movement: for hidden ranges that lie in the
    document, the corrected position is between 0 and the document
    length, at or after the cursor when the cursor moved right or stood
    still, and at or before it when the cursor moved left.  It has left
    the hidden range that held the cursor, except at the two ends of
    the document: a leading range that starts at offset 0, entered
    moving left, and a trailing range that ends at the document length,
    entered moving right, keep the cursor inside. *)
Theorem correctCursorPos_leaves_range pos oldPos hidden docLength p :
  (forall h, In h hidden -> rangeInDoc docLength h) ->
  correctCursorPos pos oldPos hidden docLength = Some p ->
  (0 <= p <= docLength)%Z
  /\ ((oldPos <= pos)%Z -> (pos <= p)%Z)
  /\ ((pos < oldPos)%Z -> (p <= pos)%Z)
  /\ exists h, In h hidden /\ inside h pos = true
       /\ (inside h p = true ->
           (side h = Leading /\ from h = 0%Z /\ p = 0%Z
            /\ (pos < oldPos)%Z)
           \/ (side h = Trailing /\ to h = docLength /\ p = docLength
               /\ (oldPos <= pos)%Z)).
Proof.
  intros Hdoc H.
  destruct (correctCursorPos_Some _ _ _ _ _ H) as (h & Hin & Hi & Hp).
  destruct (Hdoc h Hin) as (D1 & D2 & D3).
  unfold inside in *.
  destruct (side h) eqn:Es;
    apply andb_true_iff in Hi as [I1 I2];
    destruct (oldPos <=? pos)%Z eqn:Em;
    try apply Z.leb_le in Em; try apply Z.leb_gt in Em;
    try apply Z.leb_le in I1; try apply Z.ltb_lt in I1;
    try apply Z.leb_le in I2; try apply Z.ltb_lt in I2;
    (split; [lia |]); (split; [lia |]); (split; [lia |]);
    exists h; (split; [exact Hin |]); rewrite Es;
    (split; [apply andb_true_iff; split;
             first [apply Z.leb_le | apply Z.ltb_lt]; lia |]);
    rewrite andb_true_iff, ?Z.leb_le, ?Z.ltb_lt; intros [J1 J2].
  - lia.
  - left. repeat split; lia.
  - right. repeat split; lia.
  - lia.
Qed.

Lemma dominated_point p hidden :
  dominated [(p, p)] hidden = true
  <-> exists h, In h hidden /\ (from h < p < to h)%Z.
Proof.
  unfold dominated. cbn [existsb fst snd]. rewrite orb_false_r.
  rewrite existsb_exists. split.
  - intros (h & Hin & Hb). apply andb_true_iff in Hb as [B1 B2].
    apply Z.ltb_lt in B1, B2. exists h. split; [exact Hin | lia].
  - intros (h & Hin & Hb). exists h. split; [exact Hin |].
    apply andb_true_iff. split; apply Z.ltb_lt; lia.
Qed.

(** X9.  Typing is never rejected where the cursor may rest: at a
    position that [correctCursorPos] leaves alone, the filter keeps an
    insertion at that position, whatever the hidden ranges are; and an
    insertion strictly inside a hidden range is always rejected. *)
Theorem rest_position_accepts_typing pos oldPos hidden docLength :
  (correctCursorPos pos oldPos hidden docLength = None ->
   protectSyntaxFilter true true (Some hidden) [(pos, pos)] = true)
  /\ (forall h p, In h hidden -> (from h < p < to h)%Z ->
        protectSyntaxFilter true true (Some hidden) [(p, p)] = false).
Proof.
  split.
  - intros H. rewrite correctCursorPos_None in H.
    unfold protectSyntaxFilter. cbn [negb].
    destruct hidden as [| h0 rest]; [reflexivity |].
    destruct (dominated [(pos, pos)] (h0 :: rest)) eqn:E; [| reflexivity].
    apply dominated_point in E as (h & Hin & Hb).
    specialize (H h Hin). unfold inside in H.
    destruct (side h); apply andb_false_iff in H as [H | H];
      first [apply Z.leb_gt in H | apply Z.ltb_ge in H]; lia.
  - intros h p Hin Hb. unfold protectSyntaxFilter. cbn [negb].
    destruct hidden as [| h0 rest]; [destruct Hin |].
    assert (E : dominated [(p, p)] (h0 :: rest) = true)
      by (apply dominated_point; now exists h).
    now rewrite E.
Qed.

(** *** The marked destinations *)

Lemma destMark_in_leading l lineFrom fuel :
  forall searchIdx r,
    In r (destMarkLoop fuel l lineFrom searchIdx) ->
    exists h,
      In h (wikiLoop fuel l lineFrom searchIdx)
      /\ side h = Leading
      /\ markTo r = to h
      /\ (markFrom r = from h + 2 \/ markFrom r = from h + 3)%Z
      /\ (markFrom r < markTo r)%Z.
Proof.
  induction fuel as [| fuel IH]; intros searchIdx r H; [destruct H |].
  cbn [destMarkLoop wikiLoop] in H |- *.
  destruct (searchIdx <? List.length l); [| destruct H].
  destruct (indexOf (chars "[[") l searchIdx) as [o |] eqn:EO;
    [| destruct H].
  destruct (indexOf (chars "]]") l (o + 2)) as [c |] eqn:EC; [| destruct H].
  apply in_app_or in H as [H | H].
  - destruct (lastIndexOf "|"%char (substring l (o + 2) c)) as [pipe |];
      [| destruct H].
    match type of H with
    | In _ (if ?b then _ else _) => destruct b eqn:Eb; [| destruct H]
    end.
    destruct H as [<- | []]. apply Z.ltb_lt in Eb.
    eexists. split; [left; reflexivity |].
    cbn [side to from markFrom markTo].
    split; [reflexivity |]. split; [reflexivity |]. split; [| exact Eb].
    apply indexOf_Some in EO as (_ & _ & _ & _); [| discriminate].
    destruct ((0 <? o)
              && match nth_error l (o - 1) with
                 | Some x => Ascii.eqb x "!"%char
                 | None => false
                 end) eqn:EH.
    + right. apply andb_true_iff in EH as [E1 _].
      apply Nat.ltb_lt in E1. lia.
    + left. lia.
  - destruct (IH _ _ H) as (h & Hin & Hh).
    exists h. split; [| exact Hh].
    apply in_or_app. right. exact Hin.
Qed.

(** X21.  Every destination marked in a line lies in hidden text: a
    range of [findWikiDestMarkRanges] is not empty, ends where a leading
    hidden range of [findWikiLinkSyntaxRanges] ends, and starts two
    offsets after that range starts, or three when the link has an
    embed marker; so the marked text is the leading hidden range without
    its opening brackets. *)
Theorem dest_marks_in_hidden (lineText : string) (lineFrom : Z)
  (r : MarkRange) :
  In r (findWikiDestMarkRanges lineText lineFrom) ->
  exists h,
    In h (findWikiLinkSyntaxRanges lineText lineFrom)
    /\ side h = Leading
    /\ markTo r = to h
    /\ (markFrom r = from h + 2 \/ markFrom r = from h + 3)%Z
    /\ (markFrom r < markTo r)%Z.
Proof. apply destMark_in_leading. Qed.

(** *** The passes of the cursor corrector *)

Local Abbreviation inBounds lo hi :=
  (fun h => (lo <= from h < to h)%Z /\ (to h <= hi)%Z
            /\ (side h = Trailing -> (lo < from h)%Z)).

Lemma linkPairs_bounds_n vis hi n :
  forall rs lo, List.length rs <= n ->
    linkPairs vis lo hi rs -> Forall (inBounds lo hi) rs.
Proof.
  induction n as [| n IH]; intros rs lo Hn H.
  - destruct rs; [constructor | cbn in Hn; lia].
  - destruct rs as [| a [| b rest]]; [constructor | destruct H |].
    cbn [linkPairs] in H.
    destruct H as (Sa & Sb & Ha & Hab & Hb & _ & Hrest).
    assert (IHr : Forall (inBounds (to b) hi) rest)
      by (apply IH; [cbn in Hn; lia | exact Hrest]).
    constructor; [| constructor].
    + repeat split; try lia. intros E. congruence.
    + repeat split; lia.
    + eapply Forall_impl; [| exact IHr].
      intros h (B1 & B2 & B3). repeat split; lia.
Qed.

Lemma linkPairs_ordered_n vis hi n :
  forall rs lo, List.length rs <= n ->
    linkPairs vis lo hi rs -> ForallOrdPairs rangeBefore rs.
Proof.
  induction n as [| n IH]; intros rs lo Hn H.
  - destruct rs; [constructor | cbn in Hn; lia].
  - destruct rs as [| a [| b rest]]; [constructor | destruct H |].
    pose proof H as H0. cbn [linkPairs] in H.
    destruct H as (Sa & Sb & Ha & Hab & Hb & _ & Hrest).
    assert (Br : Forall (inBounds (to b) hi) rest)
      by (apply (linkPairs_bounds_n vis hi (List.length rest));
          [lia | exact Hrest]).
    assert (IHr : ForallOrdPairs rangeBefore rest)
      by (apply (IH rest (to b)); [cbn in Hn; lia | exact Hrest]).
    constructor; [| constructor; [| exact IHr]].
    + constructor.
      * split; [lia | congruence].
      * eapply Forall_impl; [| exact Br].
        intros h (B1 & B2 & B3). split; [lia | intros _; lia].
    + eapply Forall_impl; [| exact Br].
      intros h (B1 & B2 & B3). split; [lia |].
      intros E. rewrite Sb in E. symmetry in E. specialize (B3 E). lia.
Qed.

(** Two ranges of a list of link pairs are the same range, or one lies
    before the other. *)
Lemma ordered_trichotomy rs x y :
  ForallOrdPairs rangeBefore rs -> In x rs -> In y rs ->
  x = y \/ rangeBefore x y \/ rangeBefore y x.
Proof.
  intros H Hx Hy.
  destruct (ForallOrdPairs_In H x y Hx Hy) as [E | [R | R]]; auto.
Qed.

Lemma inside_true h p :
  inside h p = true <->
  match side h with
  | Leading => (from h <= p < to h)%Z
  | Trailing => (from h < p <= to h)%Z
  end.
Proof.
  unfold inside. destruct (side h);
    rewrite andb_true_iff, ?Z.leb_le, ?Z.ltb_lt; tauto.
Qed.

Section Passes.
Variables (lo hi docLen : Z) (rs : list HiddenRange).
Hypothesis Hlo : (0 <= lo)%Z.
Hypothesis Hhi : (hi <= docLen)%Z.
Hypothesis Hord : ForallOrdPairs rangeBefore rs.
Hypothesis Hbnd : Forall (inBounds lo hi) rs.

Lemma bounds_of h : In h rs -> inBounds lo hi h.
Proof. intros H. rewrite Forall_forall in Hbnd. now apply Hbnd. Qed.

Ltac compare_ranges h y Hh Hy :=
  let B := fresh "B" in
  let C := fresh "C" in
  pose proof (bounds_of h Hh) as B;
  pose proof (bounds_of y Hy) as C;
  cbv beta in B, C;
  destruct (ordered_trichotomy rs h y Hord Hh Hy)
    as [? | [[? ?] | [? ?]]].

Ltac range_arith :=
  repeat match goal with
    | H : inside _ _ = true |- _ => apply inside_true in H
    | E : side ?h = _, H : context [match side ?h with _ => _ end] |- _ =>
        rewrite E in H
    | E : side ?h = _, H : side ?h = ?s -> _ |- _ => rewrite E in H
    | E : side ?h = _, H : ?s = side ?h -> _ |- _ => rewrite E in H
    | H : ?a = ?a -> _ |- _ => specialize (H eq_refl)
    | H : _ /\ _ |- _ => destruct H
    end;
  subst; try congruence; try lia.

(** After a correction out of a leading range moving right, and out of a
    trailing range moving left, the cursor rests. *)
Lemma rests_after_leading h y :
  In h rs -> side h = Leading -> In y rs -> inside y (to h) = false.
Proof.
  intros Hh Sh Hy. destruct (inside y (to h)) eqn:E; [| reflexivity].
  exfalso. destruct (side y) eqn:Sy; compare_ranges h y Hh Hy; range_arith.
Qed.

Lemma rests_after_trailing h y :
  In h rs -> side h = Trailing -> In y rs -> inside y (from h) = false.
Proof.
  intros Hh Sh Hy. destruct (inside y (from h)) eqn:E; [| reflexivity].
  exfalso. destruct (side y) eqn:Sy; compare_ranges h y Hh Hy; range_arith.
Qed.

(** One offset past a trailing range, only a leading range can hold the
    cursor; one offset before a leading range, only a trailing one. *)
Lemma past_trailing h g :
  In h rs -> side h = Trailing -> In g rs ->
  inside g (to h + 1) = true -> side g = Leading.
Proof.
  intros Hh Sh Hg E. destruct (side g) eqn:Sg; [reflexivity |].
  exfalso. compare_ranges h g Hh Hg; range_arith.
Qed.

Lemma before_leading h g :
  In h rs -> side h = Leading -> In g rs ->
  inside g (from h - 1) = true -> side g = Trailing.
Proof.
  intros Hh Sh Hg E. destruct (side g) eqn:Sg; [| reflexivity].
  exfalso. compare_ranges h g Hh Hg; range_arith.
Qed.

Lemma stays_at_start oldPos q :
  (0 < oldPos)%Z ->
  correctCursorPos 0 oldPos rs docLen = Some q -> q = 0%Z.
Proof.
  intros Ho H.
  apply correctCursorPos_Some in H as (g & Hg & Ig & ->).
  pose proof (bounds_of g Hg) as B. cbv beta in B.
  assert (M : (oldPos <=? 0)%Z = false) by (apply Z.leb_gt; lia).
  rewrite M. destruct (side g) eqn:Sg; range_arith.
Qed.

Lemma stays_at_end oldPos q :
  (oldPos <= docLen)%Z ->
  correctCursorPos docLen oldPos rs docLen = Some q -> q = docLen.
Proof.
  intros Ho H.
  apply correctCursorPos_Some in H as (g & Hg & Ig & ->).
  pose proof (bounds_of g Hg) as B. cbv beta in B.
  assert (M : (oldPos <=? docLen)%Z = true) by (apply Z.leb_le; lia).
  rewrite M. destruct (side g) eqn:Sg; range_arith.
Qed.

Lemma passes_rest head oldHead :
  let final := fst (correctHead 3 head oldHead rs docLen) in
  correctCursorPos final oldHead rs docLen = None
  \/ (final = 0%Z /\ (head < oldHead)%Z)
  \/ (final = docLen /\ (oldHead <= head)%Z).
Proof.
  cbv zeta. cbn [correctHead].
  destruct (correctCursorPos head oldHead rs docLen) as [q1 |] eqn:E1;
    [| left; exact E1].
  cbn [fst].
  apply correctCursorPos_Some in E1 as (h1 & Hin1 & I1 & ->).
  pose proof (bounds_of h1 Hin1) as B1. cbv beta in B1.
  assert (Rl : forall h, In h rs -> side h = Leading ->
            correctCursorPos (to h) oldHead rs docLen = None).
  { intros h Hh Sh. apply correctCursorPos_None. intros y Hy.
    now apply rests_after_leading. }
  assert (Rt : forall h, In h rs -> side h = Trailing ->
            correctCursorPos (from h) oldHead rs docLen = None).
  { intros h Hh Sh. apply correctCursorPos_None. intros y Hy.
    now apply rests_after_trailing. }
  destruct (side h1) eqn:S1; destruct (oldHead <=? head)%Z eqn:M;
    try apply Z.leb_le in M; try apply Z.leb_gt in M.
  - (* out of a leading range, moving right *)
    rewrite (Rl h1 Hin1 S1). left. now apply Rl.
  - (* out of a leading range, moving left *)
    apply inside_true in I1. rewrite S1 in I1.
    destruct (Z.eq_dec (from h1) 0) as [E0 | E0].
    + rewrite E0. change (Z.max 0 (0 - 1)) with 0%Z.
      assert (Ho : (0 < oldHead)%Z) by lia.
      destruct (correctCursorPos 0 oldHead rs docLen) as [q2 |] eqn:E2;
        [| now left].
      pose proof (stays_at_start _ _ Ho E2) as ->.
      cbn [fst]. rewrite E2. cbn [fst].
      right. left. split; [reflexivity | lia].
    + replace (Z.max 0 (from h1 - 1)) with (from h1 - 1)%Z by lia.
      destruct (correctCursorPos (from h1 - 1) oldHead rs docLen)
        as [q2 |] eqn:E2; [| now left].
      apply correctCursorPos_Some in E2 as (g & Hg & Ig & ->).
      rewrite (before_leading h1 g Hin1 S1 Hg Ig).
      assert (M2 : (oldHead <=? from h1 - 1)%Z = false)
        by (apply Z.leb_gt; lia).
      rewrite M2. cbn [fst].
      rewrite (Rt g Hg (before_leading h1 g Hin1 S1 Hg Ig)).
      left. apply Rt; [exact Hg | now apply (before_leading h1)].
  - (* out of a trailing range, moving right *)
    apply inside_true in I1. rewrite S1 in I1.
    destruct (Z_le_gt_dec (to h1 + 1) docLen) as [Le | Gt].
    + replace (Z.min docLen (to h1 + 1)) with (to h1 + 1)%Z by lia.
      destruct (correctCursorPos (to h1 + 1) oldHead rs docLen)
        as [q2 |] eqn:E2; [| now left].
      apply correctCursorPos_Some in E2 as (g & Hg & Ig & ->).
      rewrite (past_trailing h1 g Hin1 S1 Hg Ig).
      assert (M2 : (oldHead <=? to h1 + 1)%Z = true)
        by (apply Z.leb_le; lia).
      rewrite M2. cbn [fst].
      rewrite (Rl g Hg (past_trailing h1 g Hin1 S1 Hg Ig)).
      left. apply Rl; [exact Hg | now apply (past_trailing h1)].
    + replace (Z.min docLen (to h1 + 1)) with docLen by lia.
      assert (Ho : (oldHead <= docLen)%Z) by lia.
      destruct (correctCursorPos docLen oldHead rs docLen)
        as [q2 |] eqn:E2; [| now left].
      pose proof (stays_at_end _ _ Ho E2) as E.
      rewrite E in *. cbn [fst]. rewrite E2. cbn [fst].
      right. right. split; [reflexivity | lia].
  - (* out of a trailing range, moving left *)
    rewrite (Rt h1 Hin1 S1). left. now apply Rt.
Qed.

End Passes.

(** X23.  Three passes are enough for the cursor corrector.  For the
    hidden ranges of the links of a line (one leading and one trailing
    range per link, in order, within the document), the head that the
    passes of [cursorCorrector] end on needs no further correction,
    except at the two ends of the document: a head moved left into a
    leading range that starts at offset 0 stays at 0, and a head moved
    right into a trailing range that ends at the document length stays
    at that length. *)
Theorem corrector_passes_suffice (visible : Z -> Z -> Prop)
  (lo hi docLen : Z) (hidden : list HiddenRange) (head oldHead : Z) :
  linkPairs visible lo hi hidden ->
  (0 <= lo)%Z -> (hi <= docLen)%Z ->
  let final := fst (correctHead 3 head oldHead hidden docLen) in
  correctCursorPos final oldHead hidden docLen = None
  \/ (final = 0%Z /\ (head < oldHead)%Z)
  \/ (final = docLen /\ (oldHead <= head)%Z).
Proof.
  intros H Hlo Hhi.
  apply (passes_rest lo hi docLen hidden Hlo Hhi).
  - now apply (linkPairs_ordered_n visible hi (List.length hidden) _ lo).
  - now apply (linkPairs_bounds_n visible hi (List.length hidden)).
Qed.

End SyntaxHiderFacts.

(* ------------------------------------------------------------------ *)
(** ** The bundled plugin: writing a link and finding it again *)

Section LegacyModalFacts.
Import JsString Scan LegacyModal.

Lemma execAllFrom_lower {A} (re : scanner A) l :
  forall skip p m, In m (execAllFrom re skip p l) -> p + skip <= f_start m.
Proof.
  induction l as [| c r IH]; intros skip p m H; [destruct H |].
  cbn [execAllFrom] in H. destruct skip as [| k].
  - destruct (re (c :: r)) as [[a rest] |].
    + destruct H as [<- | H]; [cbn; lia |].
      apply IH in H. lia.
    + apply IH in H. lia.
  - apply IH in H. lia.
Qed.

(** Where the pattern fails at every offset of a stretch of text, the
    scan resumes after the stretch. *)
Lemma scan_skip_failing {A} (re : scanner A) body suf :
  forall p,
    (forall k, k < List.length body -> re (skipn k body ++ suf) = None) ->
    execAllFrom re 0 p (body ++ suf)
    = execAllFrom re 0 (p + List.length body) suf.
Proof.
  induction body as [| b body IH]; intros p H.
  - cbn. now rewrite Nat.add_0_r.
  - cbn [app execAllFrom List.length].
    pose proof (H 0 (Nat.lt_0_succ _)) as H0. cbn [skipn app] in H0.
    rewrite H0, IH.
    + f_equal. lia.
    + intros k Hk. apply (H (S k)). cbn [List.length]. lia.
Qed.

(** A match of a whole stretch of text is the next result of the scan,
    which resumes after it. *)
Lemma scan_match_here {A} (re : scanner A) body suf a p :
  body <> [] ->
  re (body ++ suf) = Some (a, suf) ->
  execAllFrom re 0 p (body ++ suf)
  = mkFound p (p + List.length body) a
      :: execAllFrom re 0 (p + List.length body) suf.
Proof.
  intros Hb H. destruct body as [| b body]; [congruence |].
  cbn [app execAllFrom]. cbn [app] in H. rewrite H.
  cbn [List.length]. rewrite length_app.
  replace (S (List.length body + List.length suf) - List.length suf)
    with (S (List.length body)) by lia.
  f_equal. rewrite execAllFrom_skip.
  replace (S (List.length body) - 1) with (List.length body) by lia.
  rewrite skipn_app, skipn_all, Nat.sub_diag. cbn [app skipn].
  f_equal. lia.
Qed.

Lemma mdRegex_needs_open c r :
  Ascii.eqb "[" c = false -> Legacy.mdRegex (c :: r) = None.
Proof.
  intros E. unfold Legacy.mdRegex, bind, lit. cbn [chars list_ascii_of_string litL].
  now rewrite E.
Qed.

Lemma wikiRegex_needs_open c r :
  Ascii.eqb "[" c = false -> Legacy.wikiRegex (c :: r) = None.
Proof.
  intros E. unfold Legacy.wikiRegex, bind, lit.
  cbn [chars list_ascii_of_string litL]. now rewrite E.
Qed.

Lemma run_stops p a c r :
  forallb p a = true -> p c = false -> run p (a ++ c :: r) = (a, c :: r).
Proof.
  intros Ha Hc. apply run_complete; [exact Ha |]. cbn. now rewrite Hc.
Qed.

(** The markdown pattern cannot match from inside a text without []]
    that a doubled []] ends. *)
Lemma mdRegex_fails_before_close x suf :
  forallb Utils.notCloseBracket x = true ->
  Legacy.mdRegex (x ++ "]"%char :: "]"%char :: suf) = None.
Proof.
  intros Hx. destruct x as [| c x].
  - reflexivity.
  - cbn [forallb] in Hx. apply andb_true_iff in Hx as [_ Hx].
    unfold Legacy.mdRegex, bind, lit.
    cbn [app chars list_ascii_of_string litL].
    destruct (Ascii.eqb "[" c); [| reflexivity].
    unfold many1. rewrite (run_stops _ x "]"%char _ Hx eq_refl).
    destruct x; reflexivity.
Qed.

Lemma mdRegex_match t d suf :
  t <> [] -> forallb Utils.notCloseBracket t = true ->
  d <> [] -> forallb Utils.notCloseParen d = true ->
  Legacy.mdRegex
    ("["%char :: t ++ "]"%char :: "("%char :: d ++ ")"%char :: suf)
  = Some ((t, d), suf).
Proof.
  intros Ht Ft Hd Fd.
  unfold Legacy.mdRegex, bind, lit.
  cbn [chars list_ascii_of_string litL]. rewrite Ascii.eqb_refl.
  unfold many1. rewrite (run_stops _ t "]"%char _ Ft eq_refl).
  destruct t as [| t0 t']; [congruence |].
  cbn [litL]. rewrite !Ascii.eqb_refl.
  rewrite (run_stops _ d ")"%char _ Fd eq_refl).
  destruct d as [| d0 d']; [congruence |].
  rewrite Ascii.eqb_refl. reflexivity.
Qed.

Lemma wikiDestChar_notClose d :
  forallb Utils.wikiDestChar d = true ->
  forallb Utils.notCloseBracket d = true.
Proof.
  induction d as [| c d IH]; [reflexivity |]. cbn [forallb].
  rewrite !andb_true_iff. intros [H1 H2]. split; [| now apply IH].
  unfold Utils.wikiDestChar in H1. now apply andb_true_iff in H1 as [? _].
Qed.

Lemma wikiRegex_match_plain d suf :
  d <> [] -> forallb Utils.wikiDestChar d = true ->
  Legacy.wikiRegex
    ("["%char :: "["%char :: d ++ "]"%char :: "]"%char :: suf)
  = Some ((d, None), suf).
Proof.
  intros Hd Fd.
  unfold Legacy.wikiRegex, bind, lit.
  cbn [chars list_ascii_of_string litL]. rewrite !Ascii.eqb_refl.
  unfold many1. rewrite (run_stops _ d "]"%char _ Fd eq_refl).
  destruct d as [| d0 d']; [congruence |].
  reflexivity.
Qed.

Lemma wikiRegex_match_piped d t suf :
  d <> [] -> forallb Utils.wikiDestChar d = true ->
  t <> [] -> forallb Utils.notCloseBracket t = true ->
  Legacy.wikiRegex
    ("["%char :: "["%char :: d ++ "|"%char :: t
       ++ "]"%char :: "]"%char :: suf)
  = Some ((d, Some t), suf).
Proof.
  intros Hd Fd Ht Ft.
  unfold Legacy.wikiRegex, bind, lit.
  cbn [chars list_ascii_of_string litL]. rewrite !Ascii.eqb_refl.
  unfold many1 at 1. rewrite (run_stops _ d "|"%char _ Fd eq_refl).
  destruct d as [| d0 d']; [congruence |].
  unfold optional, bind. cbn [litL]. rewrite Ascii.eqb_refl.
  unfold many1. rewrite (run_stops _ t "]"%char _ Ft eq_refl).
  destruct t as [| t0 t']; [congruence |].
  cbn [litL]. rewrite !Ascii.eqb_refl. reflexivity.
Qed.

Lemma skipn_no_char c l k :
  includesChar c l = false -> k < List.length l ->
  exists x r, skipn k l = x :: r /\ Ascii.eqb c x = false.
Proof.
  revert k. induction l as [| y l IH]; intros k H Hk; [cbn in Hk; lia |].
  apply includesChar_cons in H as [E H].
  destruct k as [| k].
  - now exists y, l.
  - cbn [skipn]. apply IH; [exact H | cbn in Hk; lia].
Qed.

(** A scan steps over a text without [[]: both patterns start with
    one. *)
Lemma scan_skip_plain {A} (re : scanner A) pre rest p :
  (forall c r, Ascii.eqb "[" c = false -> re (c :: r) = None) ->
  includesChar "["%char pre = false ->
  execAllFrom re 0 p (pre ++ rest)
  = execAllFrom re 0 (p + List.length pre) rest.
Proof.
  intros Hre Hpre. apply scan_skip_failing. intros k Hk.
  destruct (skipn_no_char _ _ _ Hpre Hk) as (x & r & -> & E).
  cbn [app]. now apply Hre.
Qed.

(** After a text that does not start with [[], the matches of a scan
    start further on. *)
Lemma scan_after {A} (re : scanner A) suf q m :
  (forall c r, Ascii.eqb "[" c = false -> re (c :: r) = None) ->
  hd_error suf <> Some "["%char ->
  In m (execAllFrom re 0 q suf) -> q < f_start m.
Proof.
  intros Hre Hs H. destruct suf as [| s suf]; [destruct H |].
  cbn [execAllFrom] in H.
  assert (E : Ascii.eqb "[" s = false).
  { destruct (Ascii.eqb "[" s) eqn:E; [| reflexivity].
    apply Ascii.eqb_eq in E. subst s. now elim Hs. }
  rewrite (Hre _ _ E) in H. apply execAllFrom_lower in H. lia.
Qed.

Lemma firstCovering_none_after {A} (ms : list (found A)) c :
  (forall m, In m ms -> (c < Z.of_nat (f_start m))%Z) ->
  firstCovering c ms = None.
Proof.
  intros H. apply firstCovering_None. intros x Hx [Hc _].
  specialize (H x Hx). lia.
Qed.

Lemma forallb_skipn {A} (f : A -> bool) l k :
  forallb f l = true -> forallb f (skipn k l) = true.
Proof.
  revert k. induction l as [| x l IH]; intros k H.
  - now rewrite skipn_nil.
  - destruct k; [exact H |]. cbn [skipn]. apply IH.
    cbn [forallb] in H. now apply andb_true_iff in H as [_ ?].
Qed.

(** The markdown pattern matches nowhere inside a written wiki link. *)
Lemma mdRegex_fails_in_wiki x suf k :
  forallb Utils.notCloseBracket x = true ->
  k < List.length (x ++ ["]"%char; "]"%char]) ->
  Legacy.mdRegex (skipn k (x ++ ["]"%char; "]"%char]) ++ suf) = None.
Proof.
  intros Hx Hk. rewrite length_app in Hk. cbn [List.length] in Hk.
  rewrite skipn_app.
  destruct (Nat.lt_ge_cases k (List.length x)) as [Hlt | Hge].
  - replace (k - List.length x) with 0 by lia. cbn [skipn].
    rewrite <- app_assoc. cbn [app].
    apply mdRegex_fails_before_close. now apply forallb_skipn.
  - rewrite skipn_all2 by lia. cbn [app].
    destruct (k - List.length x) as [| [| n]] eqn:E; cbn [skipn app].
    + now apply mdRegex_needs_open.
    + now apply mdRegex_needs_open.
    + lia.
Qed.

Lemma detect_written_markdown pre suf t d c :
  includesChar "["%char pre = false ->
  t <> [] -> forallb Utils.notCloseBracket t = true ->
  d <> [] -> forallb Utils.notCloseParen d = true ->
  let body := "["%char :: t ++ "]"%char :: "("%char :: d ++ [")"%char] in
  List.length pre <= c <= List.length pre + List.length body ->
  Legacy.detect (str (pre ++ body ++ suf)) (Z.of_nat c)
  = Some ({| Legacy.text := str t; Legacy.destination := str d;
             Legacy.isWiki := false |},
          Z.of_nat (List.length pre),
          Z.of_nat (List.length pre + List.length body),
          (Z.of_nat c <=? Z.of_nat (List.length pre) + 1)%Z).
Proof.
  intros Hpre Ht Ft Hd Fd body Hc.
  unfold Legacy.detect. rewrite chars_str. unfold execAll.
  rewrite (scan_skip_plain _ _ _ _ mdRegex_needs_open Hpre).
  cbn [Nat.add].
  assert (M : Legacy.mdRegex (body ++ suf) = Some ((t, d), suf)).
  { unfold body. cbn [app]. rewrite <- !app_assoc. cbn [app].
    rewrite <- !app_assoc. cbn [app]. now apply mdRegex_match. }
  rewrite (scan_match_here _ body suf (t, d) _ ltac:(discriminate) M).
  cbn [firstCovering]. unfold covers. cbn [f_start f_end f_caps].
  assert (C : ((Z.of_nat (List.length pre) <=? Z.of_nat c)
               && (Z.of_nat c
                   <=? Z.of_nat (List.length pre + List.length body)))%Z
              = true).
  { apply andb_true_iff. split; apply Z.leb_le; lia. }
  rewrite C. reflexivity.
Qed.

Lemma detect_written_wiki pre suf d (t : option (list ascii)) c :
  includesChar "["%char pre = false ->
  hd_error suf <> Some "["%char ->
  d <> [] -> forallb Utils.wikiDestChar d = true ->
  match t with
  | Some t' => t' <> [] /\ forallb Utils.notCloseBracket t' = true
  | None => True
  end ->
  let x := "["%char :: "["%char :: d
           ++ match t with Some t' => "|"%char :: t' | None => [] end in
  let body := x ++ ["]"%char; "]"%char] in
  List.length pre <= c <= List.length pre + List.length body ->
  Legacy.detect (str (pre ++ body ++ suf)) (Z.of_nat c)
  = Some ({| Legacy.text := match t with
                            | Some t' => str t'
                            | None => str d
                            end;
             Legacy.destination := str d;
             Legacy.isWiki := true |},
          Z.of_nat (List.length pre),
          Z.of_nat (List.length pre + List.length body),
          (Z.of_nat c <=? Z.of_nat (List.length pre) + 2)%Z).
Proof.
  intros Hpre Hsuf Hd Fd Ht x body Hc.
  assert (Fx : forallb Utils.notCloseBracket x = true).
  { unfold x. cbn [forallb]. rewrite forallb_app.
    rewrite (wikiDestChar_notClose _ Fd). cbn [andb].
    destruct t as [t' |]; [| reflexivity].
    cbn [forallb]. now destruct Ht as [_ ->]. }
  unfold Legacy.detect. rewrite chars_str. unfold execAll.
  rewrite (scan_skip_plain _ _ _ _ mdRegex_needs_open Hpre).
  rewrite (scan_skip_failing Legacy.mdRegex body suf _
             (fun k Hk => mdRegex_fails_in_wiki x suf k Fx Hk)).
  rewrite firstCovering_none_after.
  2:{ intros m Hm.
      apply (scan_after _ _ _ _ mdRegex_needs_open Hsuf) in Hm. lia. }
  rewrite (scan_skip_plain _ _ _ _ wikiRegex_needs_open Hpre).
  cbn [Nat.add].
  assert (M : Legacy.wikiRegex (body ++ suf) = Some ((d, t), suf)).
  { unfold body, x. cbn [app]. rewrite <- !app_assoc.
    destruct t as [t' |]; cbn [app].
    - rewrite <- ?app_assoc. cbn [app].
      destruct Ht as [Ht Ft]. now apply wikiRegex_match_piped.
    - now apply wikiRegex_match_plain. }
  rewrite (scan_match_here _ body suf (d, t) _ ltac:(discriminate) M).
  cbn [firstCovering]. unfold covers. cbn [f_start f_end f_caps].
  assert (C : ((Z.of_nat (List.length pre) <=? Z.of_nat c)
               && (Z.of_nat c
                   <=? Z.of_nat (List.length pre + List.length body)))%Z
              = true).
  { apply andb_true_iff. split; apply Z.leb_le; lia. }
  rewrite C. reflexivity.
Qed.

Lemma chars_nonempty s : s <> "" -> chars s <> [].
Proof. intros H E. apply H. now rewrite <- (str_chars s), E. Qed.

(** The written replacement, as a list of characters. *)
Lemma chars_replacement result :
  chars (replacement result)
  = if Legacy.isWiki result
    then ("["%char :: "["%char :: chars (Legacy.destination result)
          ++ (if String.eqb (Legacy.text result) (Legacy.destination result)
              then []
              else "|"%char :: chars (Legacy.text result)))
         ++ ["]"%char; "]"%char]
    else "["%char :: chars (Legacy.text result)
         ++ "]"%char :: "("%char :: chars (Legacy.destination result)
         ++ [")"%char].
Proof.
  unfold replacement. destruct (Legacy.isWiki result).
  - destruct (String.eqb _ _); rewrite !chars_app; cbn [app];
      rewrite <- ?app_assoc; cbn [app]; rewrite ?app_nil_r;
      rewrite <- ?app_assoc; reflexivity.
  - rewrite !chars_app. cbn [app]. rewrite <- ?app_assoc. reflexivity.
Qed.

Lemma detect_written pre suf result c :
  includesChar "["%char pre = false ->
  hd_error suf <> Some "["%char ->
  writable result ->
  List.length pre <= c
    <= List.length pre + String.length (replacement result) ->
  Legacy.detect (str (pre ++ chars (replacement result) ++ suf))
    (Z.of_nat c)
  = Some (result, Z.of_nat (List.length pre),
          Z.of_nat (List.length pre + String.length (replacement result)),
          (Z.of_nat c
           <=? Z.of_nat (List.length pre)
               + (if Legacy.isWiki result then 2 else 1))%Z).
Proof.
  intros Hpre Hsuf (Wt & Wd & Ft & Fd) Hc.
  rewrite <- length_chars in Hc |- *.
  rewrite chars_replacement in *.
  destruct result as [t d w]. cbn [Legacy.text Legacy.destination
                                   Legacy.isWiki] in *.
  apply chars_nonempty in Wt, Wd.
  destruct w.
  - destruct (String.eqb t d) eqn:E.
    + apply String.eqb_eq in E. subst d.
      pose proof (detect_written_wiki pre suf (chars t) None c
                    Hpre Hsuf Wd Fd I) as H.
      cbv zeta beta iota in H. rewrite (H Hc).
      now rewrite str_chars.
    + pose proof (detect_written_wiki pre suf (chars d) (Some (chars t)) c
                    Hpre Hsuf Wd Fd (conj Wt Ft)) as H.
      cbv zeta beta iota in H. rewrite (H Hc).
      now rewrite !str_chars.
  - pose proof (detect_written_markdown pre suf (chars t) (chars d) c
                  Hpre Wt Ft Wd Fd) as H.
    cbv zeta beta iota in H. rewrite (H Hc).
    now rewrite !str_chars.
Qed.

(** X10.  A link written by the edit-link callback is found again by
    its detection.  When the text before the replaced range holds no
    [[], the text after it does not start with one, and the submitted
    link has non-empty fields that fit its syntax, then on the new line
    the detection returns exactly the submitted link, with the span of
    the replacement, for every cursor offset from the start to the end
    of the replacement; the offset where the callback leaves the cursor
    is one of them. *)
Theorem written_link_is_detected (lineText : string) (start end_ : nat)
  (result : Legacy.Link) :
  start <= String.length lineText ->
  includesChar "["%char (firstn start (chars lineText)) = false ->
  hd_error (skipn end_ (chars lineText)) <> Some "["%char ->
  writable result ->
  let stop := start + String.length (replacement result) in
  (forall c, start <= c <= stop ->
     Legacy.detect
       (replaceRange lineText (replacement result)
          (Z.of_nat start) (Z.of_nat end_))
       (Z.of_nat c)
     = Some (result, Z.of_nat start, Z.of_nat stop,
             (Z.of_nat c
              <=? Z.of_nat start
                  + (if Legacy.isWiki result then 2 else 1))%Z))
  /\ forall alwaysMoveToEnd plan,
       Legacy.p_start plan = Z.of_nat start ->
       Legacy.p_end plan = Z.of_nat end_ ->
       exists enteredFromLeft,
         Legacy.detect
           (fst (onSubmit alwaysMoveToEnd plan lineText result))
           (snd (onSubmit alwaysMoveToEnd plan lineText result))
         = Some (result, Z.of_nat start, Z.of_nat stop, enteredFromLeft).
Proof.
  intros Hs Hpre Hsuf W stop.
  assert (L : List.length (firstn start (chars lineText)) = start).
  { rewrite length_firstn, length_chars. lia. }
  assert (G : forall c, start <= c <= stop ->
     Legacy.detect
       (replaceRange lineText (replacement result)
          (Z.of_nat start) (Z.of_nat end_))
       (Z.of_nat c)
     = Some (result, Z.of_nat start, Z.of_nat stop,
             (Z.of_nat c
              <=? Z.of_nat start
                  + (if Legacy.isWiki result then 2 else 1))%Z)).
  { intros c Hc. unfold replaceRange. rewrite !Nat2Z.id.
    pose proof (detect_written _ _ result c Hpre Hsuf W) as H.
    rewrite L in H. apply H. exact Hc. }
  split; [exact G |].
  intros alwaysMoveToEnd plan Ps Pe. unfold onSubmit, newCh.
  cbn [fst snd]. rewrite Ps, Pe.
  destruct alwaysMoveToEnd; [| destruct (Legacy.p_enteredFromLeft plan)].
  - rewrite <- Nat2Z.inj_add. eexists. apply G. unfold stop. lia.
  - rewrite <- Nat2Z.inj_add. eexists. apply G. unfold stop. lia.
  - eexists. apply G. unfold stop. lia.
Qed.

Lemma written_link_is_detected_witness :
  fst (onSubmit false
         {| Legacy.p_link := {| Legacy.text := ""; Legacy.destination := "";
                                Legacy.isWiki := true |};
            Legacy.p_start := 4; Legacy.p_end := 8;
            Legacy.p_enteredFromLeft := true;
            Legacy.p_shouldSelectText := false;
            Legacy.p_conversionNotice := None |}
         "see this, then"
         {| Legacy.text := "this"; Legacy.destination := "my note";
            Legacy.isWiki := true |})
  = "see [[my note|this]], then"
  /\ Legacy.detect "see [[my note|this]], then" 10
     = Some ({| Legacy.text := "this"; Legacy.destination := "my note";
                Legacy.isWiki := true |}, 4%Z, 20%Z, false).
Proof.
  split; [reflexivity |].
  assert (W : writable {| Legacy.text := "this";
                          Legacy.destination := "my note";
                          Legacy.isWiki := true |}).
  { unfold writable. cbn. repeat split; discriminate. }
  assert (N : hd_error (skipn 8 (chars "see this, then")) <> Some "["%char)
    by (cbn; discriminate).
  exact (proj1 (written_link_is_detected "see this, then" 4 8 _
                  ltac:(cbn; lia) eq_refl N W)
           10 ltac:(cbn; lia)).
Defined.

(** *** The modal *)

Local Abbreviation showsError shown :=
  (exists w, In w (fst shown) /\ snd w = Legacy.LinkWarningError).

(** X11.  The bundled modal never shows its error warning on its own:
    when it opens, and after every input in the destination field, the
    link type is not wiki while the destination is a URL, so no warning
    of the error class is shown.  Only the toggle brings the error up:
    switching shows it exactly when the new value is wiki and the
    destination is a URL. *)
Theorem modal_error_only_by_toggle :
  (forall link,
      isWiki (fst (onOpen link))
      && Utils.isUrl (destInput (fst (onOpen link))) = false
      /\ ~ showsError (snd (onOpen link)))
  /\ (forall m,
         isWiki (fst (handleDestInput m))
         && Utils.isUrl (destInput (fst (handleDestInput m))) = false
         /\ ~ showsError (snd (handleDestInput m)))
  /\ (forall m value,
         showsError (snd (onToggle m value))
         <-> value = true /\ Utils.isUrl (destInput m) = true).
Proof.
  split; [| split].
  - intros link. unfold onOpen. cbn [fst snd isWiki destInput].
    assert (E : (if Utils.isUrl (Legacy.destination link) then false
                 else Legacy.isWiki link)
                && Utils.isUrl (Legacy.destination link) = false).
    { destruct (Utils.isUrl (Legacy.destination link));
        [reflexivity | apply andb_false_r]. }
    split; [exact E |]. rewrite updateUIState_error, E. discriminate.
  - intros m. unfold handleDestInput. cbn [fst snd isWiki destInput].
    assert (E : (if Utils.isUrl (destInput m) then false else isWiki m)
                && Utils.isUrl (destInput m) = false).
    { destruct (Utils.isUrl (destInput m));
        [reflexivity | apply andb_false_r]. }
    split; [exact E |]. rewrite updateUIState_error, E. discriminate.
  - intros m value. unfold onToggle. cbn [fst snd isWiki destInput].
    rewrite updateUIState_error. apply andb_true_iff.
Qed.

Lemma trimStart_nil_blank l :
  trimStart l = [] -> Forall (fun c => isWhiteSpace c = true) l.
Proof.
  induction l as [| c l IH]; [constructor |]. cbn [trimStart].
  destruct (isWhiteSpace c) eqn:E; [| discriminate].
  intros H. constructor; [exact E | now apply IH].
Qed.

Lemma trimL_nil_blank l :
  trimL l = [] -> Forall (fun c => isWhiteSpace c = true) l.
Proof.
  unfold trimL, trimEnd. intros H.
  apply (f_equal (@rev ascii)) in H. rewrite rev_involutive in H.
  cbn [rev] in H. apply trimStart_nil_blank in H.
  apply trimStart_nil_blank.
  pose proof (trimStart_noLead l) as N.
  destruct (trimStart l) as [| c r]; [reflexivity |].
  exfalso. cbn [rev] in H. apply Forall_app in H as [_ H].
  inversion H; subst. cbn in N. congruence.
Qed.

Lemma trim_empty_iff s : trim s = "" <-> blank s.
Proof.
  split; [| apply trim_blank].
  unfold trim, blank. intros H. apply trimL_nil_blank.
  rewrite <- (chars_str (trimL (chars s))), H. reflexivity.
Qed.

(** X12.  The bundled modal submits only complete, trimmed links: there
    is no submission exactly when the text or the destination is blank;
    a submitted link has a non-empty text and destination, each the
    trim of its field (so trimming again changes nothing), and the link
    type of the toggle. *)
Theorem legacy_submit_complete (m : Modal) :
  (submit m = None <-> blank (textInput m) \/ blank (destInput m))
  /\ forall r, submit m = Some r ->
       Legacy.text r = trim (textInput m)
       /\ Legacy.destination r = trim (destInput m)
       /\ Legacy.text r <> "" /\ Legacy.destination r <> ""
       /\ trim (Legacy.text r) = Legacy.text r
       /\ trim (Legacy.destination r) = Legacy.destination r
       /\ Legacy.isWiki r = isWiki m.
Proof.
  unfold submit.
  destruct (truthy (trim (textInput m))) eqn:Tt;
    destruct (truthy (trim (destInput m))) eqn:Td; cbn [negb orb].
  - split.
    + split; [discriminate |]. rewrite <- !trim_empty_iff.
      intros [H | H]; rewrite H in *; discriminate.
    + intros r [= <-]. cbn.
      repeat split; try apply trim_idem;
        intros H; rewrite H in *; discriminate.
  - apply truthy_false_iff in Td. split; [| discriminate].
    split; [| reflexivity]. intros _. right. now apply trim_empty_iff.
  - apply truthy_false_iff in Tt. split; [| discriminate].
    split; [| reflexivity]. intros _. left. now apply trim_empty_iff.
  - apply truthy_false_iff in Tt. split; [| discriminate].
    split; [| reflexivity]. intros _. left. now apply trim_empty_iff.
Qed.

(** *** Submitting a detected link unchanged *)

Lemma string_app_assoc (a b c : string) :
  ((a ++ b) ++ c = a ++ b ++ c)%string.
Proof. induction a as [| x a IH]; cbn; [reflexivity | now rewrite IH]. Qed.

(** The match that a detection loop stops at: what the pattern matched
    at its start, and what is left of the line after its end. *)
Lemma covering_match {A} (re : scanner A) l c m :
  consumes re ->
  firstCovering c (execAll re l) = Some m ->
  exists body,
    re (skipn (f_start m) l) = Some (f_caps m, skipn (f_end m) l)
    /\ l = firstn (f_start m) l ++ body ++ skipn (f_end m) l
    /\ skipn (f_start m) l = body ++ skipn (f_end m) l.
Proof.
  intros C H.
  apply firstCovering_Some in H as (pre & post & E & _ & _).
  assert (Hin : In m (execAll re l)) by (rewrite E; apply in_elt).
  destruct (ExecSeq_In _ _ _ _ _ (execAll_ExecSeq re l C) Hin)
    as (_ & Hlt & rest & Hre & Hlen & He).
  destruct (C _ _ _ Hre) as (body & Hb & _).
  assert (Hr : skipn (f_end m) l = rest).
  { rewrite He.
    assert (G : forall a, l = a ++ rest ->
              skipn (List.length l - List.length rest) l = rest).
    { intros a ->. rewrite length_app.
      replace (List.length a + List.length rest - List.length rest)
        with (List.length a) by lia.
      now rewrite skipn_app, skipn_all, Nat.sub_diag. }
    apply (G (firstn (f_start m) l ++ body)).
    rewrite <- app_assoc, <- Hb. symmetry. apply firstn_skipn. }
  exists body. rewrite Hr. repeat split; [exact Hre | | exact Hb].
  rewrite <- Hb. symmetry. apply firstn_skipn.
Qed.

(** Writing the detected link itself over its span gives the line back,
    with one exception: a wiki link written with a display text equal to
    its destination is rewritten without the display text. *)
Lemma replace_detected (lineText : string) (c : Z) (lk : Legacy.Link)
  (s e : Z) (enteredFromLeft : bool) :
  Legacy.detect lineText c = Some (lk, s, e, enteredFromLeft) ->
  replaceRange lineText (replacement lk) s e = lineText
  \/ (Legacy.isWiki lk = true
      /\ Legacy.text lk = Legacy.destination lk
      /\ exists pre post,
           lineText = (pre ++ "[[" ++ Legacy.destination lk ++ "|"
                       ++ Legacy.destination lk ++ "]]" ++ post)%string
           /\ replaceRange lineText (replacement lk) s e
              = (pre ++ "[[" ++ Legacy.destination lk ++ "]]"
                 ++ post)%string).
Proof.
  unfold Legacy.detect.
  destruct (firstCovering c (execAll Legacy.mdRegex (chars lineText)))
    as [m |] eqn:Md.
  - destruct (covering_match _ _ _ _ legacy_mdRegex_consumes Md)
      as (body & Hre & Hl & Hb).
    destruct (f_caps m) as [t d]. intros [= <- <- <- _]. left.
    apply legacy_md_shape in Hre.
    unfold replaceRange. rewrite !Nat2Z.id, chars_replacement.
    cbn [Legacy.isWiki Legacy.text Legacy.destination].
    rewrite !chars_str.
    rewrite <- (str_chars lineText) at 3.
    rewrite <- (firstn_skipn (f_start m) (chars lineText)) at 3.
    rewrite Hre. f_equal. f_equal. cbn [app].
    rewrite <- !app_assoc. cbn [app]. now rewrite <- !app_assoc.
  - destruct (firstCovering c (execAll Legacy.wikiRegex (chars lineText)))
      as [m |] eqn:Wk; [| discriminate].
    destruct (covering_match _ _ _ _ legacy_wikiRegex_consumes Wk)
      as (body & Hre & Hl & Hb).
    destruct (f_caps m) as [d t]. intros [= <- <- <- _].
    apply legacy_wiki_shape in Hre.
    unfold replaceRange. rewrite !Nat2Z.id, chars_replacement.
    cbn [Legacy.isWiki Legacy.text Legacy.destination].
    destruct t as [t |].
    + destruct (String.eqb (str t) (str d)) eqn:E.
      * right. apply String.eqb_eq in E.
        split; [reflexivity |]. split; [exact E |].
        exists (str (firstn (f_start m) (chars lineText))),
               (str (skipn (f_end m) (chars lineText))).
        assert (Et : t = d).
        { rewrite <- (chars_str t), E, chars_str. reflexivity. }
        subst t. split.
        -- rewrite <- (str_chars lineText) at 1.
           rewrite <- (firstn_skipn (f_start m) (chars lineText)) at 1.
           rewrite Hre. rewrite !str_app. cbn [app].
           change (str ("["%char :: "["%char :: d ++ "|"%char :: d
                        ++ "]"%char :: "]"%char
                        :: skipn (f_end m) (chars lineText)))
             with (str (chars "[[" ++ d ++ chars "|" ++ d ++ chars "]]"
                        ++ skipn (f_end m) (chars lineText))).
           now rewrite !str_app, !str_chars.
        -- rewrite chars_str, app_nil_r, !str_app.
           change (str ("["%char :: "["%char :: d))
             with (str (chars "[[" ++ d)).
           change (str ["]"%char; "]"%char]) with "]]".
           rewrite !str_app, !str_chars.
           now rewrite !string_app_assoc.
      * left. rewrite !chars_str.
        rewrite <- (str_chars lineText) at 3.
        rewrite <- (firstn_skipn (f_start m) (chars lineText)) at 3.
        rewrite Hre. f_equal. f_equal. cbn [app].
        rewrite <- ?app_assoc. cbn [app]. now rewrite <- ?app_assoc.
    + left. rewrite String.eqb_refl, !chars_str.
      rewrite <- (str_chars lineText) at 3.
      rewrite <- (firstn_skipn (f_start m) (chars lineText)) at 3.
      rewrite Hre. f_equal. f_equal. cbn [app].
      rewrite <- !app_assoc. cbn [app]. now rewrite <- ?app_assoc.
Qed.

Lemma submit_None (m : Modal) :
  submit m = None <-> blank (textInput m) \/ blank (destInput m).
Proof.
  unfold submit. rewrite <- !trim_empty_iff.
  destruct (truthy (trim (textInput m))) eqn:Tt;
    destruct (truthy (trim (destInput m))) eqn:Td; cbn [negb orb].
  - split; [discriminate |].
    intros [H | H]; rewrite H in *; discriminate.
  - apply truthy_false_iff in Td. split; [now right | reflexivity].
  - apply truthy_false_iff in Tt. split; [now left | reflexivity].
  - apply truthy_false_iff in Tt. split; [now left | reflexivity].
Qed.

Lemma submit_Some (m : Modal) (r : Legacy.Link) :
  submit m = Some r ->
  r = {| Legacy.text := trim (textInput m);
         Legacy.destination := trim (destInput m);
         Legacy.isWiki := isWiki m |}.
Proof.
  unfold submit.
  destruct (negb (truthy (trim (textInput m)))
            || negb (truthy (trim (destInput m)))); [discriminate |].
  now intros [= <-].
Qed.

(** X20.  Resubmitting a detected link through the modal.  When the
    edit-link command finds a link at the cursor, opens the modal on it
    and the modal is submitted as it opened, nothing is submitted, and
    so nothing is written, exactly when the text or the destination of
    the link is blank.  Otherwise the submitted link has the trimmed
    text and destination and the type of the detected link, except that
    a wiki link to a URL is submitted as a markdown link, and the
    callback writes its replacement over the span of the detected link.
    The line is given back when the text and the destination are their
    own trim and the link is not a wiki link to a URL, with one
    exception: a wiki link written with a display text equal to its
    destination, [[d|d]], is rewritten in the short form [[d]]. *)
Theorem resubmit_unchanged (lineText : string) (c : Z) (selection : string)
  (selected : option (Z * Z)) (clipboard : option string)
  (alwaysMoveToEnd : bool) (lk : Legacy.Link) (s e : Z)
  (enteredFromLeft : bool) :
  Legacy.detect lineText c = Some (lk, s, e, enteredFromLeft) ->
  let plan :=
    Legacy.editorCallback lineText c selection selected clipboard in
  let m := fst (onOpen (Legacy.p_link plan)) in
  let toUrl := Utils.isUrl (Legacy.destination lk) in
  Legacy.p_link plan = lk
  /\ (submit m = None
      <-> blank (Legacy.text lk) \/ blank (Legacy.destination lk))
  /\ forall r, submit m = Some r ->
       let newLine := fst (onSubmit alwaysMoveToEnd plan lineText r) in
       r = {| Legacy.text := trim (Legacy.text lk);
              Legacy.destination := trim (Legacy.destination lk);
              Legacy.isWiki := Legacy.isWiki lk && negb toUrl |}
       /\ newLine = replaceRange lineText (replacement r) s e
       /\ (trim (Legacy.text lk) = Legacy.text lk ->
           trim (Legacy.destination lk) = Legacy.destination lk ->
           Legacy.isWiki lk && toUrl = false ->
           newLine = lineText
           \/ (Legacy.isWiki lk = true
               /\ Legacy.text lk = Legacy.destination lk
               /\ exists pre post,
                    lineText
                    = (pre ++ "[[" ++ Legacy.destination lk ++ "|"
                       ++ Legacy.destination lk ++ "]]" ++ post)%string
                    /\ newLine
                       = (pre ++ "[[" ++ Legacy.destination lk ++ "]]"
                          ++ post)%string)).
Proof.
  intros D plan m toUrl.
  assert (P : plan = {| Legacy.p_link := lk; Legacy.p_start := s;
                        Legacy.p_end := e;
                        Legacy.p_enteredFromLeft := enteredFromLeft;
                        Legacy.p_shouldSelectText := false;
                        Legacy.p_conversionNotice := None |}).
  { subst plan. unfold Legacy.editorCallback. now rewrite D. }
  assert (M : m = {| isWiki := Legacy.isWiki lk && negb toUrl;
                     wasUrl := toUrl;
                     textInput := Legacy.text lk;
                     destInput := Legacy.destination lk |}).
  { subst m. rewrite P. unfold onOpen.
    cbn [fst Legacy.p_link]. subst toUrl.
    destruct (Utils.isUrl (Legacy.destination lk)), (Legacy.isWiki lk);
      reflexivity. }
  split; [now rewrite P |].
  split; [rewrite submit_None, M; reflexivity |].
  intros r R newLine. apply submit_Some in R. rewrite M in R.
  cbn [textInput destInput isWiki] in R.
  assert (N : newLine = replaceRange lineText (replacement r) s e).
  { subst newLine. unfold onSubmit. now rewrite P. }
  split; [exact R |]. split; [exact N |].
  intros Tt Td W. rewrite N.
  assert (E : r = lk).
  { rewrite R, Tt, Td. destruct lk as [t d w]. cbn in *. f_equal.
    subst toUrl. destruct w, (Utils.isUrl d); try reflexivity.
    discriminate W. }
  rewrite E. exact (replace_detected lineText c lk s e enteredFromLeft D).
Qed.

Lemma resubmit_unchanged_witness :
  Legacy.detect "see [link](dest.md) here" 6
  = Some ({| Legacy.text := "link"; Legacy.destination := "dest.md";
             Legacy.isWiki := false |}, 4%Z, 19%Z, false)
  /\ exists r,
       submit (fst (onOpen (Legacy.p_link
                              (Legacy.editorCallback
                                 "see [link](dest.md) here" 6 "" None
                                 None)))) = Some r
       /\ fst (onSubmit false
                 (Legacy.editorCallback "see [link](dest.md) here" 6 ""
                    None None)
                 "see [link](dest.md) here" r)
          = "see [link](dest.md) here".
Proof.
  split; [reflexivity |].
  eexists. split; [reflexivity |].
  pose proof (resubmit_unchanged "see [link](dest.md) here" 6 "" None None
                false _ 4 19 false eq_refl) as H.
  cbv zeta in H. destruct H as (_ & _ & H).
  destruct (H _ eq_refl) as (_ & _ & G).
  destruct (G eq_refl eq_refl eq_refl) as [L | (W & _)];
    [exact L | discriminate W].
Defined.

(** The same flow on concrete lines: a wiki link to a URL is written as
    a markdown link, white space around the text of a link is dropped, a
    link with a blank text is not submitted, a display text equal to the
    destination is dropped, and a plain markdown link is given back. *)
Example test_resubmit_changes :
  let flow (lineText : string) (c : Z) :=
    let plan := Legacy.editorCallback lineText c "" None None in
    match submit (fst (onOpen (Legacy.p_link plan))) with
    | Some r => Some (fst (onSubmit false plan lineText r))
    | None => None
    end in
  flow "[[www.x.com]]" 3%Z = Some "[www.x.com](www.x.com)"
  /\ flow "a [ t ](d) b" 4%Z = Some "a [t](d) b"
  /\ flow "a [ ](d) b" 4%Z = None
  /\ flow "a [[x|x]] b" 4%Z = Some "a [[x]] b"
  /\ flow "see [link](dest.md) here" 6%Z = Some "see [link](dest.md) here".
Proof. cbv zeta. repeat split; vm_compute; reflexivity. Qed.

End LegacyModalFacts.

(* ------------------------------------------------------------------ *)
(** ** URL normalisation *)

Section UrlFacts.
Import JsString Scan.
Local Open Scope scan_scope.

Local Abbreviation schemeRe :=
  (litCI "http" ;;; _ <- optChar true "s"%char ;; lit "://").
Local Abbreviation tailRe := (_ <- many1 nonSpace ;; eol).

Lemma urlRe_unfold l :
  Utils.urlRe l
  = match match schemeRe l with
          | Some (_, r) => tailRe r
          | None => None
          end with
    | Some x => Some x
    | None => match litCI "www." l with
              | Some (_, r) => tailRe r
              | None => None
              end
    end.
Proof.
  unfold Utils.urlRe, alt, bind.
  destruct (litCI "http" l) as [[u r] |]; [| reflexivity].
  destruct (optChar true "s" r) as [[b r1] |]; [| reflexivity].
  destruct (lit "://" r1) as [[u1 r2] |]; reflexivity.
Qed.

Lemma tailRe_Some r x :
  tailRe r = Some x <-> x = (tt, []) /\ r <> [] /\ forallb nonSpace r = true.
Proof.
  unfold bind, many1, eol.
  destruct (run nonSpace r) as [a b] eqn:E.
  apply run_sound in E as (-> & Fa & Hb).
  destruct a as [| a0 a'].
  - cbn [app]. split; [discriminate |]. intros (_ & Hr & Hf).
    destruct b as [| b0 b']; [congruence |].
    cbn [forallb] in Hf. apply andb_true_iff in Hf as [Hf _]. congruence.
  - destruct b as [| b0 b'].
    + rewrite app_nil_r. split.
      * intros [= <-]. repeat split; [discriminate | exact Fa].
      * intros (-> & _). reflexivity.
    + split; [discriminate |]. intros (_ & _ & Hf).
      rewrite forallb_app in Hf. apply andb_true_iff in Hf as [_ Hf].
      cbn [forallb] in Hf. apply andb_true_iff in Hf as [Hf _]. congruence.
Qed.

Lemma ci_dot_nonspace c : eqbCI "." c = true -> isWhiteSpace c = false.
Proof.
  destruct c as [[] [] [] [] [] [] [] []]; vm_compute; congruence.
Qed.

Lemma litCI_www l r :
  litCI "www." l = Some (tt, r) ->
  exists p, l = p ++ r /\ p <> [] /\ forallb nonSpace p = true.
Proof.
  unfold litCI. cbn [chars list_ascii_of_string litL].
  destruct l as [| c1 [| c2 [| c3 [| c4 l]]]]; try discriminate;
    try (destruct (eqbCI "w" c1); discriminate);
    try (destruct (eqbCI "w" c1); [destruct (eqbCI "w" c2) |];
         discriminate);
    try (destruct (eqbCI "w" c1);
         [destruct (eqbCI "w" c2); [destruct (eqbCI "w" c3) |] |];
         discriminate).
  destruct (eqbCI "w" c1) eqn:E1; [| discriminate].
  destruct (eqbCI "w" c2) eqn:E2; [| discriminate].
  destruct (eqbCI "w" c3) eqn:E3; [| discriminate].
  destruct (eqbCI "." c4) eqn:E4; [| discriminate].
  intros [= <-]. exists [c1; c2; c3; c4].
  repeat split; [discriminate |].
  cbn [forallb]. unfold nonSpace.
  now rewrite (ci_w_nonspace _ E1), (ci_w_nonspace _ E2),
    (ci_w_nonspace _ E3), (ci_dot_nonspace _ E4).
Qed.

Lemma isUrl_trim s : Utils.isUrl (trim s) = Utils.isUrl s.
Proof.
  unfold Utils.isUrl. rewrite trim_idem.
  destruct (truthy s) eqn:Ts; destruct (truthy (trim s)) eqn:Tt;
    cbn [negb]; try reflexivity.
  - apply truthy_false_iff in Tt. now rewrite Tt.
  - apply truthy_false_iff in Ts. subst s. discriminate.
Qed.

Lemma trim_scheme_prefix t :
  trim t = t -> trim ("https://" ++ t) = ("https://" ++ t)%string.
Proof. intros H. now apply (trim_app "https://"). Qed.

Lemma hasScheme_https t : hasScheme ("https://" ++ t) = true.
Proof.
  unfold hasScheme. rewrite chars_app. reflexivity.
Qed.

(** The three cases of [normalizeUrl] on a non-empty string. *)
Lemma normalizeUrl_cases s :
  truthy s = true ->
  (hasScheme (trim s) = true /\ Utils.normalizeUrl s = trim s)
  \/ (hasScheme (trim s) = false
      /\ test (litCI "www.") (chars (trim s)) = true
      /\ Utils.normalizeUrl s = ("https://" ++ trim s)%string)
  \/ (hasScheme (trim s) = false
      /\ test (litCI "www.") (chars (trim s)) = false
      /\ Utils.normalizeUrl s = trim s).
Proof.
  intros T. unfold Utils.normalizeUrl, hasScheme. rewrite T. cbn [negb].
  destruct (test schemeRe (chars (trim s))); [now left |].
  destruct (test (litCI "www.") (chars (trim s)));
    [right; left | right; right]; now repeat split.
Qed.

(** A URL stays a URL under [normalizeUrl], and gets a scheme. *)
Lemma normalizeUrl_keeps_url s :
  Utils.isUrl s = true ->
  Utils.isUrl (Utils.normalizeUrl s) = true
  /\ hasScheme (Utils.normalizeUrl s) = true.
Proof.
  intros U. pose proof (isUrl_truthy _ U) as T.
  destruct (normalizeUrl_cases s T)
    as [(H & ->) | [(H & W & ->) | (H & W & ->)]].
  - split; [now rewrite isUrl_trim | exact H].
  - assert (Tr : trim ("https://" ++ trim s) = ("https://" ++ trim s)%string)
      by apply trim_scheme_prefix, trim_idem.
    split; [| apply hasScheme_https].
    unfold Utils.isUrl in U |- *. rewrite T in U. cbn [negb] in U.
    change (truthy ("https://" ++ trim s)) with true.
    cbn [negb]. rewrite Tr.
    unfold test in U |- *. rewrite urlRe_unfold in U |- *.
    unfold hasScheme, test in H.
    destruct (schemeRe (chars (trim s))) as [[u r] |]; [discriminate |].
    destruct (litCI "www." (chars (trim s))) as [[[] r] |] eqn:EW;
      [| discriminate].
    destruct (tailRe r) as [x |] eqn:ET; [| discriminate].
    apply tailRe_Some in ET as (_ & Hr & Fr).
    apply litCI_www in EW as (p & Ep & Hp & Fp).
    rewrite chars_app.
    assert (S : schemeRe (chars "https://" ++ chars (trim s))
                = Some (tt, chars (trim s))) by reflexivity.
    rewrite S.
    assert (ET : tailRe (chars (trim s)) = Some (tt, [])).
    { apply tailRe_Some. repeat split.
      - rewrite Ep. destruct p; [congruence | discriminate].
      - rewrite Ep, forallb_app, Fp, Fr. reflexivity. }
    now rewrite ET.
  - exfalso.
    unfold Utils.isUrl in U. rewrite T in U. cbn [negb] in U.
    unfold test in U, W. rewrite urlRe_unfold in U.
    unfold hasScheme, test in H.
    destruct (schemeRe (chars (trim s))) as [[u r] |]; [discriminate |].
    destruct (litCI "www." (chars (trim s))) as [[u r] |];
      discriminate.
Qed.

(** X14.  Normalising a URL is idempotent and yields a URL with an
    explicit scheme: [normalizeUrl (normalizeUrl s) = normalizeUrl s]
    for every string, and when [s] is a URL for [isUrl], so is
    [normalizeUrl s], which then starts with [http://] or [https://] in
    any letter case. *)
Theorem normalizeUrl_idempotent (s : string) :
  Utils.normalizeUrl (Utils.normalizeUrl s) = Utils.normalizeUrl s
  /\ (Utils.isUrl s = true ->
      Utils.isUrl (Utils.normalizeUrl s) = true
      /\ hasScheme (Utils.normalizeUrl s) = true).
Proof.
  split; [| apply normalizeUrl_keeps_url].
  destruct (truthy s) eqn:T.
  2:{ apply truthy_false_iff in T. now subst s. }
  destruct (normalizeUrl_cases s T)
    as [(H & ->) | [(H & W & ->) | (H & W & ->)]].
  - destruct (truthy (trim s)) eqn:Tt.
    + destruct (normalizeUrl_cases _ Tt)
        as [(_ & ->) | [(H' & _) | (H' & _)]];
        rewrite trim_idem in *; [reflexivity | congruence | congruence].
    + apply truthy_false_iff in Tt. now rewrite Tt.
  - assert (Tr : trim ("https://" ++ trim s) = ("https://" ++ trim s)%string)
      by apply trim_scheme_prefix, trim_idem.
    destruct (normalizeUrl_cases ("https://" ++ trim s) eq_refl)
      as [(_ & ->) | [(H' & _) | (H' & _)]];
      rewrite Tr in *; [reflexivity | |];
      now rewrite hasScheme_https in H'.
  - destruct (truthy (trim s)) eqn:Tt.
    + destruct (normalizeUrl_cases _ Tt)
        as [(H' & _) | [(_ & W' & _) | (_ & _ & ->)]];
        rewrite trim_idem in *; [congruence | congruence | reflexivity].
    + apply truthy_false_iff in Tt. now rewrite Tt.
Qed.

Lemma normalizeUrl_idempotent_witness :
  Utils.isUrl "  www.Example.com " = true
  /\ Utils.normalizeUrl "  www.Example.com " = "https://www.Example.com"
  /\ Utils.isUrl (Utils.normalizeUrl "  www.Example.com ") = true.
Proof.
  split; [reflexivity |]. split; [reflexivity |].
  exact (proj1 (proj2 (normalizeUrl_idempotent "  www.Example.com ")
                  eq_refl)).
Defined.

(** X13.  A new link of the edit-link callback is a markdown link
    exactly when the selection or the clipboard is a URL, and it never
    is a wiki link to a URL: a markdown new link has a destination that
    is a URL with an explicit scheme, a wiki new link has the clipboard
    text, which is not a URL, as its destination.  So the modal opened
    on a new link keeps the link type of that link. *)
Theorem newLink_never_wiki_url (selection clipboardText : string) :
  let lk := fst (fst (Legacy.newLink selection clipboardText)) in
  Legacy.isWiki lk
    = negb (Utils.isUrl selection || Utils.isUrl clipboardText)
  /\ (Legacy.isWiki lk = false ->
      Utils.isUrl (Legacy.destination lk) = true
      /\ hasScheme (Legacy.destination lk) = true)
  /\ (Legacy.isWiki lk = true ->
      Legacy.destination lk = clipboardText
      /\ Utils.isUrl (Legacy.destination lk) = false)
  /\ LegacyModal.isWiki (fst (LegacyModal.onOpen lk)) = Legacy.isWiki lk.
Proof.
  intros lk.
  assert (G : Legacy.isWiki lk
              = negb (Utils.isUrl selection || Utils.isUrl clipboardText)
            /\ (Legacy.isWiki lk = false ->
                Utils.isUrl (Legacy.destination lk) = true
                /\ hasScheme (Legacy.destination lk) = true)
            /\ (Legacy.isWiki lk = true ->
                Legacy.destination lk = clipboardText
                /\ Utils.isUrl (Legacy.destination lk) = false)).
  { subst lk. unfold Legacy.newLink.
    destruct (Utils.isUrl selection) eqn:Us.
    - cbn [fst Legacy.isWiki Legacy.destination negb orb].
      repeat split; try discriminate;
        apply normalizeUrl_keeps_url; now rewrite isUrl_trim.
    - destruct (truthy selection);
        destruct (Utils.isUrl clipboardText) eqn:Uc;
        cbn [fst Legacy.isWiki Legacy.destination negb orb];
        repeat split; try discriminate; try assumption;
        now apply normalizeUrl_keeps_url. }
  destruct G as (G1 & G2 & G3).
  repeat split; try assumption; try (now apply G2); try (now apply G3).
  unfold LegacyModal.onOpen. cbn [fst LegacyModal.isWiki].
  destruct (Legacy.isWiki lk) eqn:E.
  - destruct (G3 eq_refl) as [_ ->]. reflexivity.
  - now destruct (Utils.isUrl (Legacy.destination lk)).
Qed.

End UrlFacts.

(* ------------------------------------------------------------------ *)
(** ** The bundled plugin: adding a block id to a file *)

Section FileSuggestFacts.
Import JsString SuggestionQuery FileSuggest.

Local Abbreviation lf := (ascii_of_nat 10).
Local Abbreviation noLf := (fun p => includesChar lf p = false).

Lemma includesChar_false_iff c l :
  includesChar c l = false <-> ~ In c l.
Proof.
  unfold includesChar. split.
  - intros H Hin.
    assert (E : existsb (Ascii.eqb c) l = true).
    { apply existsb_exists. exists c. split; [exact Hin |].
      apply Ascii.eqb_refl. }
    congruence.
  - intros H. destruct (existsb (Ascii.eqb c) l) eqn:E; [| reflexivity].
    apply existsb_exists in E as (x & Hin & Hx).
    apply Ascii.eqb_eq in Hx. subst x. contradiction.
Qed.

Lemma trimStart_In x l : In x (trimStart l) -> In x l.
Proof.
  induction l as [| c l IH]; [auto |]. cbn [trimStart].
  destruct (isWhiteSpace c); [intros H; right; auto | auto].
Qed.

Lemma trimEnd_keeps_noLf l : noLf l -> noLf (trimEnd l).
Proof.
  rewrite !includesChar_false_iff. intros H Hin. apply H.
  unfold trimEnd in Hin. apply in_rev in Hin.
  apply trimStart_In in Hin. now apply in_rev.
Qed.

Lemma split_single_cons c x r :
  split [c] 0 (x :: r)
  = if Ascii.eqb c x then [] :: split [c] 0 r
    else match split [c] 0 r with
         | p :: ps => (x :: p) :: ps
         | [] => [[x]]
         end.
Proof.
  rewrite split_cons. cbn [stripPrefix List.length Nat.sub].
  now destruct (Ascii.eqb c x).
Qed.

(** The pieces of a split on one character do not hold it. *)
Lemma split_single_pieces c l :
  split [c] 0 l <> []
  /\ Forall (fun p => includesChar c p = false) (split [c] 0 l).
Proof.
  induction l as [| x r [IH1 IH2]].
  - split; [discriminate |]. repeat constructor.
  - rewrite split_single_cons. destruct (Ascii.eqb c x) eqn:E.
    + split; [discriminate |]. constructor; [reflexivity | exact IH2].
    + destruct (split [c] 0 r) as [| p ps]; [congruence |].
      split; [discriminate |].
      inversion IH2; subst. constructor; [| assumption].
      apply includesChar_cons. now split.
Qed.

(** Splitting what was joined gives the pieces back. *)
Lemma split_join c ps :
  ps <> [] ->
  Forall (fun p => includesChar c p = false) ps ->
  split [c] 0 (join [c] ps) = ps.
Proof.
  induction ps as [| p ps IH]; [congruence |]. intros _ H.
  inversion H as [| ? ? Hp Hps]; subst.
  destruct ps as [| q ps].
  - cbn [join]. now apply split_no_first.
  - change (join [c] (p :: q :: ps))
      with (p ++ [c] ++ join [c] (q :: ps)).
    rewrite (split_plain c [] p _ Hp).
    rewrite IH; [reflexivity | discriminate | exact Hps].
Qed.

(** X22.  Adding a block id rewrites one line of the file and nothing
    else.  Nothing is written exactly when the file has no line of the
    given number.  Otherwise, for a block id without line feed, the
    content written splits into the lines of the content read, with the
    one line replaced by itself without its trailing white space,
    followed by a space, a caret and the block id. *)
Theorem addBlockId_changes_one_line (content : string) (endLine : nat)
  (blockId : string) :
  let lines := split newline 0 (chars content) in
  (addBlockIdToFile content endLine blockId = None
   <-> List.length lines <= endLine)
  /\ (includesChar lf (chars blockId) = false ->
      forall written,
        addBlockIdToFile content endLine blockId = Some written ->
        exists l,
          nth_error lines endLine = Some l
          /\ split newline 0 (chars written)
             = firstn endLine lines
               ++ (trimEnd l ++ chars " ^" ++ chars blockId)
               :: skipn (S endLine) lines).
Proof.
  intros lines. unfold addBlockIdToFile. fold lines.
  destruct (nth_error lines endLine) as [l |] eqn:E.
  - split.
    + split; [discriminate |]. intros H.
      apply nth_error_None in H. congruence.
    + intros Hid written Hw. injection Hw as Hw. subst written.
      exists l. split; [reflexivity |].
      rewrite chars_str.
      change (chars " ^" ++ chars blockId)
        with (" "%char :: "^"%char :: chars blockId).
      change (match lines with [] => [] | _ :: l0 => skipn endLine l0 end)
        with (skipn (S endLine) lines).
      destruct (split_single_pieces lf (chars content)) as [_ F].
      fold newline in F. fold lines in F.
      assert (Fl : noLf l).
      { rewrite Forall_forall in F. apply F.
        now apply nth_error_In with endLine. }
      assert (F1 : Forall noLf (firstn endLine lines)
                   /\ Forall noLf (skipn (S endLine) lines)).
      { split.
        - rewrite <- (firstn_skipn endLine lines) in F.
          now apply Forall_app in F as [? _].
        - rewrite <- (firstn_skipn (S endLine) lines) in F.
          now apply Forall_app in F as [_ ?]. }
      destruct F1 as [F1 F2].
      apply split_join.
      * destruct (firstn endLine lines); discriminate.
      * apply Forall_app. split; [exact F1 |].
        constructor; [| exact F2].
        rewrite includesChar_false_iff, in_app_iff.
        rewrite includesChar_false_iff in Hid.
        pose proof (trimEnd_keeps_noLf _ Fl) as Ft.
        rewrite includesChar_false_iff in Ft.
        intros [H | [H | [H | H]]];
          [now apply Ft | discriminate | discriminate | now apply Hid].
  - split; [| discriminate].
    split; [intros _ | reflexivity]. now apply nth_error_None.
Qed.

End FileSuggestFacts.

(* ------------------------------------------------------------------ *)
(** ** Clipboard services *)

Section ClipboardFacts.
Import Clipboard.

Lemma calls_snoc {C} `{ClipboardService C} cs c (s : C) :
  calls (cs ++ [c]) s = call c (calls cs s).
Proof. unfold calls. now rewrite fold_left_app. Qed.

Lemma written_snoc cs c :
  written (cs ++ [c])
  = written cs ++ match c with WriteText t => [t] | ReadText => [] end.
Proof. unfold written. rewrite flat_map_app. cbn. now rewrite app_nil_r. Qed.

Lemma reads_snoc cs c :
  reads (cs ++ [c])
  = reads cs + match c with ReadText => 1 | WriteText _ => 0 end.
Proof.
  unfold reads. rewrite filter_app, length_app. now destruct c.
Qed.

(** X15.  A tracking clipboard over a mock clipboard, after any sequence
    of reads and writes: it has counted every read and every write and
    recorded the written texts in order, whether or not the calls
    failed.  When the mock does not fail, its write history is the list
    of the written texts and its text is the last one written, or the
    initial text before any write (the empty string without one).  When
    the mock fails, its history stays empty and its text stays the
    initial one, although the tracker has recorded the writes. *)
Theorem tracking_over_mock (o : MockClipboardOptions) (cs : list Call) :
  let t := calls cs (createTrackingClipboard (createMockClipboard o)) in
  let initial := match initialText o with Some x => x | None => "" end in
  readCount t = reads cs
  /\ writeCount t = List.length (written cs)
  /\ writtenTexts t = written cs
  /\ options (realClipboard t) = o
  /\ (failing o = false ->
      getWriteHistory (realClipboard t) = written cs
      /\ getText (realClipboard t) = last (written cs) initial
      /\ snd (readText (realClipboard t))
         = Fulfilled (last (written cs) initial))
  /\ (failing o = true ->
      getWriteHistory (realClipboard t) = []
      /\ getText (realClipboard t) = initial
      /\ snd (readText (realClipboard t)) = Rejected (accessError o)).
Proof.
  cbv zeta.
  induction cs as [| c cs IH] using rev_ind.
  - cbn. repeat split; try reflexivity;
      match goal with H : failing o = _ |- _ => now rewrite H end.
  - rewrite calls_snoc, written_snoc, reads_snoc.
    set (t := calls cs (createTrackingClipboard (createMockClipboard o))) in *.
    destruct IH as (I1 & I2 & I3 & I4 & I5 & I6).
    destruct (failing o) eqn:F.
    + destruct (I6 eq_refl) as (J1 & J2 & J3). clear I5 I6.
      unfold getWriteHistory, getText in *.
      destruct c as [| x]; cbn [call readText writeText trackingClipboard
                                  mockClipboard];
        rewrite I4, F; cbn [fst snd realClipboard readCount writeCount
                              writtenTexts options];
        rewrite ?length_app, ?app_nil_r, ?I4, ?F; cbn [List.length];
        (repeat split; try discriminate; try intros _;
         try assumption; try congruence; try lia;
         try (cbn [snd]; congruence)).
    + destruct (I5 eq_refl) as (J1 & J2 & J3). clear I5 I6.
      unfold getWriteHistory, getText in *.
      destruct c as [| x]; cbn [call readText writeText trackingClipboard
                                  mockClipboard];
        rewrite I4, F; cbn [fst snd realClipboard readCount writeCount
                              writtenTexts options text writeHistory];
        rewrite ?length_app, ?app_nil_r, ?I4, ?F, ?last_last;
        cbn [List.length];
        (repeat split; try discriminate; try intros _;
         try assumption; try congruence; try lia;
         try (cbn [snd]; congruence)).
Qed.

End ClipboardFacts.

(* ------------------------------------------------------------------ *)
(** ** The modal *)

Section ModalFacts.
Import JsString Modal.

(** X16.  The modal submits only links with a destination: there is no
    submission exactly when the destination is blank; a submitted link
    has the trimmed destination, which is not empty, and as text the
    trimmed text, or the destination when the text is blank, so its
    text is never empty either; trimming its fields again changes
    nothing, and the link type and embed flag are those of the
    toggles. *)
Theorem submit_requires_destination (m : Inputs) :
  (submit m = None <-> blank (destInput m))
  /\ forall r, submit m = Some r ->
       li_destination r = trim (destInput m)
       /\ li_text r = (if truthy (trim (textInput m))
                       then trim (textInput m)
                       else trim (destInput m))
       /\ li_destination r <> "" /\ li_text r <> ""
       /\ trim (li_destination r) = li_destination r
       /\ trim (li_text r) = li_text r
       /\ li_isWiki r = isWiki m /\ li_isEmbed r = embedToggle m.
Proof.
  unfold submit.
  destruct (truthy (trim (destInput m))) eqn:Td; cbn [negb].
  - split.
    + split; [discriminate |]. rewrite <- trim_empty_iff.
      intros H. rewrite H in Td. discriminate.
    + intros r [= <-]. cbn [li_text li_destination li_isWiki li_isEmbed].
      destruct (truthy (trim (textInput m))) eqn:Tt; cbn [negb];
        repeat split; try apply trim_idem;
        intros H; rewrite H in *; discriminate.
  - apply truthy_false_iff in Td. split; [| discriminate].
    split; [| reflexivity]. intros _. now apply trim_empty_iff.
Qed.

(** X17.  Tab and Shift+Tab walk the focusable elements in a cycle: for
    a non-empty list and an index in it, the next index is again an
    index of the list, Shift+Tab undoes Tab and Tab undoes Shift+Tab;
    an active element that is not in the list counts as the first
    one. *)
Theorem tab_cycle (length index : Z) (shiftKey : bool) :
  (0 < length)%Z -> (0 <= index < length)%Z ->
  (0 <= nextIndex index shiftKey length < length)%Z
  /\ nextIndex (nextIndex index shiftKey length) (negb shiftKey) length
     = index
  /\ nextIndex (-1) shiftKey length = nextIndex 0 shiftKey length.
Proof.
  intros Hn Hi.
  assert (R : forall i s, (0 <= i < length)%Z ->
            nextIndex i s length
            = ((i + (if s then -1 else 1) + length) mod length)%Z).
  { intros i s Hr. unfold nextIndex.
    assert (E : (i =? -1)%Z = false) by (apply Z.eqb_neq; lia).
    rewrite E. destruct s; cbn [negb];
      apply Z.rem_mod_nonneg; lia. }
  assert (B : forall i s, (0 <= i < length)%Z ->
            (0 <= nextIndex i s length < length)%Z).
  { intros i s Hr. rewrite (R i s Hr). apply Z.mod_pos_bound. lia. }
  split; [now apply B |]. split; [| reflexivity].
  rewrite (R _ _ (B index shiftKey Hi)), (R _ _ Hi).
  destruct shiftKey; cbn [negb].
  - destruct (Z.eq_dec index 0) as [-> | Hne].
    + replace (0 + -1 + length)%Z with (length - 1)%Z by lia.
      rewrite (Z.mod_small (length - 1)) by lia.
      replace (length - 1 + 1 + length)%Z with (0 + 2 * length)%Z by lia.
      rewrite Z.mod_add by lia. apply Z.mod_small. lia.
    + replace (index + -1 + length)%Z with (index - 1 + 1 * length)%Z by lia.
      rewrite Z.mod_add by lia.
      rewrite (Z.mod_small (index - 1)) by lia.
      replace (index - 1 + 1 + length)%Z with (index + 1 * length)%Z by lia.
      rewrite Z.mod_add by lia. apply Z.mod_small. lia.
  - destruct (Z.eq_dec index (length - 1)) as [-> | Hne].
    + replace (length - 1 + 1 + length)%Z with (0 + 2 * length)%Z by lia.
      rewrite Z.mod_add by lia. rewrite (Z.mod_small 0) by lia.
      replace (0 + -1 + length)%Z with (length - 1)%Z by lia.
      apply Z.mod_small. lia.
    + replace (index + 1 + length)%Z with (index + 1 + 1 * length)%Z by lia.
      rewrite Z.mod_add by lia.
      rewrite (Z.mod_small (index + 1)) by lia.
      replace (index + 1 + -1 + length)%Z with (index + 1 * length)%Z by lia.
      rewrite Z.mod_add by lia. apply Z.mod_small. lia.
Qed.

Lemma tab_cycle_witness :
  nextIndex (nextIndex 4 false 5) true 5 = 4%Z /\ nextIndex 4 false 5 = 0%Z.
Proof.
  split; [| reflexivity].
  exact (proj1 (proj2 (tab_cycle 5 4 false ltac:(lia) ltac:(lia)))).
Defined.

End ModalFacts.

(* ------------------------------------------------------------------ *)
(** ** Further properties of [src/linkOperations.ts] *)

Ltac zhyps :=
  repeat match goal with
    | H : (_ <? _)%Z = true |- _ => apply Z.ltb_lt in H
    | H : (_ <? _)%Z = false |- _ => apply Z.ltb_ge in H
    | H : (_ <=? _)%Z = true |- _ => apply Z.leb_le in H
    | H : (_ <=? _)%Z = false |- _ => apply Z.leb_gt in H
    | H : (_ =? _)%Z = true |- _ => apply Z.eqb_eq in H
    | H : (_ =? _)%Z = false |- _ => apply Z.eqb_neq in H
    end.

Section SkipTargets.

Variable detectLinkAtCursor : string -> Z -> option LinkAtCursor.

Local Abbreviation determineSkipPosition :=
  (LinkOperations.determineSkipPosition detectLinkAtCursor).

Ltac skip_target :=
  unfold spansWholeLine, hasNextLine, hasPrevLine, withinLine, pos in *;
  first
    [ exfalso; lia
    | left; split; [reflexivity | lia]
    | right; left; split; [reflexivity | lia]
    | right; right; left; split; [reflexivity | lia]
    | right; right; right; left; split; [reflexivity | lia]
    | right; right; right; right;
      split; [split; lia |]; split; [lia |]; split; [lia |];
      first [left; reflexivity | right; reflexivity] ].

(** X18.  A skip always leaves the link when there is somewhere to go.
    For a detected link that starts at an offset of the line (0 or
    more), the target is the start of the next line, which exists, or
    the end of the previous line, which exists, or the offset just past
    the link, which is within the line, or the offset just before the
    link, which is not negative.  Only when the link covers the whole
    line and there is neither a next nor a previous line does the
    cursor stay on the link, at its end or at offset 0.  So the last
    fallbacks of the skip-right and skip-left chains, the end of the
    link and offset 0, are never taken for such a link. *)
Theorem skip_leaves_link ctx lk :
  detectLinkAtCursor (sk_lineText ctx) (sk_cursorCh ctx) = Some lk ->
  (0 <= lac_start lk)%Z ->
  let s := lac_start lk in
  let e := lac_end lk in
  let ln := sk_cursorLine ctx in
  let r := determineSkipPosition ctx in
  (position r = pos (ln + 1) 0 /\ hasNextLine ctx)
  \/ (position r = pos (ln - 1) (sk_prevLineLength ctx) /\ hasPrevLine ctx)
  \/ (position r = pos ln (e + 1) /\ withinLine (e + 1) (sk_lineText ctx))
  \/ (position r = pos ln (s - 1) /\ (0 < s)%Z)
  \/ (spansWholeLine lk (sk_lineText ctx)
      /\ ~ hasNextLine ctx /\ ~ hasPrevLine ctx
      /\ (position r = pos ln e \/ position r = pos ln 0)).
Proof.
  intros H Hs. cbv zeta.
  unfold LinkOperations.determineSkipPosition. rewrite H. clear H.
  unfold LinkOperations.skipTo.
  destruct ((lac_start lk =? 0)%Z
            && (Z.of_nat (String.length (sk_lineText ctx)) <=? lac_end lk)%Z)
    eqn:W.
  - apply andb_true_iff in W as [W1 W2].
    repeat match goal with
      | |- context [if ?b then _ else _] => destruct b eqn:?
      end;
      cbn [position]; zhyps; skip_target.
  - apply andb_false_iff in W.
    repeat match goal with
      | |- context [if ?b then _ else _] => destruct b eqn:?
      end;
      cbn [position]; destruct W as [W | W]; zhyps; skip_target.
Qed.

End SkipTargets.

Section OperationAgreement.

Variable detectLinkAtCursor : string -> Z -> option LinkAtCursor.
Variable urlAtCursor : string -> Z -> option string.
Variable determineLinkFromContext : LinkContextInput -> LinkFromContext.

Local Abbreviation determineLinkOperation :=
  (LinkOperations.determineLinkOperation
     detectLinkAtCursor urlAtCursor determineLinkFromContext).
Local Abbreviation determineLinkOperationWithSelection :=
  (LinkOperations.determineLinkOperationWithSelection
     detectLinkAtCursor urlAtCursor determineLinkFromContext).

(** X19.  Both ways of determining the link operation always give an
    operation, never [null], and they differ in the replaced range
    only: on the same editor context they give the same link, the same
    flags and the same notice.  They give the very same operation when
    a link is detected, and also when the context has no selection (no
    selected text and [hasSelection] false). *)
Theorem with_selection_agrees (context : EditorContextWithSelection) :
  exists a b,
    determineLinkOperationWithSelection context = Some a
    /\ determineLinkOperation (ecs_context context) = Some b
    /\ op_link a = op_link b
    /\ op_enteredFromLeft a = op_enteredFromLeft b
    /\ op_isNewLink a = op_isNewLink b
    /\ op_shouldSelectText a = op_shouldSelectText b
    /\ op_conversionNotice a = op_conversionNotice b
    /\ (op_isNewLink a = false -> a = b)
    /\ (ecs_hasSelection context = false ->
        JsString.truthy (ec_selection (ecs_context context)) = false ->
        a = b).
Proof.
  unfold LinkOperations.determineLinkOperationWithSelection,
    LinkOperations.determineLinkOperation,
    LinkOperations.createNewLinkOperation.
  destruct (detectLinkAtCursor (ec_lineText (ecs_context context))
              (ec_cursorCh (ecs_context context))) as [lk |].
  - eexists _, _. repeat split.
  - destruct (ecs_hasSelection context) eqn:Hs;
      destruct (ecs_selectionFrom context) as [f |];
      destruct (ecs_selectionTo context) as [t |];
      destruct (JsString.truthy (ec_selection (ecs_context context))) eqn:Ts;
      destruct (JsString.truthyOpt
                  (urlAtCursor (ec_lineText (ecs_context context))
                     (ec_cursorCh (ecs_context context)))) eqn:Tu;
      eexists _, _;
      (split; [reflexivity |]); (split; [reflexivity |]);
      cbn [op_link op_enteredFromLeft op_isNewLink op_shouldSelectText
             op_conversionNotice];
      repeat split; try discriminate; intros; try discriminate; reflexivity.
Qed.

End OperationAgreement.

(* ------------------------------------------------------------------ *)
(** ** Instances of the further theorems *)

Lemma generate_then_parse_witness :
  SuggestionQuery.parseSuggestionQuery
    (SuggestionQuery.generateLinkValue
       {| SuggestionQuery.query :=
            SuggestionQuery.parseSuggestionQuery "##intro";
          SuggestionQuery.currentFilePath := Some "notes/today.md";
          SuggestionQuery.targetFileBasename := Some "my note";
          SuggestionQuery.headingText := Some "Introduction";
          SuggestionQuery.blockId := Some "abc123" |})
  = {| SuggestionQuery.type := SuggestionQuery.FileHeading;
       SuggestionQuery.fileName := Some "my note";
       SuggestionQuery.searchTerm := Some "Introduction";
       SuggestionQuery.original := "my note#Introduction" |}.
Proof.
  apply (generate_then_parse (SuggestionQuery.parseSuggestionQuery "##intro")
           (Some "notes/today.md") "my note" "Introduction" "abc123").
  - unfold plainName. repeat split; reflexivity.
  - discriminate.
  - unfold plainName. repeat split; reflexivity.
  - unfold plainName. repeat split; reflexivity.
Defined.

Lemma correctCursorPos_leaves_range_witness :
  SyntaxHider.findWikiLinkSyntaxRanges "[[a|b]]" 0
  = [ {| SyntaxHider.from := 0; SyntaxHider.to := 4;
         SyntaxHider.side := SyntaxHider.Leading |};
      {| SyntaxHider.from := 5; SyntaxHider.to := 7;
         SyntaxHider.side := SyntaxHider.Trailing |} ]%Z
  /\ SyntaxHider.correctCursorPos 1 0
       (SyntaxHider.findWikiLinkSyntaxRanges "[[a|b]]" 0) 7 = Some 4%Z
  /\ (0 <= 4 <= 7)%Z.
Proof.
  split; [reflexivity |]. split; [reflexivity |].
  refine (proj1 (correctCursorPos_leaves_range 1 0
                   (SyntaxHider.findWikiLinkSyntaxRanges "[[a|b]]" 0)
                   7 4 _ eq_refl)).
  intros h [<- | [<- | []]]; unfold rangeInDoc; cbn; lia.
Defined.

Lemma skip_leaves_link_witness :
  position
    (LinkOperations.determineSkipPosition
       (fun _ _ =>
          Some {| lac_link := {| li_text := "my-note";
                                 li_destination := "my-note";
                                 li_isWiki := true; li_isEmbed := false |};
                  lac_start := 0; lac_end := 11;
                  lac_enteredFromLeft := true |})
       {| sk_cursorLine := 0; sk_cursorCh := 3;
          sk_lineText := "[[my-note]]";
          sk_lineCount := 1; sk_prevLineLength := 0 |})
  = pos 0 11.
Proof.
  destruct (skip_leaves_link
              (fun _ _ =>
                 Some {| lac_link := {| li_text := "my-note";
                                        li_destination := "my-note";
                                        li_isWiki := true;
                                        li_isEmbed := false |};
                         lac_start := 0; lac_end := 11;
                         lac_enteredFromLeft := true |})
              {| sk_cursorLine := 0; sk_cursorCh := 3;
                 sk_lineText := "[[my-note]]";
                 sk_lineCount := 1; sk_prevLineLength := 0 |}
              _ eq_refl ltac:(cbn; lia))
    as [[_ H] | [[_ H] | [[_ H] | [[_ H] | (_ & _ & _ & _)]]]];
    try (exfalso; revert H;
         unfold hasNextLine, hasPrevLine, withinLine; cbn; lia).
  reflexivity.
Defined.

Lemma dest_marks_in_hidden_witness :
  SyntaxHider.findWikiDestMarkRanges "![[note|shown]]" 0
  = [{| SyntaxHider.markFrom := 3; SyntaxHider.markTo := 8 |}]%Z
  /\ exists h,
       In h (SyntaxHider.findWikiLinkSyntaxRanges "![[note|shown]]" 0)
       /\ SyntaxHider.to h = 8%Z.
Proof.
  split; [reflexivity |].
  destruct (dest_marks_in_hidden "![[note|shown]]" 0
              {| SyntaxHider.markFrom := 3; SyntaxHider.markTo := 8 |}
              (or_introl eq_refl))
    as (h & Hin & _ & Hto & _).
  exists h. split; [exact Hin | now rewrite <- Hto].
Defined.

Lemma addBlockId_changes_one_line_witness :
  FileSuggest.addBlockIdToFile
    (JsString.str (JsString.chars "first" ++ FileSuggest.newline
                   ++ JsString.chars "second  " ++ FileSuggest.newline
                   ++ JsString.chars "third"))
    1 "k3x9ab"
  = Some (JsString.str (JsString.chars "first" ++ FileSuggest.newline
                        ++ JsString.chars "second ^k3x9ab"
                        ++ FileSuggest.newline ++ JsString.chars "third"))
  /\ SuggestionQuery.split FileSuggest.newline 0
       (JsString.chars "first" ++ FileSuggest.newline
        ++ JsString.chars "second ^k3x9ab"
        ++ FileSuggest.newline ++ JsString.chars "third")
     = [JsString.chars "first"; JsString.chars "second ^k3x9ab";
        JsString.chars "third"].
Proof.
  split; [reflexivity |].
  destruct (proj2 (addBlockId_changes_one_line
                     (JsString.str
                        (JsString.chars "first" ++ FileSuggest.newline
                         ++ JsString.chars "second  " ++ FileSuggest.newline
                         ++ JsString.chars "third"))
                     1 "k3x9ab")
              eq_refl _ eq_refl)
    as (l & Hl & Hs).
  reflexivity.
Defined.

Lemma corrector_passes_suffice_witness :
  SyntaxHider.findWikiLinkSyntaxRanges "[[a]][[b]]" 0
  = [ {| SyntaxHider.from := 0; SyntaxHider.to := 2;
         SyntaxHider.side := SyntaxHider.Leading |};
      {| SyntaxHider.from := 3; SyntaxHider.to := 5;
         SyntaxHider.side := SyntaxHider.Trailing |};
      {| SyntaxHider.from := 5; SyntaxHider.to := 7;
         SyntaxHider.side := SyntaxHider.Leading |};
      {| SyntaxHider.from := 8; SyntaxHider.to := 10;
         SyntaxHider.side := SyntaxHider.Trailing |} ]%Z
  /\ SyntaxHider.correctHead 3 4 3
       (SyntaxHider.findWikiLinkSyntaxRanges "[[a]][[b]]" 0) 10
     = (7%Z, true)
  /\ SyntaxHider.correctCursorPos 7 3
       (SyntaxHider.findWikiLinkSyntaxRanges "[[a]][[b]]" 0) 10 = None.
Proof.
  split; [reflexivity |]. split; [reflexivity |].
  change (SyntaxHider.findWikiLinkSyntaxRanges "[[a]][[b]]" 0)
    with [ {| SyntaxHider.from := 0; SyntaxHider.to := 2;
              SyntaxHider.side := SyntaxHider.Leading |};
           {| SyntaxHider.from := 3; SyntaxHider.to := 5;
              SyntaxHider.side := SyntaxHider.Trailing |};
           {| SyntaxHider.from := 5; SyntaxHider.to := 7;
              SyntaxHider.side := SyntaxHider.Leading |};
           {| SyntaxHider.from := 8; SyntaxHider.to := 10;
              SyntaxHider.side := SyntaxHider.Trailing |} ]%Z.
  destruct (corrector_passes_suffice (fun _ _ => True) 0 10 10
              [ {| SyntaxHider.from := 0; SyntaxHider.to := 2;
                   SyntaxHider.side := SyntaxHider.Leading |};
                {| SyntaxHider.from := 3; SyntaxHider.to := 5;
                   SyntaxHider.side := SyntaxHider.Trailing |};
                {| SyntaxHider.from := 5; SyntaxHider.to := 7;
                   SyntaxHider.side := SyntaxHider.Leading |};
                {| SyntaxHider.from := 8; SyntaxHider.to := 10;
                   SyntaxHider.side := SyntaxHider.Trailing |} ]%Z
              4 3
              ltac:(cbn; repeat split; lia) ltac:(lia) ltac:(lia))
    as [H | [[H _] | [H _]]].
  - exact H.
  - discriminate H.
  - discriminate H.
Defined.
